(** * PON Estate School bot: access gate and lesson progression

    A shallow embedding of [src/index.js]: the four Telegraf handlers
    ([/activate], [/start], the button [Продолжить ▶️] and [/status]), the
    static lesson table they read, and the PostgreSQL store they talk to
    through [pool.query].

    Every [await pool.query(...)] of a handler is one node of a small
    interaction tree ([Handler]); the store and the connection pool are an
    explicit state ([DB]) on which each query is one atomic step
    ([pool_query]).  [pool] is a [pg.Pool]: each [pool.query] takes a
    connection of the pool for that one statement, so which connection
    serves a statement, whether the statement fails, and the store's clock
    are given from outside, by a schedule.  A single handler is executed by
    [run]; handlers that overlap in time (the webhook does not wait for
    [bot.handleUpdate]) are executed by [interleave], one query at a
    time.

    Beside the handlers, the development covers what fills and prepares
    the store: [createAccessCodes] of [src/create-codes.js] with its
    generator of codes, the [INSERT] of [src/create_access_codes.sql], and
    the schema statements of [initDatabase]. *)

From Stdlib Require Import QArith Qround Ascii Floats Uint63.
From stdpp Require Import gmap strings list fin_maps pretty.
Close Scope Q_scope.
Open Scope Z_scope.

(** ** JavaScript built-ins used by the handlers *)

Module JS.

(** *** Text

    A [string] stands for the JavaScript string whose UTF-8 encoding it is
    (the literals of this file are stored that way).  A built-in that works
    on characters reads the string as Unicode scalar values; a byte that is
    not part of a well-formed UTF-8 sequence stands for nothing in
    JavaScript and is passed through as it is. *)
Inductive Char :=
| Scalar (cp : Z)
| Stray (b : ascii).

Definition byte (c : ascii) : Z := Z.of_N (N_of_ascii c).

Definition of_byte (n : Z) : ascii := ascii_of_N (Z.to_N n).

Definition continuation (n : Z) : bool := (128 <=? n) && (n <? 192).

(** The scalar value of a sequence of two, three or four bytes, when the
    sequence is well formed (shortest form, no surrogate, at most
    [U+10FFFF]). *)
Definition two_bytes (n1 n2 : Z) : option Z :=
  let cp := (n1 - 192) * 64 + (n2 - 128) in
  if (192 <=? n1) && (n1 <? 224) && continuation n2 && (128 <=? cp)
  then Some cp else None.

Definition three_bytes (n1 n2 n3 : Z) : option Z :=
  let cp := ((n1 - 224) * 64 + (n2 - 128)) * 64 + (n3 - 128) in
  if (224 <=? n1) && (n1 <? 240) && continuation n2 && continuation n3
     && (2048 <=? cp) && negb ((55296 <=? cp) && (cp <? 57344))
  then Some cp else None.

Definition four_bytes (n1 n2 n3 n4 : Z) : option Z :=
  let cp := (((n1 - 240) * 64 + (n2 - 128)) * 64 + (n3 - 128)) * 64 + (n4 - 128) in
  if (240 <=? n1) && (n1 <? 248) && continuation n2 && continuation n3
     && continuation n4 && (65536 <=? cp) && (cp <? 1114112)
  then Some cp else None.

Fixpoint decode (s : string) : list Char :=
  match s with
  | EmptyString => []
  | String b1 s1 =>
      if byte b1 <? 128 then Scalar (byte b1) :: decode s1
      else
        match s1 with
        | EmptyString => [Stray b1]
        | String b2 s2 =>
            match two_bytes (byte b1) (byte b2) with
            | Some cp => Scalar cp :: decode s2
            | None =>
                match s2 with
                | EmptyString => Stray b1 :: decode s1
                | String b3 s3 =>
                    match three_bytes (byte b1) (byte b2) (byte b3) with
                    | Some cp => Scalar cp :: decode s3
                    | None =>
                        match s3 with
                        | EmptyString => Stray b1 :: decode s1
                        | String b4 s4 =>
                            match four_bytes (byte b1) (byte b2) (byte b3) (byte b4) with
                            | Some cp => Scalar cp :: decode s4
                            | None => Stray b1 :: decode s1
                            end
                        end
                    end
                end
            end
        end
  end.

Definition encode_scalar (cp : Z) : string :=
  if cp <? 128 then String (of_byte cp) EmptyString
  else if cp <? 2048 then
    String (of_byte (192 + cp / 64)) (String (of_byte (128 + cp mod 64)) EmptyString)
  else if cp <? 65536 then
    String (of_byte (224 + cp / 4096))
      (String (of_byte (128 + (cp / 64) mod 64))
         (String (of_byte (128 + cp mod 64)) EmptyString))
  else
    String (of_byte (240 + cp / 262144))
      (String (of_byte (128 + (cp / 4096) mod 64))
         (String (of_byte (128 + (cp / 64) mod 64))
            (String (of_byte (128 + cp mod 64)) EmptyString))).

Definition encode_char (c : Char) : string :=
  match c with
  | Scalar cp => encode_scalar cp
  | Stray b => String b EmptyString
  end.

Fixpoint encode (l : list Char) : string :=
  match l with
  | [] => EmptyString
  | c :: l' => encode_char c +:+ encode l'
  end.

(** The character [U+0022]. *)
Definition dq : string := String (ascii_of_nat 34) EmptyString.

(** [s.split(sep)] for a one-character separator: always at least one
    piece, empty pieces are kept. *)
Fixpoint split (sep : ascii) (s : string) : list string :=
  match s with
  | EmptyString => [EmptyString]
  | String c s' =>
      if Ascii.eqb c sep then EmptyString :: split sep s'
      else match split sep s' with
           | piece :: pieces => String c piece :: pieces
           | [] => [String c EmptyString]
           end
  end.

(** The characters whose upper case differs from them, in the case mapping
    of Unicode 14.0 ([UnicodeData.txt] and the unconditional entries of
    [SpecialCasing.txt]), which [String.prototype.toUpperCase] applies to
    every character whatever the locale.  [(first, last, step, delta)]
    stands for the characters [first], [first + step], ..., [last], each
    mapped to itself plus [delta]. *)
Definition upper_ranges : list (Z * Z * Z * Z) :=
  [ (97, 122, 1, (-32)); (181, 181, 1, 743); (224, 246, 1, (-32));
    (248, 254, 1, (-32)); (255, 255, 1, 121); (257, 303, 2, (-1));
    (305, 305, 1, (-232)); (307, 311, 2, (-1)); (314, 328, 2, (-1));
    (331, 375, 2, (-1)); (378, 382, 2, (-1)); (383, 383, 1, (-300));
    (384, 384, 1, 195); (387, 389, 2, (-1)); (392, 392, 1, (-1));
    (396, 396, 1, (-1)); (402, 402, 1, (-1)); (405, 405, 1, 97);
    (409, 409, 1, (-1)); (410, 410, 1, 163); (414, 414, 1, 130);
    (417, 421, 2, (-1)); (424, 424, 1, (-1)); (429, 429, 1, (-1));
    (432, 432, 1, (-1)); (436, 438, 2, (-1)); (441, 441, 1, (-1));
    (445, 445, 1, (-1)); (447, 447, 1, 56); (453, 453, 1, (-1));
    (454, 454, 1, (-2)); (456, 456, 1, (-1)); (457, 457, 1, (-2));
    (459, 459, 1, (-1)); (460, 460, 1, (-2)); (462, 476, 2, (-1));
    (477, 477, 1, (-79)); (479, 495, 2, (-1)); (498, 498, 1, (-1));
    (499, 499, 1, (-2)); (501, 501, 1, (-1)); (505, 543, 2, (-1));
    (547, 563, 2, (-1)); (572, 572, 1, (-1)); (575, 576, 1, 10815);
    (578, 578, 1, (-1)); (583, 591, 2, (-1)); (592, 592, 1, 10783);
    (593, 593, 1, 10780); (594, 594, 1, 10782); (595, 595, 1, (-210));
    (596, 596, 1, (-206)); (598, 599, 1, (-205)); (601, 601, 1, (-202));
    (603, 603, 1, (-203)); (604, 604, 1, 42319); (608, 608, 1, (-205));
    (609, 609, 1, 42315); (611, 611, 1, (-207)); (613, 613, 1, 42280);
    (614, 614, 1, 42308); (616, 616, 1, (-209)); (617, 617, 1, (-211));
    (618, 618, 1, 42308); (619, 619, 1, 10743); (620, 620, 1, 42305);
    (623, 623, 1, (-211)); (625, 625, 1, 10749); (626, 626, 1, (-213));
    (629, 629, 1, (-214)); (637, 637, 1, 10727); (640, 640, 1, (-218));
    (642, 642, 1, 42307); (643, 643, 1, (-218)); (647, 647, 1, 42282);
    (648, 648, 1, (-218)); (649, 649, 1, (-69)); (650, 651, 1, (-217));
    (652, 652, 1, (-71)); (658, 658, 1, (-219)); (669, 669, 1, 42261);
    (670, 670, 1, 42258); (837, 837, 1, 84); (881, 883, 2, (-1));
    (887, 887, 1, (-1)); (891, 893, 1, 130); (940, 940, 1, (-38));
    (941, 943, 1, (-37)); (945, 961, 1, (-32)); (962, 962, 1, (-31));
    (963, 971, 1, (-32)); (972, 972, 1, (-64)); (973, 974, 1, (-63));
    (976, 976, 1, (-62)); (977, 977, 1, (-57)); (981, 981, 1, (-47));
    (982, 982, 1, (-54)); (983, 983, 1, (-8)); (985, 1007, 2, (-1));
    (1008, 1008, 1, (-86)); (1009, 1009, 1, (-80)); (1010, 1010, 1, 7);
    (1011, 1011, 1, (-116)); (1013, 1013, 1, (-96)); (1016, 1016, 1, (-1));
    (1019, 1019, 1, (-1)); (1072, 1103, 1, (-32)); (1104, 1119, 1, (-80));
    (1121, 1153, 2, (-1)); (1163, 1215, 2, (-1)); (1218, 1230, 2, (-1));
    (1231, 1231, 1, (-15)); (1233, 1327, 2, (-1)); (1377, 1414, 1, (-48));
    (4304, 4346, 1, 3008); (4349, 4351, 1, 3008); (5112, 5117, 1, (-8));
    (7296, 7296, 1, (-6254)); (7297, 7297, 1, (-6253));
    (7298, 7298, 1, (-6244)); (7299, 7300, 1, (-6242));
    (7301, 7301, 1, (-6243)); (7302, 7302, 1, (-6236));
    (7303, 7303, 1, (-6181)); (7304, 7304, 1, 35266); (7545, 7545, 1, 35332);
    (7549, 7549, 1, 3814); (7566, 7566, 1, 35384); (7681, 7829, 2, (-1));
    (7835, 7835, 1, (-59)); (7841, 7935, 2, (-1)); (7936, 7943, 1, 8);
    (7952, 7957, 1, 8); (7968, 7975, 1, 8); (7984, 7991, 1, 8);
    (8000, 8005, 1, 8); (8017, 8023, 2, 8); (8032, 8039, 1, 8);
    (8048, 8049, 1, 74); (8050, 8053, 1, 86); (8054, 8055, 1, 100);
    (8056, 8057, 1, 128); (8058, 8059, 1, 112); (8060, 8061, 1, 126);
    (8112, 8113, 1, 8); (8126, 8126, 1, (-7205)); (8144, 8145, 1, 8);
    (8160, 8161, 1, 8); (8165, 8165, 1, 7); (8526, 8526, 1, (-28));
    (8560, 8575, 1, (-16)); (8580, 8580, 1, (-1)); (9424, 9449, 1, (-26));
    (11312, 11359, 1, (-48)); (11361, 11361, 1, (-1));
    (11365, 11365, 1, (-10795)); (11366, 11366, 1, (-10792));
    (11368, 11372, 2, (-1)); (11379, 11379, 1, (-1)); (11382, 11382, 1, (-1));
    (11393, 11491, 2, (-1)); (11500, 11502, 2, (-1)); (11507, 11507, 1, (-1));
    (11520, 11557, 1, (-7264)); (11559, 11559, 1, (-7264));
    (11565, 11565, 1, (-7264)); (42561, 42605, 2, (-1));
    (42625, 42651, 2, (-1)); (42787, 42799, 2, (-1)); (42803, 42863, 2, (-1));
    (42874, 42876, 2, (-1)); (42879, 42887, 2, (-1)); (42892, 42892, 1, (-1));
    (42897, 42899, 2, (-1)); (42900, 42900, 1, 48); (42903, 42921, 2, (-1));
    (42933, 42947, 2, (-1)); (42952, 42954, 2, (-1)); (42961, 42961, 1, (-1));
    (42967, 42969, 2, (-1)); (42998, 42998, 1, (-1));
    (43859, 43859, 1, (-928)); (43888, 43967, 1, (-38864));
    (65345, 65370, 1, (-32)); (66600, 66639, 1, (-40));
    (66776, 66811, 1, (-40)); (66967, 66977, 1, (-39));
    (66979, 66993, 1, (-39)); (66995, 67001, 1, (-39));
    (67003, 67004, 1, (-39)); (68800, 68850, 1, (-64));
    (71872, 71903, 1, (-32)); (93792, 93823, 1, (-32));
    (125218, 125251, 1, (-34)) ].

(** The characters whose upper case is more than one character. *)
Definition upper_special : list (Z * list Z) :=
  [ (223, [83; 83]); (329, [700; 78]); (496, [74; 780]);
    (912, [921; 776; 769]); (944, [933; 776; 769]); (1415, [1333; 1362]);
    (7830, [72; 817]); (7831, [84; 776]); (7832, [87; 778]); (7833, [89; 778]);
    (7834, [65; 702]); (8016, [933; 787]); (8018, [933; 787; 768]);
    (8020, [933; 787; 769]); (8022, [933; 787; 834]); (8064, [7944; 921]);
    (8065, [7945; 921]); (8066, [7946; 921]); (8067, [7947; 921]);
    (8068, [7948; 921]); (8069, [7949; 921]); (8070, [7950; 921]);
    (8071, [7951; 921]); (8072, [7944; 921]); (8073, [7945; 921]);
    (8074, [7946; 921]); (8075, [7947; 921]); (8076, [7948; 921]);
    (8077, [7949; 921]); (8078, [7950; 921]); (8079, [7951; 921]);
    (8080, [7976; 921]); (8081, [7977; 921]); (8082, [7978; 921]);
    (8083, [7979; 921]); (8084, [7980; 921]); (8085, [7981; 921]);
    (8086, [7982; 921]); (8087, [7983; 921]); (8088, [7976; 921]);
    (8089, [7977; 921]); (8090, [7978; 921]); (8091, [7979; 921]);
    (8092, [7980; 921]); (8093, [7981; 921]); (8094, [7982; 921]);
    (8095, [7983; 921]); (8096, [8040; 921]); (8097, [8041; 921]);
    (8098, [8042; 921]); (8099, [8043; 921]); (8100, [8044; 921]);
    (8101, [8045; 921]); (8102, [8046; 921]); (8103, [8047; 921]);
    (8104, [8040; 921]); (8105, [8041; 921]); (8106, [8042; 921]);
    (8107, [8043; 921]); (8108, [8044; 921]); (8109, [8045; 921]);
    (8110, [8046; 921]); (8111, [8047; 921]); (8114, [8122; 921]);
    (8115, [913; 921]); (8116, [902; 921]); (8118, [913; 834]);
    (8119, [913; 834; 921]); (8124, [913; 921]); (8130, [8138; 921]);
    (8131, [919; 921]); (8132, [905; 921]); (8134, [919; 834]);
    (8135, [919; 834; 921]); (8140, [919; 921]); (8146, [921; 776; 768]);
    (8147, [921; 776; 769]); (8150, [921; 834]); (8151, [921; 776; 834]);
    (8162, [933; 776; 768]); (8163, [933; 776; 769]); (8164, [929; 787]);
    (8166, [933; 834]); (8167, [933; 776; 834]); (8178, [8186; 921]);
    (8179, [937; 921]); (8180, [911; 921]); (8182, [937; 834]);
    (8183, [937; 834; 921]); (8188, [937; 921]); (64256, [70; 70]);
    (64257, [70; 73]); (64258, [70; 76]); (64259, [70; 70; 73]);
    (64260, [70; 70; 76]); (64261, [83; 84]); (64262, [83; 84]);
    (64275, [1348; 1350]); (64276, [1348; 1333]); (64277, [1348; 1339]);
    (64278, [1358; 1350]); (64279, [1348; 1341]) ].

Definition in_range (cp : Z) (r : Z * Z * Z * Z) : bool :=
  let '(first, last, step, _) := r in
  (first <=? cp) && (cp <=? last) && ((cp - first) mod step =? 0).

Definition upper (cp : Z) : list Z :=
  match List.find (fun e => fst e =? cp) upper_special with
  | Some e => snd e
  | None =>
      match List.find (in_range cp) upper_ranges with
      | Some (_, _, _, delta) => [cp + delta]
      | None => [cp]
      end
  end.

Definition upper_char (c : Char) : list Char :=
  match c with
  | Scalar cp => Scalar <$> upper cp
  | Stray b => [Stray b]
  end.

(** [s.toUpperCase()]. *)
Definition toUpperCase (s : string) : string :=
  encode (flat_map upper_char (decode s)).

(** White space and line terminators: TAB, LF, VT, FF, CR, the characters
    of category Zs (SPACE, NO-BREAK SPACE, ...), LINE SEPARATOR, PARAGRAPH
    SEPARATOR and ZERO WIDTH NO-BREAK SPACE. *)
Definition white_space : list Z :=
  [ 9; 10; 11; 12; 13; 32; 160; 5760; 8192; 8193; 8194; 8195; 8196; 8197;
    8198; 8199; 8200; 8201; 8202; 8232; 8233; 8239; 8287; 12288; 65279 ].

Definition is_white (c : Char) : bool :=
  match c with
  | Scalar cp => existsb (Z.eqb cp) white_space
  | Stray _ => false
  end.

Fixpoint trimStart_chars (l : list Char) : list Char :=
  match l with
  | [] => []
  | c :: l' => if is_white c then trimStart_chars l' else l
  end.

(** Trimming at the end keeps a character when it is not white space or
    when something that is kept follows it. *)
Fixpoint trimEnd_chars (l : list Char) : list Char :=
  match l with
  | [] => []
  | c :: l' =>
      match trimEnd_chars l' with
      | [] => if is_white c then [] else [c]
      | rest => c :: rest
      end
  end.

(** [s.trim()]. *)
Definition trim (s : string) : string :=
  encode (trimEnd_chars (trimStart_chars (decode s))).

(** What [toUpperCase] does to a character of the ASCII range: [a]-[z]
    become [A]-[Z], the others stay. *)
Definition upper_ascii (c : ascii) : ascii :=
  let n := nat_of_ascii c in
  if (97 <=? n)%nat && (n <=? 122)%nat then ascii_of_nat (n - 32) else c.

Fixpoint upper_ascii_string (s : string) : string :=
  match s with
  | EmptyString => EmptyString
  | String c s' => String (upper_ascii c) (upper_ascii_string s')
  end.

(** The string of the characters [l]. *)
Definition text_of (l : list Z) : string := encode (Scalar <$> l).

(** Every byte of [s] passes [p]. *)
Fixpoint every_char (p : ascii -> bool) (s : string) : bool :=
  match s with
  | EmptyString => true
  | String c s' => p c && every_char p s'
  end.

(** A character of the ASCII range that is printed and is not the blank. *)
Definition printable (c : ascii) : bool := (33 <=? byte c) && (byte c <=? 126).

(** White space other than the blank [U+0020]. *)
Definition spacing (cp : Z) : bool := is_white (Scalar cp) && negb (cp =? 32).

(** The characters of a string of the ASCII range. *)
Fixpoint bytes (s : string) : list Z :=
  match s with
  | EmptyString => []
  | String c s' => byte c :: bytes s'
  end.

(** A Unicode scalar value: a code point that is not a surrogate. *)
Definition scalar (cp : Z) : Prop :=
  0 <= cp < 1114112 /\ ~ (55296 <= cp < 57344).

(** Truthiness of a value that is a string or [undefined]. *)
Definition truthy (v : option string) : bool :=
  match v with
  | Some (String _ _) => true
  | _ => false
  end.

(** [a[i]] on an array: [undefined] outside [0 .. a.length - 1]. *)
Definition index {A} (a : list A) (i : Z) : option A :=
  if i <? 0 then None else a !! Z.to_nat i.

(** [Math.round] on an exact quotient: the nearest integer, halves go up.
    The handlers call it on [(c / 10) * 100] for a 32-bit integer [c]; the
    double computed there is within [2^-17] of [10 * c], so the rounding
    of the exact value and of the double agree. *)
Definition Math_round (x : Q) : Z := Qfloor (x + (1 # 2))%Q.

End JS.

(** ** Data model *)

(** A calendar date in the rendering [YYYY-MM-DD] that [today()] and
    [toISOString().split('T')[0]] produce. *)
Definition Date : Type := string.

(** A point in time of the store's clock ([NOW()]). *)
Definition Timestamp : Type := Z.

(** One row of table [users], keyed by [telegram_id].  The columns [id],
    [created_at] and [updated_at] are never read by a handler and are left
    out.  Every statement that writes [has_access] or [current_lesson]
    writes a value, so the columns are modelled without SQL NULL. *)
Record User := {
  has_access : bool;
  current_lesson : Z;
  last_lesson_date : option Date
}.

(** One row of table [access_codes], keyed by [code]. *)
Record AccessCode := {
  is_used : bool;
  used_by_telegram_id : option Z;
  used_at : option Timestamp
}.

Record Tables := {
  users : gmap Z User;
  access_codes : gmap string AccessCode
}.

(** An entry of [lesson.materials]. *)
Record Material := {
  m_title : string;
  m_url : string
}.

(** An entry of [lessons]; a field the object literal does not have is
    [None]. *)
Record Lesson := {
  title : string;
  text : string;
  materials : option (list Material);
  materialUrl : option string;
  homeworkUrl : option string;
  homeworkText : option string;
  additionalText : option string
}.

Import JS.

Definition lessons : list Lesson := [
  {| title := "ДЕНЬ 1 - Введение в профессию";
     text := "Добро пожаловать в школу PON Estate! 🎓

Сегодня ты узнаешь:
• Кто такой агент недвижимости
• Как зарабатывают агенты в Батуми
• Структура работы в PON Estate
• Цели обучения и правила курса
• Знакомство с руководителем компании Андреем Пономаренко";
     materials := Some [
       {| m_title := "Кто такой агент недвижимости";
          m_url := "https://docs.google.com/document/d/1kPVAowcRpHKklw8pqBtvjvxtnO5xn8C5Jvd8s6ZFNj4/edit?tab=t.0" |};
       {| m_title := "Как зарабатывают агенты в Батуми";
          m_url := "https://docs.google.com/document/d/1kPVAowcRpHKklw8pqBtvjvxtnO5xn8C5Jvd8s6ZFNj4/edit?tab=t.f3gau11buy43" |};
       {| m_title := "Цели обучения и правила курса";
          m_url := "https://docs.google.com/document/d/1kPVAowcRpHKklw8pqBtvjvxtnO5xn8C5Jvd8s6ZFNj4/edit?tab=t.9tfoxz9ptwgi" |}
     ];
     materialUrl := None;
     homeworkUrl := Some "https://forms.gle/51zvGQH7waJT52XdA";
     homeworkText := Some "Домашнее задание:
• Написать, почему вы решили работать в недвижимости
• Сформулировать личную цель на время обучения и на ближайшие 6 месяцев
• Изучить Intourist Palace Hotel (Мы направим материалы по объекту, после чего будет тест по нему + дз)";
     additionalText := Some "Оставляю тебе всю информацию по проекту BATMSHENI INTOURIST 📚 и ссылку на него https://docs.google.com/document/d/1kPVAowcRpHKklw8pqBtvjvxtnO5xn8C5Jvd8s6ZFNj4/edit?tab=t.rowiuij0gzqr" |};
  {| title := "ДЕНЬ 2 - Рынок недвижимости Батуми";
     text := "Сегодня ты узнаешь:
• Типы объектов недвижимости
• Застройщики и проекты
• Первичный и вторичный рынок
• Инвестиции и жизнь

Понимание рынка — основа успеха!";
     materials := Some [
       {| m_title := "Типы объектов";
          m_url := "https://docs.google.com/document/d/1M5_BdAznd0VlvFZ8xiERY-Ks8nIj0DsKL3n3oRZyZec/edit?tab=t.d7qzm4ob1fg7" |};
       {| m_title := "Застройщики и проекты";
          m_url := "https://docs.google.com/document/d/1M5_BdAznd0VlvFZ8xiERY-Ks8nIj0DsKL3n3oRZyZec/edit?tab=t.d7qzm4ob1fg7" |};
       {| m_title := "Первичка / вторичка";
          m_url := "https://docs.google.com/document/d/1M5_BdAznd0VlvFZ8xiERY-Ks8nIj0DsKL3n3oRZyZec/edit?tab=t.d7qzm4ob1fg7" |};
       {| m_title := "Инвестиции и жизнь";
          m_url := "https://docs.google.com/document/d/1M5_BdAznd0VlvFZ8xiERY-Ks8nIj0DsKL3n3oRZyZec/edit?tab=t.d7qzm4ob1fg7" |}
     ];
     materialUrl := None;
     homeworkUrl := Some "https://docs.google.com/forms/d/e/1FAIpQLSda-eFMYysVAJpa33H7p-6RA2RDW9Sm2fJoHACxPiu5WECE9Q/viewform?usp=header";
     homeworkText := Some "Домашнее задание:
• Выписать основные типы объектов недвижимости в Батуми
• Назвать минимум 5 застройщиков и 5 проектов
• Кратко описать разницу между первичным и вторичным рынком
• Почему вы хотите работать именно в недвижимости и что для вас важнее: быстрый доход или долгосрочные отношения с клиентом? Почему?
• Изучить проект Metropol OVAL + ТЕСТ";
     additionalText := Some "Оставляю тебе всю информацию по проекту METROPOL OVAL 📚 - https://docs.google.com/document/d/1M5_BdAznd0VlvFZ8xiERY-Ks8nIj0DsKL3n3oRZyZec/edit?tab=t.osdxzbkkccv7" |};
  {| title := "ДЕНЬ 3 - Клиенты и лиды";
     text := "Сегодня ты узнаешь:
• Кто такой лид
• Откуда приходят клиенты
• Холодные, тёплые и горячие лиды
• Правила работы с лидами

Инструкция по обработке лидов есть в базе знаний.";
     materials := Some [
       {| m_title := "Кто такой лид";
          m_url := "https://docs.google.com/document/d/1EPxx6phfSSAnnZ9GeXN6mrvAhDcXTvTuVZfs0-ZQyS0/edit?tab=t.0" |};
       {| m_title := "Откуда приходят клиенты";
          m_url := "https://docs.google.com/document/d/1EPxx6phfSSAnnZ9GeXN6mrvAhDcXTvTuVZfs0-ZQyS0/edit?tab=t.ogbr38nve0k9" |};
       {| m_title := "Холодные, тёплые и горячие лиды";
          m_url := "https://docs.google.com/document/d/1EPxx6phfSSAnnZ9GeXN6mrvAhDcXTvTuVZfs0-ZQyS0/edit?tab=t.11yg0hd7rzpg" |};
       {| m_title := "Правила работы с лидами";
          m_url := "https://docs.google.com/document/d/1EPxx6phfSSAnnZ9GeXN6mrvAhDcXTvTuVZfs0-ZQyS0/edit?tab=t.iqjhkagqmnt4" |}
     ];
     materialUrl := None;
     homeworkUrl := Some "https://forms.gle/a9vTP9aD4dfBvyVF7";
     homeworkText := Some ("Домашнее задание:
• Описать разницу между холодными, тёплыми и горячими лидами
• Выписать основные ошибки новичков при работе с лидами
• Кратко описать алгоритм работы с лидом
• Как вы реагируете, когда клиент говорит " +:+ dq +:+ "нет" +:+ dq +:+ " несколько раз подряд? Что вы делаете дальше?
• Изучить проект Next Group Address + ТЕСТ");
     additionalText := Some "Оставляю тебе всю информацию по проекту NEXT GROUP ADDRESS 📚 - " |};
  {| title := "ДЕНЬ 4 - Сообщения клиенту и коммуникация";
     text := "Сегодня ты узнаешь:
• Как писать первое сообщение клиенту
• WhatsApp / Telegram / Instagram: особенности общения
• Этику общения с клиентом
• Зачем и как выводить клиента на Zoom и личные встречи
• Шаблоны сообщений
• Чего нельзя писать и говорить клиенту

Этика общения с клиентом и шаблоны сообщений есть в базе знаний.";
     materials := Some [
       {| m_title := "Как писать первое сообщение клиенту";
          m_url := "https://docs.google.com/document/d/1BDCNDZcYRk92RXfvjSGGugTN_UeplcvgG7skhPAqWpM/edit?tab=t.0" |};
       {| m_title := "Этика общения с клиентом";
          m_url := "https://docs.google.com/document/d/1BDCNDZcYRk92RXfvjSGGugTN_UeplcvgG7skhPAqWpM/edit?tab=t.l5o4h5enfd91" |};
       {| m_title := "Шаблоны сообщений";
          m_url := "https://docs.google.com/document/d/1BDCNDZcYRk92RXfvjSGGugTN_UeplcvgG7skhPAqWpM/edit?tab=t.n53x4nrvf3lp" |};
       {| m_title := "Чего нельзя писать и говорить клиенту";
          m_url := "https://docs.google.com/document/d/1BDCNDZcYRk92RXfvjSGGugTN_UeplcvgG7skhPAqWpM/edit?tab=t.gkok157u1tz8" |}
     ];
     materialUrl := None;
     homeworkUrl := Some "https://forms.gle/63k8QNfiKwNy1ahK6";
     homeworkText := Some "Домашнее задание:
• Написать 3 варианта первого сообщения клиенту
• Написать сообщение для вывода клиента на Zoom
• Что такое этика общения с клиентом
• Представьте, что клиент недоволен и раздражён. Как вы будете с ним общаться?
• Изучить проект One Development Stay&Rent + ТЕСТ";
     additionalText := Some "Оставляю тебе всю информацию по проекту ONE DEVELOPMENT Stay&Rent 📚 - https://docs.google.com/document/d/1BDCNDZcYRk92RXfvjSGGugTN_UeplcvgG7skhPAqWpM/edit?tab=t.dyzh0s1ch7u" |};
  {| title := "ДЕНЬ 5 - Звонки";
     text := "Сегодня ты узнаешь:
• Как выходить на звонок
• Структуру звонка
• Первые скрипты
• Страхи и возражения

Фишки: Живые звонки с клиентами
Ученики присутствуют на реальных звонках топ-агентов и слушают, как закрываются сделки вживую или делают записи для прослушивания (надо показать пример, не только по скриптам).";
     materials := Some [
       {| m_title := "Как выходить на звонок";
          m_url := "https://docs.google.com/document/d/YOUR_DOC_ID_5_1" |};
       {| m_title := "Структура звонка";
          m_url := "https://docs.google.com/document/d/YOUR_DOC_ID_5_2" |};
       {| m_title := "Первые скрипты";
          m_url := "https://docs.google.com/document/d/YOUR_DOC_ID_5_3" |};
       {| m_title := "Страхи и возражения";
          m_url := "https://docs.google.com/document/d/YOUR_DOC_ID_5_4" |}
     ];
     materialUrl := None;
     homeworkUrl := Some "https://docs.google.com/forms/d/e/1FAIpQLSfyr5smdXx1UoLXYeVIq288XMD7qh2lI2Xhd-g6eZOBAkJLPQ/viewform?usp=header";
     homeworkText := Some "Домашнее задание:
• Выписать структуру идеального звонка
• Написать короткий скрипт первого звонка клиенту
• Перечислить основные страхи клиентов и варианты ответов на них
• Опишите ситуацию, в которой вам пришлось взять ответственность. Чем всё закончилось?
• Подготовить 3 примера возражений и способы их отработки
• Изучить проект Smart Development Summer 365 + ТЕСТ";
     additionalText := None |};
  {| title := "ДЕНЬ 6 - Воронка продаж и работа с возражениями";
     text := "Сегодня ты узнаешь:
• Что такое воронка продаж в недвижимости
• Этапы воронки: лид → контакт → интерес → решение → сделка
• Технику СПВ (свойство – преимущество – выгода)
• Отработку ключевых возражений клиента: «дорого», «я подумаю», «я сравниваю», «мне не срочно»

Техника СПВ есть в базе знаний.";
     materials := Some [
       {| m_title := "Что такое воронка продаж в недвижимости";
          m_url := "https://docs.google.com/document/d/YOUR_DOC_ID_6_1" |};
       {| m_title := "Этапы воронки";
          m_url := "https://docs.google.com/document/d/YOUR_DOC_ID_6_2" |};
       {| m_title := "Техника СПВ (свойство – преимущество – выгода)";
          m_url := "https://docs.google.com/document/d/YOUR_DOC_ID_6_3" |};
       {| m_title := "Отработка возражений";
          m_url := "https://docs.google.com/document/d/YOUR_DOC_ID_6_4" |}
     ];
     materialUrl := None;
     homeworkUrl := Some "https://forms.gle/mG3RHbaMdmeh6QmH6";
     homeworkText := Some "Домашнее задание:
• Выписать этапы воронки продаж и роль агента на каждом этапе
• Разобрать одно возражение по технике СПВ (на выбор)
• Написать пример ответа клиенту на возражение «дорого»
• Подготовить вариант следующего шага для клиента после отказа
• Как вы планируете развиваться в профессии в первые 3–6 месяцев работы?
• Изучить проект SILK: Silk Towers - Green Cape Botanico + ТЕСТ";
     additionalText := None |};
  {| title := "ДЕНЬ 7 - Отработка возражений и этапы сделки";
     text := "Сегодня ты узнаешь:
• Работу с возражениями клиента
• Документы по сделке
• Этапы сделки
• Бронирование
• Договоры

Работа с возражениями клиента есть в базе знаний.";
     materials := Some [
       {| m_title := "Работа с возражениями клиента";
          m_url := "https://docs.google.com/document/d/16LbJ32XC_PCpIwBXhwYCfJY23kpiHFnz5UxWUfR-IVI/edit?tab=t.gw7jr0g0jvjo" |};
       {| m_title := "Документы по сделке";
          m_url := "https://docs.google.com/document/d/16LbJ32XC_PCpIwBXhwYCfJY23kpiHFnz5UxWUfR-IVI/edit?tab=t.gw7jr0g0jvjo" |};
       {| m_title := "Этапы сделки";
          m_url := "https://docs.google.com/document/d/16LbJ32XC_PCpIwBXhwYCfJY23kpiHFnz5UxWUfR-IVI/edit?tab=t.gw7jr0g0jvjo" |};
       {| m_title := "Бронирование";
          m_url := "https://docs.google.com/document/d/16LbJ32XC_PCpIwBXhwYCfJY23kpiHFnz5UxWUfR-IVI/edit?tab=t.ija76gadxnv9" |};
       {| m_title := "Договоры";
          m_url := "https://docs.google.com/document/d/16LbJ32XC_PCpIwBXhwYCfJY23kpiHFnz5UxWUfR-IVI/edit?tab=t.6y9slqffocy5" |}
     ];
     materialUrl := None;
     homeworkUrl := Some "https://docs.google.com/forms/d/e/1FAIpQLScmcBLgDfq6vju-D4A8mfZ-jYPI56tY1BVaH6Kmkt0kYQNm6A/viewform?usp=header";
     homeworkText := Some "Домашнее задание:
• Выписать основные этапы сделки от первого контакта до подписания договора
• Перечислить документы, необходимые для сделки
• Описать процесс бронирования объекта
• Если вы не знаете ответ на вопрос клиента, как вы поступите?
• Подготовить 3 возражения клиента и варианты их отработки
• Изучить проект Pontus Rotana + ТЕСТ";
     additionalText := None |};
  {| title := "ДЕНЬ 8 - Психотипы клиентов и показы";
     text := "Сегодня ты узнаешь:
• Психотипы клиентов
• Разбор целевой аудитории
• Подготовку к показу объекта
• Как вести клиента на показе
• Типовые ошибки при показах

Знакомство с РОПом Василием Каракезиди: запись видео-знакомства или проведение Zoom-встречи (мотивационный блок). Обсуждение психотипов клиентов.

Разбор целевой аудитории есть в базе знаний.";
     materials := Some [
       {| m_title := "Психотипы клиентов";
          m_url := "https://docs.google.com/document/d/YOUR_DOC_ID_8_1" |};
       {| m_title := "Разбор целевой аудитории";
          m_url := "https://docs.google.com/document/d/1JIHhJVjWAw_luE8czJqKn7ru5UTIvRRN9K8n18_v1BE/edit?tab=t.v6twkus3zx7b" |};
       {| m_title := "Подготовка к показу объекта";
          m_url := "https://docs.google.com/document/d/YOUR_DOC_ID_8_3" |};
       {| m_title := "Как вести клиента на показе";
          m_url := "https://docs.google.com/document/d/YOUR_DOC_ID_8_4" |};
       {| m_title := "Типовые ошибки при показах";
          m_url := "https://docs.google.com/document/d/YOUR_DOC_ID_8_5" |}
     ];
     materialUrl := None;
     homeworkUrl := Some "https://forms.gle/noHwcAbF1rJxGU8D8";
     homeworkText := Some "Домашнее задание:
• Описать основные психотипы клиентов и их особенности
• Определить целевую аудиторию для разных типов объектов
• Выписать этапы подготовки к показу
• Перечислить типовые ошибки агентов на показах
• Что для вас значит профессиональная этика в работе с клиентами?
• Изучить проект Symbol Monogram + ТЕСТ";
     additionalText := None |};
  {| title := "ДЕНЬ 9 - Чек-листы агента";
     text := "Сегодня ты узнаешь:
• Чек-лист звонка
• Чек-лист встречи
• Чек-лист сделки

Эти инструменты помогут тебе структурировать работу и ничего не упустить!";
     materials := Some [
       {| m_title := "Чек-лист звонка";
          m_url := "https://docs.google.com/document/d/10DNi9qd4AseI-sswsUKWdJLbKI1_DRukZL_ZGzArKao/edit?tab=t.0" |};
       {| m_title := "Чек-лист встречи";
          m_url := "https://docs.google.com/document/d/10DNi9qd4AseI-sswsUKWdJLbKI1_DRukZL_ZGzArKao/edit?tab=t.s2c0d5n0o5mz" |};
       {| m_title := "Чек-лист сделки";
          m_url := "https://docs.google.com/document/d/10DNi9qd4AseI-sswsUKWdJLbKI1_DRukZL_ZGzArKao/edit?tab=t.oshrtcvv96yp" |}
     ];
     materialUrl := None;
     homeworkUrl := Some "https://forms.gle/6KN3ujeuyQCxovU27";
     homeworkText := Some "Домашнее задание:
• Составить чек-лист первого звонка клиенту
• Составить чек-лист личной встречи или Zoom-встречи
• Составить чек-лист сопровождения сделки
• Готовы ли вы работать с большим количеством информации, учиться ежедневно и выполнять план? Почему?
• Изучить проект Queen's Residence + ТЕСТ";
     additionalText := None |};
  {| title := "ДЕНЬ 10 - Итог теории";
     text := "Поздравляем! Ты завершил теоретический курс! 🎓

Сегодня:
• Разбор вопросов
• Тестирование
• Допуск к практике

Знакомство с РОПом Андреем Бабучем: запись видео-знакомства или проведение Zoom-встречи (мотивационный блок).

Теперь ты готов применить все знания на практике!

Успехов! 🚀";
     materials := Some [
       {| m_title := "Разбор вопросов";
          m_url := "https://docs.google.com/document/d/YOUR_DOC_ID_10_1" |};
       {| m_title := "Тестирование";
          m_url := "https://docs.google.com/document/d/YOUR_DOC_ID_10_2" |};
       {| m_title := "Допуск к практике";
          m_url := "https://docs.google.com/document/d/YOUR_DOC_ID_10_3" |}
     ];
     materialUrl := None;
     homeworkUrl := Some "https://forms.gle/mGkCSHcv2YS9Hs666";
     homeworkText := Some "Домашнее задание:
• Расскажите своими словами: что вы вынесли из обучения, чем оно было полезно лично для вас и какие цели ставите перед собой дальше?
• Опишите, как обучение повлияло на ваше понимание проектов и работы с клиентами. Что вы уже готовы применять на практике?
• Как бы вы описали это обучение? Какие знания вы получили и какие навыки хотели бы развить дальше?
• Поделитесь своими впечатлениями от обучения: что нового вы узнали, что изменилось в вашем понимании продукта и какие шаги вы планируете сделать дальше?
• Что из пройденного обучения оказалось для вас наиболее полезным? Какие инструменты или подходы вы планируете использовать в ближайшее время?
• Опишите, пожалуйста: как вы оцениваете обучение, какие знания или инсайты были для вас самыми ценными и как вы планируете применять их в работе?
• Рассматриваете ли вы возможность дальнейшего профессионального развития в сфере недвижимости совместно с компанией Pon Estate?
• Изучить проект Ambassadori Island + ТЕСТ";
     additionalText := None |}
].

Arguments lessons : simpl never.

(** ** Replies *)

(** What a handler sends with [ctx.reply]: one constructor for each call
    site, carrying the values interpolated into the text. *)
Inductive Reply :=
| CodeMissing
| CodeNotFound
| CodeAlreadyUsed
| Granted
| AccessDeniedBot
| AccessDeniedLessons
| Welcome (username : string) (lesson : Lesson)
| NoSuchUser
| TooSoon
| CourseComplete
| LessonReply (lesson : Lesson)
| StatusReport (current total percent : Z) (last : option Date)
| ErrorReply
| StatusErrorReply.

(** [index.js] 640-664 and 764-788: the text built from a lesson. *)
Fixpoint materials_text (i : Z) (ms : list Material) : string :=
  match ms with
  | [] => EmptyString
  | m :: ms' =>
      pretty (i + 1) +:+ ". " +:+ m_title m +:+ "
" +:+ m_url m +:+ "

" +:+ materials_text (i + 1) ms'
  end.

Definition when_truthy (v : option string) (f : string -> string) : string :=
  match v with
  | Some s => if truthy v then f s else EmptyString
  | None => EmptyString
  end.

Definition lesson_message (lesson : Lesson) : string :=
  "📘 " +:+ title lesson +:+ "

" +:+ text lesson +:+ "

"
  +:+ match materials lesson with
     | Some (m :: ms) => "📄 Материалы:
" +:+ materials_text 0 (m :: ms)
     | _ => when_truthy (materialUrl lesson) (fun u => "📄 Материал:
" +:+ u +:+ "

")
     end
  +:+ when_truthy (homeworkText lesson) (fun s => s +:+ "

")
  +:+ when_truthy (homeworkUrl lesson) (fun u => "📝 Ссылка на тест:
" +:+ u +:+ "

")
  +:+ when_truthy (additionalText lesson) (fun s => s +:+ "

")
  +:+ "После выполнения вернитесь завтра и нажмите " +:+ dq +:+ "Продолжить" +:+ dq +:+ ".".

Definition access_hint : string :=
  "Используйте команду: /activate ВАШ_КОД

Если у вас нет кода, обратитесь к администратору.".

(** The text of each reply. *)
Definition reply_text (r : Reply) : string :=
  match r with
  | CodeMissing => "❌ Пожалуйста, укажите код доступа.

Использование: /activate ВАШ_КОД"
  | CodeNotFound => "❌ Код доступа не найден. Проверьте правильность ввода."
  | CodeAlreadyUsed => "❌ Этот код уже был использован."
  | Granted => "✅ Код доступа активирован! Теперь вы можете использовать бота.

Напишите /start для начала обучения."
  | AccessDeniedBot => "🔒 Для доступа к боту необходимо активировать код доступа.

" +:+ access_hint
  | AccessDeniedLessons => "🔒 Для доступа к урокам необходимо активировать код доступа.

" +:+ access_hint
  | Welcome username lesson => "Добро пожаловать, " +:+ username +:+ "! 👋

" +:+ lesson_message lesson
  | NoSuchUser => "❌ Сначала напишите /start"
  | TooSoon => "⏳ Следующий урок будет доступен завтра."
  | CourseComplete => "🎓 Курс завершен.
Спасибо за прохождение обучения."
  | LessonReply lesson => lesson_message lesson
  | StatusReport current total percent last =>
      "📊 Ваш прогресс:

" +:+ "Урок: " +:+ pretty current +:+ " из " +:+ pretty total +:+ "
" +:+ "Прогресс: " +:+ pretty percent +:+ "%
" +:+ "Последний урок: " +:+ default "еще не пройден" last
  | ErrorReply => "❌ Произошла ошибка. Попробуйте позже."
  | StatusErrorReply => "❌ Произошла ошибка"
  end.

(** The one-button keyboard sent with a reply, when there is one. *)
Definition reply_keyboard (r : Reply) : option string :=
  match r with
  | Granted => Some "/start"
  | Welcome _ _ | LessonReply _ => Some "Продолжить ▶️"
  | _ => None
  end.

(** ** The store behind [pool] *)

(** The data-changing statements the handlers send, with their bound
    parameters.

    - [MarkCodeUsed telegramId code]: [UPDATE access_codes SET is_used = TRUE,
      used_by_telegram_id = $1, used_at = NOW() WHERE code = $2];
    - [UpsertUserAccess telegramId todayDate]: [INSERT INTO users
      (telegram_id, has_access, current_lesson, last_lesson_date, created_at)
      VALUES ($1, TRUE, 1, $2, NOW()) ON CONFLICT (telegram_id) DO UPDATE SET
      has_access = TRUE];
    - [UpdateLesson n todayDate telegramId]: [UPDATE users SET current_lesson
      = $1, last_lesson_date = $2 WHERE telegram_id = $3]; [/start] sends the
      same statement with [1] written in its text. *)
Inductive Write :=
| MarkCodeUsed (telegramId : Z) (code : string)
| UpsertUserAccess (telegramId : Z) (todayDate : Date)
| UpdateLesson (n : Z) (todayDate : Date) (telegramId : Z).

(** The row values the statements write. *)
Definition used_by (telegramId : Z) (now : Timestamp) : AccessCode :=
  {| is_used := true;
     used_by_telegram_id := Some telegramId;
     used_at := Some now |}.

Definition new_user (todayDate : Date) : User :=
  {| has_access := true;
     current_lesson := 1;
     last_lesson_date := Some todayDate |}.

Definition with_access (u : User) : User :=
  {| has_access := true;
     current_lesson := current_lesson u;
     last_lesson_date := last_lesson_date u |}.

Definition at_lesson (n : Z) (todayDate : Date) (u : User) : User :=
  {| has_access := has_access u;
     current_lesson := n;
     last_lesson_date := Some todayDate |}.

Definition apply_write (now : Timestamp) (w : Write) (t : Tables) : Tables :=
  match w with
  | MarkCodeUsed telegramId code =>
      {| users := users t;
         access_codes := alter (fun _ => used_by telegramId now) code (access_codes t) |}
  | UpsertUserAccess telegramId todayDate =>
      {| users :=
           match users t !! telegramId with
           | Some u => <[telegramId := with_access u]> (users t)
           | None => <[telegramId := new_user todayDate]> (users t)
           end;
         access_codes := access_codes t |}
  | UpdateLesson n todayDate telegramId =>
      {| users := alter (at_lesson n todayDate) telegramId (users t);
         access_codes := access_codes t |}
  end.

(** A statement given to [pool.query]. *)
Inductive Query :=
| SelectAccessCode (code : string)
| SelectHasAccess (telegramId : Z)
| SelectUser (telegramId : Z)
| Execute (w : Write)
| BEGIN
| COMMIT
| ROLLBACK.

(** What the promise of a statement resolves to.  A [SELECT] by a unique
    key yields no row or one row. *)
Definition Rows (q : Query) : Type :=
  match q with
  | SelectAccessCode _ => option AccessCode
  | SelectHasAccess _ => option bool
  | SelectUser _ => option User
  | _ => unit
  end.

(** The promise returned by [pool.query] resolves or rejects. *)
Inductive Result (T : Type) : Type :=
| Resolved (v : T)
| Rejected.
Arguments Resolved {T} v.
Arguments Rejected {T}.

(** A pooled connection is outside a transaction or inside one; inside, it
    holds the time at which the transaction started and the writes it has
    not committed yet. *)
Inductive Session :=
| Idle
| InTransaction (started : Timestamp) (pending : list Write).

Record DB := {
  committed : Tables;
  sessions : nat -> Session
}.

Definition set_session (c : nat) (s : Session) (db : DB) : DB :=
  {| committed := committed db;
     sessions := fun c' => if (c' =? c)%nat then s else sessions db c' |}.

(** The writes of a transaction, applied in order.  [NOW()] is the time at
    which the transaction started, for every statement in it. *)
Definition commit_writes (started : Timestamp) (pending : list Write) (t : Tables)
  : Tables :=
  foldl (fun t' w => apply_write started w t') t pending.

(** What a statement on a connection reads: the committed rows, and inside
    a transaction its own pending writes on top of them. *)
Definition view (s : Session) (t : Tables) : Tables :=
  match s with
  | InTransaction started pending => commit_writes started pending t
  | Idle => t
  end.

(** One call of [pool.query].  The pool checks a connection out for the
    statement and releases it when the promise settles, so consecutive calls
    of one handler need not be served by the same connection: [client] is the
    connection this call gets.  The statement fails when [fails] is set (the
    infrastructure broke) and runs at store time [now] otherwise.

    Outside a transaction a write is committed at once, stamped with the
    time of its statement.  Inside one it is kept with the connection until
    [COMMIT].  When a statement fails, [pool.query] releases the connection
    with the error and the pool closes it: the transaction that was open on
    it is rolled back, and the slot [client] stands for a fresh connection
    from then on. *)
Record Step := {
  client : nat;
  fails : bool;
  now : Timestamp
}.

Definition pool_query (st : Step) (q : Query) (db : DB) : Result (Rows q) * DB :=
  let c := client st in
  let s := sessions db c in
  if fails st then
    (Rejected,
     match s with
     | InTransaction _ _ => set_session c Idle db
     | Idle => db
     end)
  else
    match q return Result (Rows q) * DB with
    | SelectAccessCode code =>
        (Resolved (access_codes (view s (committed db)) !! code), db)
    | SelectHasAccess telegramId =>
        (Resolved (has_access <$> users (view s (committed db)) !! telegramId), db)
    | SelectUser telegramId =>
        (Resolved (users (view s (committed db)) !! telegramId), db)
    | Execute w =>
        (Resolved tt,
         match s with
         | InTransaction started pending =>
             set_session c (InTransaction started (pending ++ [w])) db
         | Idle =>
             {| committed := apply_write (now st) w (committed db);
                sessions := sessions db |}
         end)
    | BEGIN =>
        (Resolved tt,
         match s with
         | InTransaction _ _ => db
         | Idle => set_session c (InTransaction (now st) []) db
         end)
    | COMMIT =>
        (Resolved tt,
         match s with
         | InTransaction started pending =>
             set_session c Idle
               {| committed := commit_writes started pending (committed db);
                  sessions := sessions db |}
         | Idle => db
         end)
    | ROLLBACK => (Resolved tt, set_session c Idle db)
    end.

(** ** Handlers *)

(** A handler is a tree of [await pool.query(...)] nodes ending in the reply
    it sends. *)
Inductive Handler (R : Type) : Type :=
| Send (r : R)
| Await (q : Query) (k : Result (Rows q) -> Handler R).
Arguments Send {R} r.
Arguments Await {R} q k.

(** [await pool.query(q)] inside a [try] block whose [catch] is [h]. *)
Definition await_try {R} (q : Query) (h : Handler R) (k : Rows q -> Handler R)
  : Handler R :=
  Await q (fun r => match r with Resolved v => k v | Rejected => h end).

Notation "'await' x ':=' q 'catch' h 'in' k" :=
  (await_try q h (fun x => k))
  (at level 10, x binder, q at level 100, h at level 100, k at level 200,
   only parsing).

(** [index.js] 590-593: the inner [catch] of [/activate] sends [ROLLBACK] and
    rethrows into the outer [catch] (595-596), which also receives a failure
    of [ROLLBACK] itself. *)
Definition rollback_and_throw : Handler Reply :=
  Await ROLLBACK (fun _ => Send ErrorReply).

(** [index.js] 544: [ctx.message.text.split(' ')[1]?.toUpperCase().trim()]. *)
Definition code_token (message_text : string) : option string :=
  (fun s => trim (toUpperCase s)) <$> (split " " message_text !! 1%nat).

(** [index.js] 541-598, [bot.command('activate', ...)]; [redeem] in the
    specification.  [message_text] is [ctx.message.text]. *)
Definition command_activate (telegramId : Z) (message_text : string)
    (todayDate : Date) : Handler Reply :=
  match code_token message_text with
  | None | Some EmptyString => Send CodeMissing
  | Some code =>
      await codeResult := SelectAccessCode code catch Send ErrorReply in
      match codeResult with
      | None => Send CodeNotFound
      | Some accessCode =>
          if is_used accessCode then Send CodeAlreadyUsed
          else
            await _ := BEGIN catch Send ErrorReply in
            await _ := Execute (MarkCodeUsed telegramId code) catch rollback_and_throw in
            await _ := Execute (UpsertUserAccess telegramId todayDate) catch rollback_and_throw in
            await _ := COMMIT catch rollback_and_throw in
            Send Granted
      end
  end.

(** [index.js] 601-674, [bot.start(...)]; [start] in the specification.
    [username] is [ctx.from.username || ctx.from.first_name]. *)
Definition bot_start (telegramId : Z) (username : string) (todayDate : Date)
  : Handler Reply :=
  await userResult := SelectHasAccess telegramId catch Send ErrorReply in
  match userResult with
  | None | Some false => Send AccessDeniedBot
  | Some true =>
      await _ := Execute (UpdateLesson 1 todayDate telegramId) catch Send ErrorReply in
      match index lessons 0 with
      | Some lesson => Send (Welcome username lesson)
      | None => Send ErrorReply
      end
  end.

(** [index.js] 742-751: the number of the lesson to serve. *)
Definition nextLessonNumber (user : User) (todayDate : Date) : Z :=
  if (current_lesson user =? 1)
     && match last_lesson_date user with
        | None => true
        | Some d => bool_decide (d ≠ todayDate)
        end
  then 2
  else if current_lesson user <? Z.of_nat (length lessons)
       then current_lesson user + 1
       else current_lesson user.

(** [index.js] 677-799, [bot.hears('Продолжить ▶️', ...)]; [advance] in the
    specification.  The date check of lines 711-724 is inside a comment and
    has no counterpart here. *)
Definition hears_continue (telegramId : Z) (todayDate : Date) : Handler Reply :=
  await result := SelectUser telegramId catch Send ErrorReply in
  match result with
  | None => Send NoSuchUser
  | Some user =>
      if negb (has_access user) then Send AccessDeniedLessons
      else if Z.of_nat (length lessons) <? current_lesson user then
        Send CourseComplete
      else if current_lesson user =? Z.of_nat (length lessons) then
        await _ := Execute (UpdateLesson (Z.of_nat (length lessons) + 1) todayDate telegramId)
          catch Send ErrorReply in
        Send CourseComplete
      else
        let next := nextLessonNumber user todayDate in
        await _ := Execute (UpdateLesson next todayDate telegramId)
          catch Send ErrorReply in
        match index lessons (next - 1) with
        | Some lesson => Send (LessonReply lesson)
        | None => Send ErrorReply
        end
  end.

(** [index.js] 803-829, [bot.command('status', ...)]. *)
Definition progress (current : Z) : Z :=
  Math_round ((inject_Z current / inject_Z (Z.of_nat (length lessons))) * 100)%Q.

Definition command_status (telegramId : Z) : Handler Reply :=
  await result := SelectUser telegramId catch Send StatusErrorReply in
  match result with
  | None => Send NoSuchUser
  | Some user =>
      Send (StatusReport (current_lesson user) (Z.of_nat (length lessons))
              (progress (current_lesson user)) (last_lesson_date user))
  end.

(** ** Execution *)

(** One handler on its own: each query takes the next step of the schedule
    and the handler goes on with what the query returned. *)
Fixpoint run {R} (h : Handler R) (sched : nat -> Step) (db : DB) : R * DB :=
  match h with
  | Send r => (r, db)
  | Await q k =>
      let '(res, db') := pool_query (sched 0%nat) q db in
      run (k res) (fun i => sched (S i)) db'
  end.

(** A schedule given by its first steps, [rest] afterwards. *)
Definition steps (l : list Step) (rest : Step) : nat -> Step :=
  fun i => match l !! i with Some st => st | None => rest end.

(** Handlers that overlap: at each turn the handler [who] has its pending
    query served by [turn_step]; a handler that has replied ignores its
    turns. *)
Record Turn := {
  who : nat;
  turn_step : Step
}.

Definition turn {R} (t : Turn) (hs : list (Handler R)) (db : DB)
  : list (Handler R) * DB :=
  match hs !! who t with
  | Some (Await q k) =>
      let '(res, db') := pool_query (turn_step t) q db in
      (<[who t := k res]> hs, db')
  | _ => (hs, db)
  end.

Fixpoint interleave {R} (ts : list Turn) (hs : list (Handler R)) (db : DB)
  : list (Handler R) * DB :=
  match ts with
  | [] => (hs, db)
  | t :: ts' => let '(hs', db') := turn t hs db in interleave ts' hs' db'
  end.

(** The reply of a handler that has finished. *)
Definition sent {R} (h : Handler R) : option R :=
  match h with
  | Send r => Some r
  | Await _ _ => None
  end.

(** The store with no transaction open on any connection. *)
Definition quiescent (t : Tables) : DB :=
  {| committed := t; sessions := fun _ => Idle |}.

(** A schedule without failures on one connection. *)
Definition calm (now : Timestamp) : nat -> Step :=
  fun _ => {| client := 0; fails := false; now := now |}.

(** A schedule on the connection [c], with the failures and the clock
    given for each query. *)
Definition on_client (c : nat) (faults : nat -> bool) (clock : nat -> Timestamp)
  : nat -> Step :=
  fun i => {| client := c; fails := faults i; now := clock i |}.

(** A handler served on its own by a store that works. *)
Definition serve {R} (now : Timestamp) (h : Handler R) (t : Tables) : R * Tables :=
  let '(r, db) := run h (calm now) (quiescent t) in (r, committed db).

(** ** Updates *)

(** What the transport routes to the four handlers. *)
Inductive Operation :=
| Redeem (telegramId : Z) (message_text : string)
| Start (telegramId : Z) (username : string)
| Advance (telegramId : Z)
| Status (telegramId : Z).

Definition handler (todayDate : Date) (op : Operation) : Handler Reply :=
  match op with
  | Redeem telegramId message_text => command_activate telegramId message_text todayDate
  | Start telegramId username => bot_start telegramId username todayDate
  | Advance telegramId => hears_continue telegramId todayDate
  | Status telegramId => command_status telegramId
  end.

(** An update with the store time and the calendar date at which it is
    handled. *)
Record Update := {
  received : Timestamp;
  today : Date;
  operation : Operation
}.

Definition perform (up : Update) (t : Tables) : Reply * Tables :=
  serve (received up) (handler (today up) (operation up)) t.

(** Updates handled one after the other. *)
Definition perform_all (ups : list Update) (t : Tables) : Tables :=
  foldl (fun t' up => (perform up t').2) t ups.

(** The same on the store with its connections: every update runs on the
    state the one before it left. *)
Definition handle_all (ups : list Update) (db : DB) : DB :=
  foldl (fun db' up =>
           (run (handler (today up) (operation up)) (calm (received up)) db').2)
        db ups.

Definition restarts (telegramId : Z) (op : Operation) : bool :=
  match op with
  | Start telegramId' _ => bool_decide (telegramId' = telegramId)
  | _ => false
  end.

(** ** Stores after an operation *)

(** The store after [UPDATE users SET current_lesson = n, last_lesson_date =
    d] on the row of [id]. *)
Definition lesson_stored (n : Z) (d : Date) (id : Z) (u : User) (t : Tables) : Tables :=
  {| users := <[id := at_lesson n d u]> (users t);
     access_codes := access_codes t |}.

(** The store after a granted [/activate]: the code row stamped, the user
    row created or given access. *)
Definition redeemed (id : Z) (code : string) (now : Timestamp) (d : Date)
    (t : Tables) : Tables :=
  {| users :=
       <[id := match users t !! id with
               | Some u => with_access u
               | None => new_user d
               end]> (users t);
     access_codes := alter (fun _ => used_by id now) code (access_codes t) |}.

(** The button pressed [n] times on the same day. *)
Definition presses (n : nat) (now : Timestamp) (id : Z) (d : Date) (t : Tables)
  : Tables :=
  Nat.iter n (fun t' => (serve now (hears_continue id d) t').2) t.

(** Every row is at a lesson of the course or at the number after the last
    one. *)
Definition in_course (t : Tables) : Prop :=
  forall id u,
    users t !! id = Some u ->
    1 <= current_lesson u <= Z.of_nat (length lessons) + 1.

(** ** Sample rows and stores *)

Definition unused_code : AccessCode :=
  {| is_used := false; used_by_telegram_id := None; used_at := None |}.

(** A store that holds the unredeemed code [PON-ABCD1234] and no user. *)
Definition one_code : Tables :=
  {| users := ∅; access_codes := {[ "PON-ABCD1234" := unused_code ]} |}.

(** A store that holds one user and no code. *)
Definition one_user (telegramId : Z) (u : User) : Tables :=
  {| users := {[ telegramId := u ]}; access_codes := ∅ |}.

Definition student (access : bool) (lesson : Z) (served : option Date) : User :=
  {| has_access := access; current_lesson := lesson; last_lesson_date := served |}.

(** ** Sample schedules *)

(** A query served by connection [c] at store time [now]. *)
Definition ok_step (c : nat) (now : Timestamp) : Step :=
  {| client := c; fails := false; now := now |}.

(** Two [/activate PON-ABCD1234], from users 1 and 2, each on a connection of
    its own: both [SELECT]s are answered before either transaction
    starts. *)
Definition race : list Turn :=
  [ {| who := 0; turn_step := ok_step 0 100 |};
    {| who := 1; turn_step := ok_step 1 101 |};
    {| who := 0; turn_step := ok_step 0 102 |};
    {| who := 0; turn_step := ok_step 0 103 |};
    {| who := 0; turn_step := ok_step 0 104 |};
    {| who := 0; turn_step := ok_step 0 105 |};
    {| who := 1; turn_step := ok_step 1 106 |};
    {| who := 1; turn_step := ok_step 1 107 |};
    {| who := 1; turn_step := ok_step 1 108 |};
    {| who := 1; turn_step := ok_step 1 109 |} ].

(** [/activate PON-ABCD1234] from user 42 while the pool holds two
    connections: [BEGIN] is served by connection 0, the [UPDATE] and the
    [INSERT] by connection 1, and the [INSERT] fails. *)
Definition split_transaction : nat -> Step :=
  steps [ ok_step 0 100;
          ok_step 0 101;
          ok_step 1 102;
          {| client := 1; fails := true; now := 103 |};
          ok_step 0 104 ]
        (ok_step 0 105).

(** Three presses of the button by user 42 that overlap: the first handler
    reads the row, the second and the third each read the row and write,
    and the write of the first comes last. *)
Definition late_write : list Turn :=
  [ {| who := 0; turn_step := ok_step 0 100 |};
    {| who := 1; turn_step := ok_step 0 101 |};
    {| who := 1; turn_step := ok_step 0 102 |};
    {| who := 2; turn_step := ok_step 0 103 |};
    {| who := 2; turn_step := ok_step 0 104 |};
    {| who := 0; turn_step := ok_step 0 105 |} ].

Definition three_presses : list (Handler Reply) :=
  [ hears_continue 42 "2026-01-02";
    hears_continue 42 "2026-01-02";
    hears_continue 42 "2026-01-02" ].

(** The first half of C3 as the specification states it, for updates that
    overlap: while the handlers of operations none of which is a [/start]
    of the user are served, in whatever interleaving, the lesson number of
    the user never goes down. *)
Definition lesson_never_lowered : Prop :=
  forall (d : Date) (ops : list Operation) (t : Tables) (ts ts' : list Turn)
         (id : Z) (u u' : User),
    Forall (fun op => restarts id op = false) ops ->
    users (committed (interleave ts (handler d <$> ops) (quiescent t)).2) !! id
      = Some u ->
    users (committed (interleave (ts ++ ts') (handler d <$> ops) (quiescent t)).2) !! id
      = Some u' ->
    current_lesson u <= current_lesson u'.

(** ** Code generation ([create-codes.js]) *)

(** [s.charAt(i)]: the one-character string at position [i], the empty
    string outside the string. *)
Definition charAt (s : string) (i : Z) : string :=
  if i <? 0 then EmptyString
  else match String.get (Z.to_nat i) s with
       | Some c => String c EmptyString
       | None => EmptyString
       end.

(** [a.join(sep)]. *)
Fixpoint join (sep : string) (a : list string) : string :=
  match a with
  | [] => EmptyString
  | x :: rest =>
      match rest with
      | [] => x
      | _ :: _ => x +:+ sep +:+ join sep rest
      end
  end.

(** [create-codes.js] 56: the alphabet of the codes, without 0, O, I and 1. *)
Definition chars : string := "ABCDEFGHJKLMNPQRSTUVWXYZ23456789".

(** [create-codes.js] 58-61: the loop that draws [n] characters.  [random]
    gives the successive results of [Math.random()], each an exact value in
    [0, 1). *)
Fixpoint random_chars (n : nat) (random : nat -> Q) : string :=
  match n with
  | O => EmptyString
  | S n' =>
      charAt chars (Qfloor (random 0%nat * inject_Z (Z.of_nat (String.length chars))))
      +:+ random_chars n' (fun i => random (S i))
  end.

(** [create-codes.js] 55-63, [generateRandomCode]. *)
Definition generateRandomCode (random : nat -> Q) : string :=
  "PON-" +:+ random_chars 8 random.

(** [create-codes.js] 50. *)
Definition numberOfCodes : nat := 30.

(** [create-codes.js] 73-79: the loop that collects [wanted] codes that are
    neither in the table nor drawn before.  Every round takes eight draws;
    the loop has no bound of its own, [fuel] is the number of rounds looked
    at, and the result is [None] when they do not suffice. *)
Fixpoint collect_codes (wanted fuel : nat) (random : nat -> Q)
    (existingCodes : gset string) (codes : list string) : option (list string) :=
  if (length codes <? wanted)%nat then
    match fuel with
    | O => None
    | S fuel' =>
        let code := generateRandomCode random in
        let random' := fun i => random (8 + i)%nat in
        if negb (bool_decide (code ∈ existingCodes)) && negb (bool_decide (code ∈ codes))
        then collect_codes wanted fuel' random' ({[code]} ∪ existingCodes) (codes ++ [code])
        else collect_codes wanted fuel' random' existingCodes codes
    end
  else Some codes.

(** A value stored in a column [VARCHAR(n)]: a string of at most [n]
    characters as it is; a longer one is an error, unless every character
    after the [n]-th is a blank, and then the first [n] characters are
    stored. *)
Definition is_blank (c : Char) : bool :=
  match c with
  | Scalar cp => cp =? 32
  | Stray _ => false
  end.

Definition varchar (n : nat) (s : string) : option string :=
  if (length (decode s) <=? n)%nat then Some s
  else if forallb is_blank (drop n (decode s))
       then Some (encode (take n (decode s)))
       else None.

(** [create-codes.js] 84-87 and [create_access_codes.sql] 7-19: [INSERT INTO
    access_codes (code, is_used, created_at) VALUES ($1, FALSE, NOW()) ON
    CONFLICT (code) DO NOTHING].  The column is [VARCHAR(50)]; a code that
    it does not take is an error and inserts nothing. *)
Definition insert_code (code : string) (t : Tables) : Tables :=
  match varchar 50 code with
  | None => t
  | Some stored =>
      match access_codes t !! stored with
      | Some _ => t
      | None =>
          {| users := users t;
             access_codes := <[stored := unused_code]> (access_codes t) |}
      end
  end.

(** [create-codes.js] 82-96: one [INSERT] for each code; an [INSERT] that
    fails is logged and the loop goes on.  [failed i] tells whether the
    [i]-th one fails. *)
Fixpoint insert_codes (failed : nat -> bool) (codes : list string) (t : Tables)
  : Tables :=
  match codes with
  | [] => t
  | code :: rest =>
      insert_codes (fun i => failed (S i)) rest
        (if failed 0%nat then t else insert_code code t)
  end.

(** [create-codes.js] 99-105: the number of rows, of rows with [is_used =
    FALSE] and of rows with [is_used = TRUE]. *)
Definition stats (t : Tables) : nat * nat * nat :=
  (size (access_codes t),
   size (filter (fun kv => is_used kv.2 = false) (access_codes t)),
   size (filter (fun kv => is_used kv.2 = true) (access_codes t))).

(** [create-codes.js] 129: the text written to [access_codes.txt]. *)
Definition codesText (codes : list string) : string :=
  join "
" codes.

(** [create-codes.js] 18-152, [createAccessCodes], run on its own on a
    database where [access_codes] exists (lines 27-45 create the table and
    its indexes when they are missing): the codes it generates, which it
    writes to its two files, and the table after its inserts. *)
Definition createAccessCodes (fuel : nat) (random : nat -> Q) (failed : nat -> bool)
    (t : Tables) : option (list string * Tables) :=
  match collect_codes numberOfCodes fuel random (dom (access_codes t)) [] with
  | Some codes => Some (codes, insert_codes failed codes t)
  | None => None
  end.

(** [create_access_codes.sql] 7-19: the ten codes of the script. *)
Definition script_codes : list string :=
  [ "PON2024-001"; "PON2024-002"; "PON2024-003"; "PON2024-004"; "PON2024-005";
    "PON2024-006"; "PON2024-007"; "PON2024-008"; "PON2024-009"; "PON2024-010" ].

(** ** Schema bootstrap ([initDatabase]) *)

(** A row of [users] from before the column [has_access] existed. *)
Record LegacyUser := {
  old_current_lesson : Z;
  old_last_lesson_date : option Date
}.

(** Table [users]: absent, without the column [has_access], or with it.  A
    table that exists has the columns of its [CREATE TABLE] statement. *)
Inductive UsersTable :=
| NoUsersTable
| UsersWithoutAccess (rows : gmap Z LegacyUser)
| UsersWithAccess (rows : gmap Z User).

(** The database as [initDatabase] may find it; a table that does not exist
    is [NoUsersTable] or [None]. *)
Record Database := {
  users_table : UsersTable;
  access_codes_table : option (gmap string AccessCode)
}.

(** The statements of [initDatabase] that create tables or columns
    ([index.js] 31-40, 66-68, 77-85).  The statements between them create
    indexes, a function and a trigger on [updated_at]; they change no row
    that a handler reads. *)
Inductive Statement :=
| CreateUsersTable
| AddHasAccessColumn
| CreateAccessCodesTable.

(** [ADD COLUMN ... has_access BOOLEAN DEFAULT FALSE] on a row. *)
Definition with_default_access (r : LegacyUser) : User :=
  {| has_access := false;
     current_lesson := old_current_lesson r;
     last_lesson_date := old_last_lesson_date r |}.

(** One statement; [None] is an error ([ALTER TABLE] on a table that does
    not exist).  [IF NOT EXISTS] leaves what exists as it is. *)
Definition execute (s : Statement) (db : Database) : option Database :=
  match s with
  | CreateUsersTable =>
      Some match users_table db with
           | NoUsersTable =>
               {| users_table := UsersWithoutAccess ∅;
                  access_codes_table := access_codes_table db |}
           | _ => db
           end
  | AddHasAccessColumn =>
      match users_table db with
      | NoUsersTable => None
      | UsersWithoutAccess rows =>
          Some {| users_table := UsersWithAccess (with_default_access <$> rows);
                  access_codes_table := access_codes_table db |}
      | UsersWithAccess _ => Some db
      end
  | CreateAccessCodesTable =>
      Some match access_codes_table db with
           | None =>
               {| users_table := users_table db; access_codes_table := Some ∅ |}
           | Some _ => db
           end
  end.

Fixpoint execute_all (ss : list Statement) (db : Database) : option Database :=
  match ss with
  | [] => Some db
  | s :: ss' =>
      match execute s db with
      | Some db' => execute_all ss' db'
      | None => None
      end
  end.

Definition initDatabase_statements : list Statement :=
  [CreateUsersTable; AddHasAccessColumn; CreateAccessCodesTable].

(** [index.js] 28-100, [initDatabase]. *)
Definition initDatabase (db : Database) : option Database :=
  execute_all initDatabase_statements db.

(** [initDatabase] stopped by a failure after its first [k] statements; each
    statement is committed on its own, so what ran stays. *)
Definition initDatabase_interrupted (k : nat) (db : Database) : option Database :=
  execute_all (take k initDatabase_statements) db.

(** The tables the handlers work on, once both exist with all columns. *)
Definition tables (db : Database) : option Tables :=
  match users_table db, access_codes_table db with
  | UsersWithAccess rows, Some codes =>
      Some {| users := rows; access_codes := codes |}
  | _, _ => None
  end.

(** ** Notions and samples of the further properties *)

(** The code an operation asks to redeem. *)
Definition redeems (op : Operation) : option string :=
  match op with
  | Redeem _ message_text => code_token message_text
  | _ => None
  end.

(** A row as the handlers create and keep it. *)
Definition bot_row (u : User) : Prop :=
  has_access u = true /\
  1 <= current_lesson u <= Z.of_nat (length lessons) + 1 /\
  is_Some (last_lesson_date u).

(** The user an operation comes from. *)
Definition actor (op : Operation) : Z :=
  match op with
  | Redeem telegramId _ | Start telegramId _ | Advance telegramId
  | Status telegramId => telegramId
  end.

(** [/start] or the button, as one family of handlers. *)
Definition lesson_handler (start : bool) (id : Z) (name : string) (d : Date)
  : Handler Reply :=
  if start then bot_start id name d else hears_continue id d.

(** A store with the unredeemed code and user 42 at lesson 4 with access. *)
Definition code_and_student : Tables :=
  {| users := {[ 42 := student true 4 (Some "2026-01-01") ]};
     access_codes := {[ "PON-ABCD1234" := unused_code ]} |}.

(** A store with two users, an unredeemed code and a used one. *)
Definition class_store : Tables :=
  {| users := {[ 42 := student true 4 (Some "2026-01-01");
                 7 := student true 9 (Some "2025-12-30") ]};
     access_codes := {[ "PON-ABCD1234" := unused_code;
                        "PON-AAAAAAAA" := used_by 7 100 ]} |}.

(** A store with the code [PON-ABCD1234] used by user 1. *)
Definition spent_code : Tables :=
  {| users := {[ 1 := new_user "2026-01-01" ]};
     access_codes := {[ "PON-ABCD1234" := used_by 1 5 ]} |}.

(** Three updates of user 42. *)
Definition sample_updates : list Update :=
  [ {| received := 8; today := "2026-01-02";
       operation := Redeem 42 "/activate pon-abcd1234" |};
    {| received := 9; today := "2026-01-02"; operation := Start 42 "anna" |};
    {| received := 10; today := "2026-01-03"; operation := Advance 42 |} ].


(** The exact value of a double; [None] for an infinity or a NaN. *)
Definition double_value (x : float) : option Q :=
  match Prim2SF x with
  | S754_zero _ => Some (inject_Z 0)
  | S754_finite s m e =>
      Some (inject_Z (if s then Z.neg m else Z.pos m) * Qpower (inject_Z 2) e)%Q
  | _ => None
  end.

(** [index.js] 817: [(user.current_lesson / lessons.length) * 100] as the
    doubles compute it; an integer below [2^53] is a double as it is. *)
Definition progress_double (current : Z) : float :=
  (PrimFloat.of_uint63 (Uint63.of_Z current)
   / PrimFloat.of_uint63 (Uint63.of_Z (Z.of_nat (length lessons)))
   * PrimFloat.of_uint63 100)%float.

(** [c] is one of the characters of [chars]. *)
Definition in_alphabet (c : ascii) : bool :=
  existsb (Ascii.eqb c) (String.list_ascii_of_string chars).

(** [PON-] followed by eight characters of the alphabet. *)
Definition is_pon_code (code : string) : Prop :=
  exists suffix,
    code = "PON-" +:+ suffix /\
    String.length suffix = 8%nat /\
    every_char in_alphabet suffix = true.

(** The code drawn in round [k] of the collecting loop. *)
Definition candidate (random : nat -> Q) (k : nat) : string :=
  generateRandomCode (fun i => random (8 * k + i)%nat).

(** The codes drawn in the first [fuel] rounds of the collecting loop that
    are not in the table. *)
Definition fresh_draws (fuel : nat) (random : nat -> Q) (existingCodes : gset string)
  : gset string :=
  list_to_set (candidate random <$> seq 0 fuel) ∖ existingCodes.

(** Draws that give every code twice: [PON-AAAAAAAA] in rounds 0 and 1,
    [PON-EEEEEEEE] in rounds 2 and 3, and so on. *)
Definition repeating_draws : nat -> Q :=
  fun i => Qmake (Z.of_nat ((i / 16) mod 8)) 8.

(** Draws that give [PON-AAAAAAAA], [PON-BBBBBBBB], ... in turn. *)
Definition rising_draws : nat -> Q :=
  fun i => Qmake (Z.of_nat ((i / 8) mod 32)) 32.

(** A store whose only code, [PON-AAAAAAAA], is used. *)
Definition few_codes : Tables :=
  {| users := ∅;
     access_codes := {[ "PON-AAAAAAAA" := used_by 7 100 ]} |}.

(** The rows of [users] once the column [has_access] exists. *)
Definition upgraded_rows (u : UsersTable) : gmap Z User :=
  match u with
  | NoUsersTable => ∅
  | UsersWithoutAccess rows => with_default_access <$> rows
  | UsersWithAccess rows => rows
  end.

(** The database after a complete [initDatabase]. *)
Definition initialised (db : Database) : Database :=
  {| users_table := UsersWithAccess (upgraded_rows (users_table db));
     access_codes_table := Some (default ∅ (access_codes_table db)) |}.

(** A database from before the column [has_access]: user 7 at lesson 4,
    and one unused code. *)
Definition legacy_with_code : Database :=
  {| users_table :=
       UsersWithoutAccess
         {[ 7 := {| old_current_lesson := 4;
                    old_last_lesson_date := Some "2025-12-31" |} ]};
     access_codes_table := Some {[ "PON2024-001" := unused_code ]} |}.

(** * Properties *)

(** One query of a handler, once the session of its connection is known. *)
Ltac query_step :=
  cbn [run]; unfold pool_query at 1;
  cbn [client fails now set_session sessions committed];
  rewrite ?Nat.eqb_refl.

Ltac finished := intros [= <- <-]; try reflexivity.

(** ** UTF-8 *)

Lemma byte_range c : 0 <= byte c < 256.
Proof.
  unfold byte. pose proof (N_ascii_bounded c). lia.
Qed.

Lemma byte_of_byte n : 0 <= n < 256 -> byte (of_byte n) = n.
Proof.
  intros Hn. unfold byte, of_byte. rewrite N_ascii_embedding by lia. lia.
Qed.

Lemma of_byte_byte c : of_byte (byte c) = c.
Proof. unfold byte, of_byte. rewrite N2Z.id. apply ascii_N_embedding. Qed.

Lemma append_cons a s1 s2 : String a s1 +:+ s2 = String a (s1 +:+ s2).
Proof. reflexivity. Qed.

Lemma append_nil s : EmptyString +:+ s = s.
Proof. reflexivity. Qed.

Lemma decode_ascii b s :
  byte b < 128 -> decode (String b s) = Scalar (byte b) :: decode s.
Proof.
  intros Hb. cbn [decode]. destruct (Z.ltb_spec (byte b) 128); [reflexivity|lia].
Qed.

Lemma decode_two b1 b2 s cp :
  128 <= byte b1 -> two_bytes (byte b1) (byte b2) = Some cp ->
  decode (String b1 (String b2 s)) = Scalar cp :: decode s.
Proof.
  intros Hb H2.
  change (decode (String b1 (String b2 s)))
    with (if byte b1 <? 128 then Scalar (byte b1) :: decode (String b2 s)
          else match two_bytes (byte b1) (byte b2) with
               | Some cp => Scalar cp :: decode s
               | None =>
                   match s with
                   | EmptyString => Stray b1 :: decode (String b2 s)
                   | String b3 s3 =>
                       match three_bytes (byte b1) (byte b2) (byte b3) with
                       | Some cp => Scalar cp :: decode s3
                       | None =>
                           match s3 with
                           | EmptyString => Stray b1 :: decode (String b2 s)
                           | String b4 s4 =>
                               match four_bytes (byte b1) (byte b2) (byte b3) (byte b4) with
                               | Some cp => Scalar cp :: decode s4
                               | None => Stray b1 :: decode (String b2 s)
                               end
                           end
                       end
                   end
               end).
  rewrite H2. destruct (Z.ltb_spec (byte b1) 128); [lia|reflexivity].
Qed.

Lemma decode_three b1 b2 b3 s cp :
  128 <= byte b1 -> two_bytes (byte b1) (byte b2) = None ->
  three_bytes (byte b1) (byte b2) (byte b3) = Some cp ->
  decode (String b1 (String b2 (String b3 s))) = Scalar cp :: decode s.
Proof.
  intros Hb H2 H3.
  change (decode (String b1 (String b2 (String b3 s))))
    with (if byte b1 <? 128 then Scalar (byte b1) :: decode (String b2 (String b3 s))
          else match two_bytes (byte b1) (byte b2) with
               | Some cp => Scalar cp :: decode (String b3 s)
               | None =>
                   match three_bytes (byte b1) (byte b2) (byte b3) with
                   | Some cp => Scalar cp :: decode s
                   | None =>
                       match s with
                       | EmptyString => Stray b1 :: decode (String b2 (String b3 s))
                       | String b4 s4 =>
                           match four_bytes (byte b1) (byte b2) (byte b3) (byte b4) with
                           | Some cp => Scalar cp :: decode s4
                           | None => Stray b1 :: decode (String b2 (String b3 s))
                           end
                       end
                   end
               end).
  rewrite H2, H3. destruct (Z.ltb_spec (byte b1) 128); [lia|reflexivity].
Qed.

Lemma decode_four b1 b2 b3 b4 s cp :
  128 <= byte b1 -> two_bytes (byte b1) (byte b2) = None ->
  three_bytes (byte b1) (byte b2) (byte b3) = None ->
  four_bytes (byte b1) (byte b2) (byte b3) (byte b4) = Some cp ->
  decode (String b1 (String b2 (String b3 (String b4 s)))) = Scalar cp :: decode s.
Proof.
  intros Hb H2 H3 H4.
  change (decode (String b1 (String b2 (String b3 (String b4 s)))))
    with (if byte b1 <? 128
          then Scalar (byte b1) :: decode (String b2 (String b3 (String b4 s)))
          else match two_bytes (byte b1) (byte b2) with
               | Some cp => Scalar cp :: decode (String b3 (String b4 s))
               | None =>
                   match three_bytes (byte b1) (byte b2) (byte b3) with
                   | Some cp => Scalar cp :: decode (String b4 s)
                   | None =>
                       match four_bytes (byte b1) (byte b2) (byte b3) (byte b4) with
                       | Some cp => Scalar cp :: decode s
                       | None => Stray b1 :: decode (String b2 (String b3 (String b4 s)))
                       end
                   end
               end).
  rewrite H2, H3, H4. destruct (Z.ltb_spec (byte b1) 128); [lia|reflexivity].
Qed.

Ltac decide_bounds :=
  repeat match goal with
  | |- context [?a <=? ?b] => destruct (Z.leb_spec a b); try lia
  | |- context [?a <? ?b] => destruct (Z.ltb_spec a b); try lia
  end; try reflexivity.

Lemma decode_scalar cp s :
  scalar cp -> decode (encode_scalar cp +:+ s) = Scalar cp :: decode s.
Proof.
  intros [Hr Hs]. unfold encode_scalar.
  pose proof (Z.div_mod cp 64 ltac:(lia)) as E.
  pose proof (Z.mod_pos_bound cp 64 ltac:(lia)) as B.
  pose proof (Z.div_mod (cp / 64) 64 ltac:(lia)) as E'.
  pose proof (Z.mod_pos_bound (cp / 64) 64 ltac:(lia)) as B'.
  pose proof (Z.div_mod (cp / 64 / 64) 64 ltac:(lia)) as E''.
  pose proof (Z.mod_pos_bound (cp / 64 / 64) 64 ltac:(lia)) as B''.
  assert (Hq : cp / 4096 = cp / 64 / 64) by (rewrite Z.div_div by lia; reflexivity).
  assert (Hq' : cp / 262144 = cp / 64 / 64 / 64) by (rewrite !Z.div_div by lia; reflexivity).
  rewrite Hq, Hq'.
  destruct (Z.ltb_spec cp 128) as [H1|H1].
  { rewrite append_cons, append_nil, decode_ascii; rewrite byte_of_byte by lia;
      [reflexivity|lia]. }
  destruct (Z.ltb_spec cp 2048) as [H2|H2].
  { rewrite !append_cons, append_nil.
    apply decode_two; rewrite !byte_of_byte by lia; [lia|].
    unfold two_bytes, continuation.
    replace ((192 + cp / 64 - 192) * 64 + (128 + cp mod 64 - 128)) with cp by lia.
    decide_bounds. }
  destruct (Z.ltb_spec cp 65536) as [H3|H3].
  { rewrite !append_cons, append_nil.
    apply decode_three; rewrite !byte_of_byte by lia; [lia| |].
    - unfold two_bytes. destruct (Z.ltb_spec (224 + cp / 64 / 64) 224); [lia|].
      by rewrite andb_false_r.
    - unfold three_bytes, continuation.
      replace (((224 + cp / 64 / 64 - 224) * 64 + (128 + (cp / 64) mod 64 - 128)) * 64
               + (128 + cp mod 64 - 128)) with cp by lia.
      decide_bounds. }
  rewrite !append_cons, append_nil.
  apply decode_four; rewrite !byte_of_byte by lia; [lia| | |].
  - unfold two_bytes. destruct (Z.ltb_spec (240 + cp / 64 / 64 / 64) 224); [lia|].
    by rewrite andb_false_r.
  - unfold three_bytes. destruct (Z.ltb_spec (240 + cp / 64 / 64 / 64) 240); [lia|].
    by rewrite andb_false_r.
  - unfold four_bytes, continuation.
    replace ((((240 + cp / 64 / 64 / 64 - 240) * 64 + (128 + (cp / 64 / 64) mod 64 - 128)) * 64
              + (128 + (cp / 64) mod 64 - 128)) * 64 + (128 + cp mod 64 - 128))
      with cp by lia.
    decide_bounds.
Qed.


Ltac bools H :=
  repeat match type of H with
  | (if ?b then _ else _) = _ => let E := fresh "E" in destruct b eqn:E; [|discriminate H]
  end;
  repeat match goal with
  | E : _ && _ = true |- _ => apply andb_prop in E as [? ?]
  | E : negb _ = true |- _ => apply negb_true_iff in E
  | E : _ && _ = false |- _ => apply andb_false_iff in E
  | E : (_ <=? _) = true |- _ => apply Z.leb_le in E
  | E : (_ <? _) = true |- _ => apply Z.ltb_lt in E
  | E : (_ <=? _) = false |- _ => apply Z.leb_gt in E
  | E : (_ <? _) = false |- _ => apply Z.ltb_ge in E
  end.

Lemma encode_two b1 b2 cp :
  two_bytes (byte b1) (byte b2) = Some cp ->
  encode_scalar cp = String b1 (String b2 EmptyString).
Proof.
  unfold two_bytes, continuation. intros H. bools H.
  injection H as <-.
  set (n1 := byte b1) in *. set (n2 := byte b2) in *.
  unfold encode_scalar.
  destruct (Z.ltb_spec ((n1 - 192) * 64 + (n2 - 128)) 128); [lia|].
  destruct (Z.ltb_spec ((n1 - 192) * 64 + (n2 - 128)) 2048); [|lia].
  assert (Hq : ((n1 - 192) * 64 + (n2 - 128)) / 64 = n1 - 192)
    by (symmetry; apply (Z.div_unique _ _ _ (n2 - 128)); lia).
  assert (Hr : ((n1 - 192) * 64 + (n2 - 128)) mod 64 = n2 - 128)
    by (symmetry; apply (Z.mod_unique _ _ (n1 - 192)); lia).
  rewrite Hq, Hr.
  replace (192 + (n1 - 192)) with n1 by lia. replace (128 + (n2 - 128)) with n2 by lia.
  subst n1 n2. by rewrite !of_byte_byte.
Qed.

Lemma encode_three b1 b2 b3 cp :
  three_bytes (byte b1) (byte b2) (byte b3) = Some cp ->
  encode_scalar cp = String b1 (String b2 (String b3 EmptyString)).
Proof.
  unfold three_bytes, continuation. intros H. bools H.
  injection H as <-.
  set (n1 := byte b1) in *. set (n2 := byte b2) in *. set (n3 := byte b3) in *.
  set (cp := ((n1 - 224) * 64 + (n2 - 128)) * 64 + (n3 - 128)) in *.
  unfold encode_scalar.
  destruct (Z.ltb_spec cp 128); [lia|].
  destruct (Z.ltb_spec cp 2048); [lia|].
  destruct (Z.ltb_spec cp 65536); [|lia].
  assert (Hr : cp mod 64 = n3 - 128)
    by (symmetry; apply (Z.mod_unique _ _ ((n1 - 224) * 64 + (n2 - 128))); lia).
  assert (Hq : cp / 64 = (n1 - 224) * 64 + (n2 - 128))
    by (symmetry; apply (Z.div_unique _ _ _ (n3 - 128)); lia).
  assert (Hr' : (cp / 64) mod 64 = n2 - 128)
    by (rewrite Hq; symmetry; apply (Z.mod_unique _ _ (n1 - 224)); lia).
  assert (Hq' : cp / 4096 = n1 - 224).
  { change 4096 with (64 * 64). rewrite <- Z.div_div, Hq by lia.
    symmetry; apply (Z.div_unique _ _ _ (n2 - 128)); lia. }
  rewrite Hr, Hr', Hq'.
  replace (224 + (n1 - 224)) with n1 by lia. replace (128 + (n2 - 128)) with n2 by lia.
  replace (128 + (n3 - 128)) with n3 by lia.
  subst n1 n2 n3. by rewrite !of_byte_byte.
Qed.

Lemma encode_four b1 b2 b3 b4 cp :
  four_bytes (byte b1) (byte b2) (byte b3) (byte b4) = Some cp ->
  encode_scalar cp = String b1 (String b2 (String b3 (String b4 EmptyString))).
Proof.
  unfold four_bytes, continuation. intros H. bools H.
  injection H as <-.
  set (n1 := byte b1) in *. set (n2 := byte b2) in *. set (n3 := byte b3) in *.
  set (n4 := byte b4) in *.
  set (cp := (((n1 - 240) * 64 + (n2 - 128)) * 64 + (n3 - 128)) * 64 + (n4 - 128)) in *.
  unfold encode_scalar.
  destruct (Z.ltb_spec cp 128); [lia|].
  destruct (Z.ltb_spec cp 2048); [lia|].
  destruct (Z.ltb_spec cp 65536); [lia|].
  assert (Hr : cp mod 64 = n4 - 128)
    by (symmetry;
        apply (Z.mod_unique _ _ (((n1 - 240) * 64 + (n2 - 128)) * 64 + (n3 - 128))); lia).
  assert (Hq : cp / 64 = ((n1 - 240) * 64 + (n2 - 128)) * 64 + (n3 - 128))
    by (symmetry; apply (Z.div_unique _ _ _ (n4 - 128)); lia).
  assert (Hr' : (cp / 64) mod 64 = n3 - 128)
    by (rewrite Hq; symmetry;
        apply (Z.mod_unique _ _ ((n1 - 240) * 64 + (n2 - 128))); lia).
  assert (Hq' : cp / 4096 = (n1 - 240) * 64 + (n2 - 128)).
  { change 4096 with (64 * 64). rewrite <- Z.div_div, Hq by lia.
    symmetry; apply (Z.div_unique _ _ _ (n3 - 128)); lia. }
  assert (Hr'' : (cp / 4096) mod 64 = n2 - 128)
    by (rewrite Hq'; symmetry; apply (Z.mod_unique _ _ (n1 - 240)); lia).
  assert (Hq'' : cp / 262144 = n1 - 240).
  { change 262144 with (4096 * 64). rewrite <- Z.div_div, Hq' by lia.
    symmetry; apply (Z.div_unique _ _ _ (n2 - 128)); lia. }
  rewrite Hr, Hr', Hr'', Hq''.
  replace (240 + (n1 - 240)) with n1 by lia. replace (128 + (n2 - 128)) with n2 by lia.
  replace (128 + (n3 - 128)) with n3 by lia. replace (128 + (n4 - 128)) with n4 by lia.
  subst n1 n2 n3 n4. by rewrite !of_byte_byte.
Qed.

(** A string has at most as many characters as bytes. *)
Lemma decode_length s : (length (decode s) <= String.length s)%nat.
Proof.
  remember (String.length s) as n eqn:Hn. revert s Hn.
  induction n as [n IH] using lt_wf_ind. intros s ->.
  destruct s as [|b1 s1]; [done|].
  assert (IH1 : (length (decode s1) <= String.length s1)%nat)
    by (apply (IH (String.length s1)); [cbn; lia|reflexivity]).
  assert (Hstray : (length (Stray b1 :: decode s1) <= String.length (String b1 s1))%nat)
    by (cbn [length String.length]; lia).
  cbn [decode]. destruct (byte b1 <? 128); [cbn [length String.length]; lia|].
  destruct s1 as [|b2 s2]; [done|].
  destruct (two_bytes (byte b1) (byte b2)).
  { pose proof (IH (String.length s2) ltac:(cbn; lia) s2 eq_refl).
    cbn [length String.length]. lia. }
  destruct s2 as [|b3 s3]; [exact Hstray|].
  destruct (three_bytes (byte b1) (byte b2) (byte b3)).
  { pose proof (IH (String.length s3) ltac:(cbn; lia) s3 eq_refl).
    cbn [length String.length]. lia. }
  destruct s3 as [|b4 s4]; [exact Hstray|].
  destruct (four_bytes (byte b1) (byte b2) (byte b3) (byte b4)).
  { pose proof (IH (String.length s4) ltac:(cbn; lia) s4 eq_refl).
    cbn [length String.length]. lia. }
  exact Hstray.
Qed.

(** Reading a string as characters and writing the characters back gives
    the string. *)
Lemma encode_decode s : encode (decode s) = s.
Proof.
  remember (String.length s) as n eqn:Hn. revert s Hn.
  induction n as [n IH] using lt_wf_ind. intros s Hn.
  destruct s as [|b1 s1]; [reflexivity|].
  assert (IH1 : encode (decode s1) = s1)
    by (apply (IH (String.length s1)); [cbn in Hn; lia|reflexivity]).
  assert (Hstray : encode (Stray b1 :: decode s1) = String b1 s1)
    by (cbn [encode encode_char]; by rewrite IH1).
  cbn [decode]. destruct (Z.ltb_spec (byte b1) 128) as [Hb|Hb].
  { cbn [encode encode_char]. unfold encode_scalar.
    destruct (Z.ltb_spec (byte b1) 128); [|lia].
    by rewrite of_byte_byte, IH1. }
  destruct s1 as [|b2 s2]; [reflexivity|].
  destruct (two_bytes (byte b1) (byte b2)) as [cp|] eqn:H2.
  { cbn [encode encode_char]. rewrite (encode_two _ _ _ H2).
    rewrite (IH (String.length s2)); [reflexivity|cbn in Hn; lia|reflexivity]. }
  destruct s2 as [|b3 s3]; [exact Hstray|].
  destruct (three_bytes (byte b1) (byte b2) (byte b3)) as [cp|] eqn:H3.
  { cbn [encode encode_char]. rewrite (encode_three _ _ _ _ H3).
    rewrite (IH (String.length s3)); [reflexivity|cbn in Hn; lia|reflexivity]. }
  destruct s3 as [|b4 s4]; [exact Hstray|].
  destruct (four_bytes (byte b1) (byte b2) (byte b3) (byte b4)) as [cp|] eqn:H4.
  { cbn [encode encode_char]. rewrite (encode_four _ _ _ _ _ H4).
    rewrite (IH (String.length s4)); [reflexivity|cbn in Hn; lia|reflexivity]. }
  exact Hstray.
Qed.

Lemma append_assoc s1 s2 s3 : (s1 +:+ s2) +:+ s3 = s1 +:+ (s2 +:+ s3).
Proof.
  induction s1 as [|c s1 IH]; [reflexivity|].
  rewrite !append_cons. by rewrite IH.
Qed.

Lemma append_nil_r s : s +:+ EmptyString = s.
Proof. induction s as [|c s IH]; [reflexivity|]. by rewrite append_cons, IH. Qed.

Lemma encode_app l1 l2 : encode (l1 ++ l2) = encode l1 +:+ encode l2.
Proof.
  induction l1 as [|c l1 IH]; [reflexivity|].
  cbn [app encode]. by rewrite IH, append_assoc.
Qed.

Lemma decode_text l s :
  Forall scalar l -> decode (text_of l +:+ s) = (Scalar <$> l) ++ decode s.
Proof.
  unfold text_of. induction 1 as [|cp l Hcp _ IH]; [reflexivity|].
  cbn [fmap list_fmap encode encode_char app]. rewrite append_assoc.
  rewrite decode_scalar by done. by rewrite IH.
Qed.

Lemma decode_bytes w s :
  every_char (fun c => byte c <? 128) w = true ->
  decode (w +:+ s) = (Scalar <$> bytes w) ++ decode s.
Proof.
  induction w as [|c w IH]; [reflexivity|].
  cbn [every_char]. intros [Hc Hw]%andb_prop. apply Z.ltb_lt in Hc.
  rewrite append_cons, decode_ascii by done.
  cbn [bytes fmap list_fmap app]. by rewrite IH.
Qed.

Lemma text_of_bytes w :
  every_char (fun c => byte c <? 128) w = true -> text_of (bytes w) = w.
Proof.
  unfold text_of. induction w as [|c w IH]; [reflexivity|].
  cbn [every_char]. intros [Hc Hw]%andb_prop. apply Z.ltb_lt in Hc.
  cbn [bytes fmap list_fmap encode encode_char]. unfold encode_scalar.
  destruct (Z.ltb_spec (byte c) 128); [|lia].
  rewrite of_byte_byte, append_cons, append_nil. by rewrite IH.
Qed.

(** ** Upper case and white space *)

Arguments upper_ranges : simpl never.
Arguments upper_special : simpl never.

Lemma upper_of_ascii c :
  byte c < 128 -> upper (byte c) = [byte (upper_ascii c)].
Proof.
  intros Hc.
  destruct c as [[] [] [] [] [] [] [] []];
    try (vm_compute in Hc; discriminate Hc); vm_compute; reflexivity.
Qed.

Lemma upper_ascii_range c : byte c < 128 -> byte (upper_ascii c) < 128.
Proof.
  intros Hc.
  destruct c as [[] [] [] [] [] [] [] []];
    try (vm_compute in Hc; discriminate Hc); vm_compute; reflexivity.
Qed.

Lemma printable_upper c : printable c = true -> printable (upper_ascii c) = true.
Proof.
  intros Hc.
  destruct c as [[] [] [] [] [] [] [] []];
    try (vm_compute in Hc; discriminate Hc); vm_compute; reflexivity.
Qed.

Lemma printable_not_white c :
  printable c = true -> is_white (Scalar (byte c)) = false /\ byte c < 128.
Proof.
  intros Hc.
  destruct c as [[] [] [] [] [] [] [] []];
    try (vm_compute in Hc; discriminate Hc); vm_compute; done.
Qed.

Lemma white_space_spec cp :
  is_white (Scalar cp) = true -> In cp white_space.
Proof.
  cbn [is_white]. intros (x & Hx & ->%Z.eqb_eq)%existsb_exists. exact Hx.
Qed.

Lemma spacing_spec cp :
  spacing cp = true ->
  scalar cp /\ upper cp = [cp] /\ is_white (Scalar cp) = true /\
  every_char (fun c => negb (Ascii.eqb c " ")) (encode_scalar cp) = true.
Proof.
  unfold spacing. intros [Hw Hn]%andb_prop.
  apply white_space_spec in Hw. apply negb_true_iff, Z.eqb_neq in Hn.
  unfold white_space in Hw. cbn [In] in Hw.
  repeat (destruct Hw as [<-|Hw];
          [first [exfalso; apply Hn; reflexivity
                 |split; [unfold scalar; lia|vm_compute; repeat split; reflexivity]]|]).
  destruct Hw.
Qed.

(** ** Trimming *)

Lemma trimStart_white l1 l2 :
  Forall (fun c => is_white c = true) l1 ->
  trimStart_chars (l1 ++ l2) = trimStart_chars l2.
Proof.
  induction 1 as [|c l1 Hc _ IH]; [reflexivity|].
  cbn [app trimStart_chars]. by rewrite Hc.
Qed.

Lemma trimEnd_white l :
  Forall (fun c => is_white c = true) l -> trimEnd_chars l = [].
Proof.
  induction 1 as [|c l Hc _ IH]; [reflexivity|].
  cbn [trimEnd_chars]. by rewrite IH, Hc.
Qed.

Lemma trimEnd_black l1 l2 :
  Forall (fun c => is_white c = false) l1 ->
  Forall (fun c => is_white c = true) l2 ->
  trimEnd_chars (l1 ++ l2) = l1.
Proof.
  intros H1 H2. induction H1 as [|c l1 Hc _ IH].
  - by apply trimEnd_white.
  - cbn [app trimEnd_chars]. rewrite IH. destruct l1; [by rewrite Hc|done].
Qed.

Lemma trimStart_black l :
  Forall (fun c => is_white c = false) l -> trimStart_chars l = l.
Proof. destruct 1 as [|c l Hc _]; [reflexivity|]. cbn. by rewrite Hc. Qed.

(** ** Splitting *)

Lemma every_char_app p s1 s2 :
  every_char p (s1 +:+ s2) = every_char p s1 && every_char p s2.
Proof.
  induction s1 as [|c s1 IH]; [reflexivity|].
  rewrite append_cons. cbn [every_char]. by rewrite IH, andb_assoc.
Qed.

Lemma every_char_impl (p q : ascii -> bool) s :
  (forall c, p c = true -> q c = true) ->
  every_char p s = true -> every_char q s = true.
Proof.
  intros Hpq. induction s as [|c s IH]; [done|].
  cbn [every_char]. intros [Hc Hs]%andb_prop. by rewrite (Hpq c Hc), IH.
Qed.

Lemma split_without_sep sep s :
  every_char (fun c => negb (Ascii.eqb c sep)) s = true -> split sep s = [s].
Proof.
  induction s as [|c s IH]; [reflexivity|].
  cbn [every_char split]. intros [Hc Hs]%andb_prop.
  apply negb_true_iff in Hc. by rewrite Hc, (IH Hs).
Qed.

Lemma split_piece sep x rest :
  every_char (fun c => negb (Ascii.eqb c sep)) x = true ->
  split sep (x +:+ String sep rest) = x :: split sep rest.
Proof.
  induction x as [|c x IH]; intros Hx.
  - rewrite append_nil. cbn [split]. by rewrite Ascii.eqb_refl.
  - cbn [every_char] in Hx. apply andb_prop in Hx as [Hc Hx].
    rewrite append_cons. cbn [split].
    apply negb_true_iff in Hc. by rewrite Hc, (IH Hx).
Qed.

Lemma text_of_spacing l :
  Forall (fun cp => spacing cp = true) l ->
  every_char (fun c => negb (Ascii.eqb c " ")) (text_of l) = true.
Proof.
  unfold text_of. induction 1 as [|cp l Hcp _ IH]; [reflexivity|].
  cbn [fmap list_fmap encode encode_char]. rewrite every_char_app, IH.
  by destruct (spacing_spec cp Hcp) as (_ & _ & _ & ->).
Qed.

(** ** The code token *)

Lemma bytes_upper w :
  every_char printable w = true ->
  flat_map upper_char (Scalar <$> bytes w) = Scalar <$> bytes (upper_ascii_string w) /\
  Forall (fun c => is_white c = false) (Scalar <$> bytes (upper_ascii_string w)) /\
  Forall scalar (bytes (upper_ascii_string w)) /\
  every_char (fun c => byte c <? 128) (upper_ascii_string w) = true.
Proof.
  induction w as [|c w IH]; [by repeat constructor|].
  cbn [every_char]. intros [Hc Hw]%andb_prop.
  destruct (IH Hw) as (IH1 & IH2 & IH3 & IH4).
  destruct (printable_not_white c Hc) as [_ Hb].
  destruct (printable_not_white _ (printable_upper c Hc)) as [Hnw Hub].
  cbn [bytes upper_ascii_string fmap list_fmap flat_map upper_char every_char].
  rewrite (upper_of_ascii c Hb), IH1, IH4.
  split; [reflexivity|]. split; [by constructor|]. split.
  - constructor; [|done]. pose proof (byte_range (upper_ascii c)). unfold scalar. lia.
  - by rewrite (proj2 (Z.ltb_lt _ _) Hub).
Qed.

Lemma spacing_upper l :
  Forall (fun cp => spacing cp = true) l ->
  flat_map upper_char (Scalar <$> l) = Scalar <$> l /\
  Forall (fun c => is_white c = true) (Scalar <$> l) /\
  Forall scalar l.
Proof.
  induction 1 as [|cp l Hcp _ (IH1 & IH2 & IH3)]; [by repeat constructor|].
  destruct (spacing_spec cp Hcp) as (Hs & Hu & Hw & _).
  cbn [fmap list_fmap flat_map upper_char]. rewrite Hu, IH1.
  split; [reflexivity|]. split; by constructor.
Qed.

(** The token of [/activate], a blank, and a word of printable ASCII
    characters with white space other than blanks around it. *)
Lemma code_token_padded before word after :
  Forall (fun cp => spacing cp = true) before ->
  every_char printable word = true ->
  Forall (fun cp => spacing cp = true) after ->
  code_token ("/activate " +:+ text_of before +:+ word +:+ text_of after)
  = Some (upper_ascii_string word).
Proof.
  intros Hb Hw Ha.
  destruct (spacing_upper before Hb) as (Hb1 & Hb2 & Hb3).
  destruct (spacing_upper after Ha) as (Ha1 & Ha2 & Ha3).
  destruct (bytes_upper word Hw) as (Hw1 & Hw2 & Hw3 & Hw4).
  assert (Hascii : every_char (fun c => byte c <? 128) word = true).
  { eapply every_char_impl; [|exact Hw]. intros c Hc.
    apply Z.ltb_lt. by apply printable_not_white. }
  unfold code_token.
  change ("/activate " +:+ ?x) with ("/activate" +:+ String " " x).
  rewrite split_piece by reflexivity.
  rewrite split_without_sep.
  2:{ rewrite !every_char_app, !text_of_spacing by done.
      rewrite (every_char_impl printable _ word); [done| |exact Hw].
      intros c Hc. destruct c as [[] [] [] [] [] [] [] []];
        try (vm_compute in Hc; discriminate Hc); reflexivity. }
  cbn [lookup list_lookup fmap option_fmap option_map]. f_equal.
  unfold trim, toUpperCase.
  rewrite decode_text, decode_bytes by done.
  rewrite <- (append_nil_r (text_of after)), decode_text by done.
  cbn [decode]. rewrite app_nil_r, !flat_map_app, Hb1, Hw1, Ha1.
  rewrite <- !fmap_app.
  change (encode (Scalar <$> ?l)) with (text_of l).
  rewrite <- (append_nil_r (text_of _)), decode_text.
  2:{ rewrite !Forall_app. done. }
  cbn [decode]. rewrite app_nil_r, !fmap_app.
  rewrite trimStart_white by done.
  rewrite <- (text_of_bytes _ Hw4) at 2. unfold text_of.
  destruct Hw2 as [|c l Hc Hl].
  - cbn [app]. rewrite <- (app_nil_r (Scalar <$> after)), trimStart_white by done.
    reflexivity.
  - cbn [app trimStart_chars]. rewrite Hc.
    change (c :: l ++ ?x) with ((c :: l) ++ x).
    rewrite (trimEnd_black (c :: l)) by (done || by constructor).
    reflexivity.
Qed.

(** ** The lesson table *)

Lemma lessons_length : length lessons = 10%nat.
Proof. reflexivity. Qed.

Lemma index_lessons (i : Z) :
  0 <= i < Z.of_nat (length lessons) -> is_Some (index lessons i).
Proof.
  intros [H0 H1]. unfold index.
  destruct (Z.ltb_spec i 0); [lia|].
  apply lookup_lt_is_Some. lia.
Qed.

Example first_lesson :
  title <$> index lessons 0 = Some "ДЕНЬ 1 - Введение в профессию".
Proof. reflexivity. Qed.

Example last_lesson :
  title <$> index lessons 9 = Some "ДЕНЬ 10 - Итог теории"
  /\ index lessons 10 = None /\ index lessons (-1) = None.
Proof. repeat split; reflexivity. Qed.

Example status_text :
  reply_text (StatusReport 1 10 10 (Some "2026-01-02")) =
  "📊 Ваш прогресс:

Урок: 1 из 10
Прогресс: 10%
Последний урок: 2026-01-02".
Proof. reflexivity. Qed.

(** ** Rounding *)

Lemma Math_round_quotient (a b : Z) :
  0 < b -> Math_round (inject_Z a / inject_Z b)%Q = (2 * a + b) / (2 * b).
Proof.
  intros Hb. unfold Math_round.
  assert (E : (inject_Z a / inject_Z b + (1 # 2) == (2 * a + b) # (Z.to_pos (2 * b)))%Q).
  { unfold Qeq, Qdiv, Qplus, Qmult, Qinv, inject_Z. simpl.
    destruct b as [|p|p]; try lia. simpl. lia. }
  rewrite E. unfold Qfloor. rewrite Z2Pos.id by lia. reflexivity.
Qed.

Lemma progress_exact (c : Z) :
  progress c = Math_round (inject_Z (100 * c) / inject_Z (Z.of_nat (length lessons)))%Q.
Proof.
  unfold progress. rewrite lessons_length. unfold Math_round.
  apply Qfloor_comp. apply Qplus_comp; [|reflexivity].
  unfold Qeq, Qdiv, Qmult, Qinv, inject_Z. simpl. lia.
Qed.

Lemma progress_ten (c : Z) : progress c = 10 * c.
Proof.
  rewrite progress_exact, lessons_length, Math_round_quotient by lia.
  change (Z.of_nat 10) with 10.
  replace (2 * (100 * c) + 10) with (10 + (10 * c) * (2 * 10)) by lia.
  rewrite Z.div_add by lia. reflexivity.
Qed.

(** ** Rows after a write *)

Lemma alter_Some_insert {K A} `{Countable K} (f : A -> A) (m : gmap K A) i x :
  m !! i = Some x -> alter f i m = <[i := f x]> m.
Proof.
  intros Hx. apply map_eq. intros j.
  destruct (decide (i = j)) as [<-|Hne].
  - rewrite lookup_alter_eq, lookup_insert_eq, Hx. reflexivity.
  - rewrite lookup_alter_ne, lookup_insert_ne by done. reflexivity.
Qed.

(** A write never removes a user row, never takes access away, and changes
    [current_lesson] only when it is an [UpdateLesson] for that user. *)
Lemma apply_write_user now w t id u :
  users t !! id = Some u ->
  users (apply_write now w t) !! id =
    Some match w with
         | MarkCodeUsed _ _ => u
         | UpsertUserAccess id' _ => if decide (id' = id) then with_access u else u
         | UpdateLesson n d id' => if decide (id' = id) then at_lesson n d u else u
         end.
Proof.
  intros Hu. destruct w as [id' code|id' d|n d id']; simpl.
  - exact Hu.
  - destruct (decide (id' = id)) as [->|Hne].
    + rewrite Hu. apply lookup_insert_eq.
    + destruct (users t !! id'); rewrite lookup_insert_ne by done; exact Hu.
  - destruct (decide (id' = id)) as [->|Hne].
    + rewrite lookup_alter_eq, Hu. reflexivity.
    + rewrite lookup_alter_ne by done. exact Hu.
Qed.

Lemma apply_redeem_writes id code now now' d t :
  apply_write now' (UpsertUserAccess id d) (apply_write now (MarkCodeUsed id code) t)
  = redeemed id code now d t.
Proof. unfold redeemed. cbn. destruct (users t !! id); reflexivity. Qed.

Lemma redeemed_code id code now d t ac :
  access_codes t !! code = Some ac ->
  access_codes (redeemed id code now d t) !! code = Some (used_by id now).
Proof. intros Hac. cbn. by rewrite lookup_alter_eq, Hac. Qed.

Lemma redeemed_user id code now d t :
  has_access <$> users (redeemed id code now d t) !! id = Some true.
Proof. cbn. rewrite lookup_insert_eq. by destruct (users t !! id). Qed.

(** ** The handlers on a store that works *)

Lemma serve_activate now id text d t :
  serve now (command_activate id text d) t =
  match code_token text with
  | None | Some EmptyString => (CodeMissing, t)
  | Some code =>
      match access_codes t !! code with
      | None => (CodeNotFound, t)
      | Some ac =>
          if is_used ac then (CodeAlreadyUsed, t)
          else (Granted,
                apply_write now (UpsertUserAccess id d)
                  (apply_write now (MarkCodeUsed id code) t))
      end
  end.
Proof.
  unfold serve, command_activate.
  destruct (code_token text) as [[|a code]|]; try reflexivity.
  unfold await_try. simpl.
  destruct (access_codes t !! _) as [ac|]; [|reflexivity].
  destruct (is_used ac); reflexivity.
Qed.

Lemma serve_start now id name d t :
  serve now (bot_start id name d) t =
  match users t !! id with
  | Some u =>
      if has_access u then
        (match index lessons 0 with
         | Some l => Welcome name l
         | None => ErrorReply
         end,
         apply_write now (UpdateLesson 1 d id) t)
      else (AccessDeniedBot, t)
  | None => (AccessDeniedBot, t)
  end.
Proof.
  unfold serve, bot_start, await_try. simpl.
  destruct (users t !! id) as [u|]; [|reflexivity]. simpl.
  destruct (has_access u); [|reflexivity]. simpl.
  destruct (index lessons 0); reflexivity.
Qed.

Lemma serve_continue now id d t :
  serve now (hears_continue id d) t =
  match users t !! id with
  | None => (NoSuchUser, t)
  | Some u =>
      if negb (has_access u) then (AccessDeniedLessons, t)
      else if 10 <? current_lesson u then (CourseComplete, t)
      else if current_lesson u =? 10 then
        (CourseComplete, apply_write now (UpdateLesson 11 d id) t)
      else
        (match index lessons (nextLessonNumber u d - 1) with
         | Some l => LessonReply l
         | None => ErrorReply
         end,
         apply_write now (UpdateLesson (nextLessonNumber u d) d id) t)
  end.
Proof.
  unfold serve, hears_continue, await_try. rewrite lessons_length.
  change (Z.of_nat 10) with 10. simpl.
  destruct (users t !! id) as [u|]; [|reflexivity].
  destruct (has_access u); [|reflexivity]. simpl.
  destruct (10 <? current_lesson u); [reflexivity|].
  destruct (current_lesson u =? 10); [reflexivity|]. simpl.
  destruct (index lessons _); reflexivity.
Qed.

Lemma serve_status now id t :
  serve now (command_status id) t =
    (match users t !! id with
     | Some u =>
         StatusReport (current_lesson u) 10 (progress (current_lesson u))
           (last_lesson_date u)
     | None => NoSuchUser
     end, t).
Proof.
  unfold serve, command_status, await_try. simpl.
  destruct (users t !! id); reflexivity.
Qed.

(** A handler on a working store needs only its own connection to be
    outside a transaction: it replies and commits as [serve] says, and it
    leaves every connection as it found it. *)
Lemma run_calm_idle now d op db r db' :
  sessions db 0%nat = Idle ->
  run (handler d op) (calm now) db = (r, db') ->
  serve now (handler d op) (committed db) = (r, committed db') /\
  forall c, sessions db' c = sessions db c.
Proof.
  intros Hc. destruct op as [id text|id name|id|id]; cbn [handler].
  - rewrite serve_activate. unfold command_activate.
    destruct (code_token text) as [[|a code]|]; try (finished; done).
    unfold await_try, calm. query_step. rewrite Hc. cbn [view].
    destruct (access_codes _ !! _) as [ac|]; [|finished; done].
    destruct (is_used ac); [finished; done|].
    do 4 (query_step; rewrite ?Hc). finished. split; [reflexivity|].
    intros [|c]; [by rewrite Hc|reflexivity].
  - rewrite serve_start. unfold bot_start, await_try, calm.
    query_step. rewrite Hc. cbn [view].
    destruct (users _ !! id) as [u|]; [|finished; done]. cbn [fmap option_fmap option_map].
    destruct (has_access u); [|finished; done].
    query_step. rewrite Hc.
    destruct (index lessons 0); finished; done.
  - rewrite serve_continue. unfold hears_continue, await_try, calm.
    rewrite lessons_length. change (Z.of_nat 10) with 10.
    query_step. rewrite Hc. cbn [view].
    destruct (users _ !! id) as [u|]; [|finished; done].
    destruct (negb (has_access u)); [finished; done|].
    destruct (10 <? current_lesson u); [finished; done|].
    destruct (current_lesson u =? 10).
    + query_step. rewrite Hc. finished. done.
    + query_step. rewrite Hc. destruct (index lessons _); finished; done.
  - rewrite serve_status. unfold command_status, await_try, calm.
    query_step. rewrite Hc. cbn [view].
    destruct (users _ !! id) as [u|]; finished; done.
Qed.

(** Handling updates one after the other on the store with its connections
    commits what [perform_all] computes from the committed rows alone. *)
Lemma handle_all_perform_all ups db :
  sessions db 0%nat = Idle ->
  committed (handle_all ups db) = perform_all ups (committed db) /\
  sessions (handle_all ups db) 0%nat = Idle.
Proof.
  revert db. induction ups as [|up ups IH]; intros db Hc; [done|].
  cbn [handle_all perform_all foldl].
  destruct (run (handler (today up) (operation up)) (calm (received up)) db)
    as [r db'] eqn:E.
  destruct (run_calm_idle _ _ _ _ _ _ Hc E) as [Hs Hk].
  unfold perform. rewrite Hs. cbn [snd].
  apply IH. by rewrite Hk.
Qed.

(** ** The handlers on any schedule *)

Lemma run_status_committed id sched db :
  committed (run (command_status id) sched db).2 = committed db.
Proof.
  unfold command_status, await_try. cbn [run]. unfold pool_query.
  destruct (sessions db (client (sched 0%nat))), (fails (sched 0%nat));
    simpl; try reflexivity;
    match goal with |- context [users ?t !! id] => destruct (users t !! id) end;
    reflexivity.
Qed.

Lemma run_continue_not_TooSoon id d sched db :
  (run (hears_continue id d) sched db).1 <> TooSoon.
Proof.
  unfold hears_continue, await_try. cbn [run].
  destruct (pool_query (sched 0%nat) (SelectUser id) db) as [[[u|]|] db1];
    simpl; try discriminate.
  destruct (negb (has_access u)); simpl; try discriminate.
  destruct (_ <? _); simpl; try discriminate.
  destruct (_ =? _); simpl.
  - destruct (pool_query _ _ db1) as [[?|] db2]; simpl; discriminate.
  - destruct (pool_query _ _ db1) as [[?|] db2]; simpl; try discriminate.
    destruct (index lessons _); simpl; discriminate.
Qed.

(** When the pool serves every query of [/activate] on one connection that
    has no transaction open, the handler is all-or-nothing whatever fails:
    it replies [Granted] with both writes committed, or it commits
    nothing. *)
Lemma activate_all_or_nothing c faults clock id text d db r db' :
  sessions db c = Idle ->
  run (command_activate id text d) (on_client c faults clock) db = (r, db') ->
  match r with
  | Granted =>
      exists code, code_token text = Some code /\
        committed db' = redeemed id code (clock 1%nat) d (committed db)
  | _ => committed db' = committed db
  end.
Proof.
  intros Hc. unfold command_activate.
  destruct (code_token text) as [[|a code]|]; try finished.
  unfold await_try, rollback_and_throw, on_client.
  query_step. rewrite Hc.
  destruct (faults 0%nat); [finished|].
  destruct (access_codes _ !! _) as [ac|]; [|finished].
  destruct (is_used ac); [finished|].
  query_step. rewrite Hc.
  destruct (faults 1%nat); [finished|].
  query_step. destruct (faults 2%nat).
  { query_step. destruct (faults 3%nat); finished. }
  query_step. destruct (faults 3%nat).
  { query_step. destruct (faults 4%nat); finished. }
  query_step. destruct (faults 4%nat).
  { query_step. destruct (faults 5%nat); finished. }
  finished. eexists; split; [reflexivity|].
  rewrite <- (apply_redeem_writes _ _ _ (clock 1%nat)). reflexivity.
Qed.

(** ** Progression *)

Lemma nextLessonNumber_rule u d :
  current_lesson u < Z.of_nat (length lessons) ->
  nextLessonNumber u d = if current_lesson u =? 1 then 2 else current_lesson u + 1.
Proof.
  intros Hc. unfold nextLessonNumber.
  destruct (Z.ltb_spec (current_lesson u) (Z.of_nat (length lessons))); [|lia].
  destruct (Z.eqb_spec (current_lesson u) 1) as [->|]; [|reflexivity].
  destruct (_ && _); reflexivity.
Qed.

Lemma nextLessonNumber_ge u d : current_lesson u <= nextLessonNumber u d.
Proof.
  unfold nextLessonNumber.
  destruct (Z.eqb_spec (current_lesson u) 1) as [E|E]; cbn [andb].
  - destruct (last_lesson_date u) as [d0|]; [destruct (bool_decide _)|];
      try lia; destruct (_ <? _); lia.
  - destruct (_ <? _); lia.
Qed.

Lemma perform_user up t id u :
  users t !! id = Some u ->
  exists u', users (perform up t).2 !! id = Some u' /\
    (has_access u = true -> has_access u' = true) /\
    (current_lesson u <= current_lesson u' \/
     restarts id (operation up) = true /\ current_lesson u' = 1).
Proof.
  intros Hu.
  assert (Hsame : forall r : Reply,
            exists u', users (r, t).2 !! id = Some u' /\
              (has_access u = true -> has_access u' = true) /\
              (current_lesson u <= current_lesson u' \/
               restarts id (operation up) = true /\ current_lesson u' = 1)).
  { intros r. exists u. cbn. split; [done|split; [done|left; lia]]. }
  destruct up as [now d [id' text|id' name|id'|id']];
    unfold perform; cbn [received today operation handler restarts] in *.
  - rewrite serve_activate.
    destruct (code_token text) as [[|a code]|]; try apply Hsame.
    destruct (access_codes t !! _) as [ac|]; [|apply Hsame].
    destruct (is_used ac); [apply Hsame|].
    cbn [snd].
    erewrite apply_write_user; [|erewrite apply_write_user; [reflexivity|exact Hu]].
    eexists; split; [reflexivity|].
    destruct (decide (id' = id)); cbn; (split; [done|left; lia]).
  - rewrite serve_start.
    destruct (users t !! id') as [u0|] eqn:Hu0; [|apply Hsame].
    destruct (has_access u0); [|apply Hsame].
    cbn [snd]. erewrite apply_write_user by exact Hu.
    eexists; split; [reflexivity|].
    destruct (decide (id' = id)) as [->|Hne]; cbn.
    + split; [done|right]. rewrite bool_decide_eq_true. done.
    + split; [done|left; lia].
  - rewrite serve_continue.
    destruct (users t !! id') as [u0|] eqn:Hu0; [|apply Hsame].
    destruct (negb (has_access u0)); [apply Hsame|].
    destruct (Z.ltb_spec 10 (current_lesson u0)); [apply Hsame|].
    destruct (Z.eqb_spec (current_lesson u0) 10) as [E|E];
      cbn [snd]; erewrite apply_write_user by exact Hu;
      (eexists; split; [reflexivity|]);
      (destruct (decide (id' = id)) as [->|Hne]; cbn;
       [|split; [done|left; lia]]);
      (split; [done|left]); assert (u0 = u) as -> by congruence.
    + lia.
    + apply nextLessonNumber_ge.
  - rewrite serve_status. apply Hsame.
Qed.

Lemma perform_all_user ups t id u :
  users t !! id = Some u ->
  exists u', users (perform_all ups t) !! id = Some u' /\
    (has_access u = true -> has_access u' = true) /\
    (forallb (fun up => negb (restarts id (operation up))) ups = true ->
     current_lesson u <= current_lesson u').
Proof.
  revert t u. induction ups as [|up ups IH]; intros t u Hu.
  - exists u. cbn. split; [done|split; [done|lia]].
  - destruct (perform_user up t id u Hu) as (u1 & Hu1 & Ha1 & Hc1).
    destruct (IH _ _ Hu1) as (u2 & Hu2 & Ha2 & Hc2).
    exists u2. split; [exact Hu2|]. split; [tauto|].
    cbn [forallb]. intros [Hup Hups]%andb_true_iff.
    specialize (Hc2 Hups).
    destruct Hc1 as [Hc1|[Hr _]]; [lia|].
    rewrite Hr in Hup. discriminate.
Qed.

(** The handlers keep every row within lessons 1 to [N + 1]. *)
Lemma perform_in_course up t : in_course t -> in_course (perform up t).2.
Proof.
  unfold in_course. rewrite lessons_length. change (Z.of_nat 10 + 1) with 11.
  intros Ht. destruct up as [now d [id' text|id' name|id'|id']];
    unfold perform; cbn [received today operation handler].
  - rewrite serve_activate.
    destruct (code_token text) as [[|a code]|]; try exact Ht.
    destruct (access_codes t !! _) as [ac|]; [|exact Ht].
    destruct (is_used ac); [exact Ht|].
    cbn [snd]. rewrite apply_redeem_writes. intros id u. cbn.
    destruct (decide (id' = id)) as [->|Hne].
    + rewrite lookup_insert_eq. intros [= <-].
      destruct (users t !! id) as [u0|] eqn:E; cbn; [by apply (Ht id)|lia].
    + rewrite lookup_insert_ne by done. apply Ht.
  - rewrite serve_start.
    destruct (users t !! id') as [u0|] eqn:E; [|exact Ht].
    destruct (has_access u0); [|exact Ht].
    cbn [snd]. intros id u. cbn.
    destruct (decide (id' = id)) as [->|Hne].
    + rewrite lookup_alter_eq, E. intros [= <-]. cbn. lia.
    + rewrite lookup_alter_ne by done. apply Ht.
  - rewrite serve_continue.
    destruct (users t !! id') as [u0|] eqn:E; [|exact Ht].
    destruct (negb (has_access u0)); [exact Ht|].
    destruct (Z.ltb_spec 10 (current_lesson u0)); [exact Ht|].
    pose proof (Ht _ _ E) as H0.
    destruct (Z.eqb_spec (current_lesson u0) 10); cbn [snd];
      intros id u; cbn;
      (destruct (decide (id' = id)) as [->|Hne];
       [rewrite lookup_alter_eq, E; intros [= <-]; cbn
       |rewrite lookup_alter_ne by done; apply Ht]).
    + lia.
    + rewrite nextLessonNumber_rule by (rewrite lessons_length; lia).
      destruct (_ =? _); lia.
  - rewrite serve_status. exact Ht.
Qed.

Lemma perform_all_in_course ups t : in_course t -> in_course (perform_all ups t).
Proof.
  revert t. induction ups as [|up ups IH]; intros t Ht; [exact Ht|].
  apply IH. by apply perform_in_course.
Qed.

(** Starting without users, whatever the codes and the updates. *)
Lemma in_course_from_no_users ups codes :
  in_course (perform_all ups {| users := ∅; access_codes := codes |}).
Proof.
  apply perform_all_in_course. intros id u Hu. cbn in Hu.
  by rewrite lookup_empty in Hu.
Qed.

(** *** What holds under any interleaving *)

(** A property of the tables that every write keeps is kept by every
    statement on every connection, hence by handlers that overlap. *)
Section Invariant.

Variable P : Tables -> Prop.
Hypothesis P_write : forall now w t, P t -> P (apply_write now w t).

Lemma commit_writes_invariant started pending t :
  P t -> P (commit_writes started pending t).
Proof.
  unfold commit_writes. revert t.
  induction pending as [|w pending IH]; intros t Ht; [done|].
  cbn [foldl]. by apply IH, P_write.
Qed.

Lemma pool_query_invariant st q db :
  P (committed db) -> P (committed (pool_query st q db).2).
Proof.
  intros Hdb. unfold pool_query.
  destruct (fails st).
  { by destruct (sessions db (client st)). }
  destruct q as [code|id'|id'|w| | |];
    destruct (sessions db (client st)) as [|started pending];
    cbn [snd committed set_session]; try done.
  - by apply P_write.
  - by apply commit_writes_invariant.
Qed.

Lemma interleave_invariant {R} (ts : list Turn) (hs : list (Handler R)) db :
  P (committed db) -> P (committed (interleave ts hs db).2).
Proof.
  revert hs db. induction ts as [|t ts IH]; intros hs db Hdb; [done|].
  cbn [interleave]. unfold turn.
  destruct (hs !! who t) as [[r|q k]|]; try by apply IH.
  pose proof (pool_query_invariant (turn_step t) q db Hdb) as H1.
  destruct (pool_query (turn_step t) q db) as [res db1]. by apply IH.
Qed.

End Invariant.

Lemma apply_write_keeps_access id now w t :
  (exists u, users t !! id = Some u /\ has_access u = true) ->
  exists u, users (apply_write now w t) !! id = Some u /\ has_access u = true.
Proof.
  intros (u & Hu & Ha). eexists. split; [by apply apply_write_user|].
  destruct w as [id' code|id' d|n d id']; [done|..];
    destruct (decide (id' = id)); done.
Qed.

Lemma apply_write_keeps_codes code (D : gset string) now w t :
  (exists ac, access_codes t !! code = Some ac /\ is_used ac = true) /\
  dom (access_codes t) = D ->
  (exists ac, access_codes (apply_write now w t) !! code = Some ac /\ is_used ac = true) /\
  dom (access_codes (apply_write now w t)) = D.
Proof.
  intros [(ac & Hac & Hu) HD]. destruct w as [id' code'|id' d|n d id']; cbn.
  - split; [|by rewrite dom_alter_L].
    destruct (decide (code' = code)) as [->|Hne].
    + rewrite lookup_alter_eq, Hac. by eexists.
    + rewrite lookup_alter_ne by done. by exists ac.
  - split; [by exists ac|done].
  - split; [by exists ac|done].
Qed.

(** C3, amended: an operation served on a working store keeps every user
    row, never turns [has_access] from true to false, and never lowers
    [current_lesson], except that [/start] of that user sets it to 1; over
    any sequence of operations handled one at a time access is kept, and
    without a [/start] of that user [current_lesson] does not go down; and
    access is kept also when handlers overlap, whatever they are, in
    whatever interleaving and on whatever connections, with whatever
    failures. *)
Theorem progression_monotone (up : Update) (ups : list Update) (t : Tables)
    (id : Z) (u : User) :
  users t !! id = Some u ->
  (exists u', users (perform up t).2 !! id = Some u' /\
     (has_access u = true -> has_access u' = true) /\
     (current_lesson u <= current_lesson u' \/
      restarts id (operation up) = true /\ current_lesson u' = 1)) /\
  (exists u', users (perform_all ups t) !! id = Some u' /\
     (has_access u = true -> has_access u' = true) /\
     (forallb (fun up' => negb (restarts id (operation up'))) ups = true ->
      current_lesson u <= current_lesson u')) /\
  (forall (hs : list (Handler Reply)) (ts : list Turn) (db : DB),
     committed db = t -> has_access u = true ->
     exists u', users (committed (interleave ts hs db).2) !! id = Some u' /\
                has_access u' = true).
Proof.
  intros Hu. split; [by apply perform_user|]. split; [by apply perform_all_user|].
  intros hs ts db <- Ha.
  apply (interleave_invariant
           (fun t => exists u', users t !! id = Some u' /\ has_access u' = true)).
  - intros now w t. apply apply_write_keeps_access.
  - by exists u.
Qed.

Lemma progression_monotone_witness :
  users (one_user 42 (student true 5 None)) !! 42 = Some (student true 5 None) /\
  (exists u', users (perform {| received := 7; today := "2026-01-02";
                                operation := Start 42 "anna" |}
                       (one_user 42 (student true 5 None))).2 !! 42 = Some u' /\
     (has_access (student true 5 None) = true -> has_access u' = true) /\
     (current_lesson (student true 5 None) <= current_lesson u' \/
      restarts 42 (Start 42 "anna") = true /\ current_lesson u' = 1)) /\
  (exists u', users (perform_all
                       [ {| received := 8; today := "2026-01-02";
                            operation := Advance 42 |};
                         {| received := 9; today := "2026-01-02";
                            operation := Status 42 |};
                         {| received := 10; today := "2026-01-03";
                            operation := Redeem 42 "/activate PON-ABCD1234" |} ]
                       (one_user 42 (student true 5 None))) !! 42 = Some u' /\
     (has_access (student true 5 None) = true -> has_access u' = true) /\
     (forallb (fun up' => negb (restarts 42 (operation up')))
        [ {| received := 8; today := "2026-01-02"; operation := Advance 42 |};
          {| received := 9; today := "2026-01-02"; operation := Status 42 |};
          {| received := 10; today := "2026-01-03";
             operation := Redeem 42 "/activate PON-ABCD1234" |} ] = true ->
      current_lesson (student true 5 None) <= current_lesson u')) /\
  (forall (hs : list (Handler Reply)) (ts : list Turn) (db : DB),
     committed db = one_user 42 (student true 5 None) ->
     has_access (student true 5 None) = true ->
     exists u', users (committed (interleave ts hs db).2) !! 42 = Some u' /\
                has_access u' = true).
Proof.
  split; [reflexivity|].
  apply (progression_monotone
           {| received := 7; today := "2026-01-02"; operation := Start 42 "anna" |}
           [ {| received := 8; today := "2026-01-02"; operation := Advance 42 |};
             {| received := 9; today := "2026-01-02"; operation := Status 42 |};
             {| received := 10; today := "2026-01-03";
                operation := Redeem 42 "/activate PON-ABCD1234" |} ]
           (one_user 42 (student true 5 None)) 42 (student true 5 None)).
  reflexivity.
Defined.

(** C3 as stated fails when presses of one user overlap: with the row at
    lesson 5, three presses served as in [late_write] bring the lesson
    number to 7 after five queries, and the sixth query, the delayed
    [UPDATE] of the first press, brings it down to 6.  No [/start] is
    involved. *)
Lemma overlapping_presses_lower_lesson :
  current_lesson <$>
    users (committed (interleave (take 5 late_write) three_presses
                        (quiescent (one_user 42 (student true 5 None)))).2) !! 42
  = Some 7 /\
  current_lesson <$>
    users (committed (interleave late_write three_presses
                        (quiescent (one_user 42 (student true 5 None)))).2) !! 42
  = Some 6 /\
  ~ lesson_never_lowered.
Proof.
  split; [vm_compute; reflexivity|]. split; [vm_compute; reflexivity|].
  intros H.
  specialize (H "2026-01-02" [Advance 42; Advance 42; Advance 42]
                (one_user 42 (student true 5 None))
                (take 5 late_write) (drop 5 late_write) 42
                (student true 7 (Some "2026-01-02"))
                (student true 6 (Some "2026-01-02"))).
  cbn [current_lesson student] in H. cut (7 <= 6); [lia|].
  apply H.
  - repeat constructor.
  - vm_compute. reflexivity.
  - vm_compute. reflexivity.
Qed.

Lemma apply_UpdateLesson now n d id u t :
  users t !! id = Some u ->
  apply_write now (UpdateLesson n d id) t = lesson_stored n d id u t.
Proof.
  intros Hu. unfold lesson_stored. cbn. f_equal. by apply alter_Some_insert.
Qed.

(** C4: for a user with access at lesson [c], [1 <= c < N], the button
    handler takes the next number to be 2 when [c = 1] and [c + 1]
    otherwise, whatever [last_lesson_date] is; it replies with the lesson of
    that number, and afterwards the row of the user holds that number as
    [current_lesson] and today's date as [last_lesson_date], with access as
    before; nothing else in the store changes. *)
Theorem continue_serves_next_lesson (now : Timestamp) (d : Date) (t : Tables)
    (id : Z) (u : User) :
  users t !! id = Some u ->
  has_access u = true ->
  1 <= current_lesson u < Z.of_nat (length lessons) ->
  let next := if current_lesson u =? 1 then 2 else current_lesson u + 1 in
  nextLessonNumber u d = next /\
  exists lesson,
    index lessons (next - 1) = Some lesson /\
    serve now (hears_continue id d) t =
      (LessonReply lesson,
       {| users :=
            <[id := {| has_access := true;
                       current_lesson := next;
                       last_lesson_date := Some d |}]> (users t);
          access_codes := access_codes t |}).
Proof.
  intros Hu Ha Hc next.
  assert (Hn : nextLessonNumber u d = next) by (apply nextLessonNumber_rule; lia).
  split; [exact Hn|].
  assert (Hr : 1 <= next <= Z.of_nat (length lessons)).
  { subst next. destruct (_ =? _); lia. }
  destruct (index_lessons (next - 1)) as [lesson Hl]; [lia|].
  exists lesson. split; [exact Hl|].
  rewrite serve_continue, Hu, Ha. rewrite lessons_length in Hc. cbn [negb].
  destruct (Z.ltb_spec 10 (current_lesson u)); [lia|].
  destruct (Z.eqb_spec (current_lesson u) 10); [lia|].
  rewrite Hn, Hl. f_equal. rewrite (apply_UpdateLesson _ _ _ _ _ _ Hu).
  unfold lesson_stored, at_lesson. by rewrite Ha.
Qed.

Lemma continue_serves_next_lesson_witness :
  exists lesson,
    index lessons 1 = Some lesson /\
    serve 7 (hears_continue 42 "2026-01-02")
      (one_user 42 (student true 1 (Some "2026-01-02"))) =
      (LessonReply lesson,
       {| users :=
            <[42 := {| has_access := true;
                       current_lesson := 2;
                       last_lesson_date := Some "2026-01-02" |}]>
              (users (one_user 42 (student true 1 (Some "2026-01-02"))));
          access_codes :=
            access_codes (one_user 42 (student true 1 (Some "2026-01-02"))) |}).
Proof.
  apply (continue_serves_next_lesson 7 "2026-01-02"
           (one_user 42 (student true 1 (Some "2026-01-02"))) 42
           (student true 1 (Some "2026-01-02"))).
  - reflexivity.
  - reflexivity.
  - rewrite lessons_length. cbn. lia.
Defined.

(** C5: for a user with access, the button handler at [current_lesson = N]
    replies [CourseComplete] and, in the same call, leaves the row of the
    user with [current_lesson = N + 1] and today's date; at [current_lesson
    > N] it replies [CourseComplete] and leaves the store as it is; pressed
    again after either, it replies [CourseComplete] and changes nothing. *)
Theorem continue_completion (now now' : Timestamp) (d d' : Date) (t : Tables)
    (id : Z) (u : User) :
  users t !! id = Some u ->
  has_access u = true ->
  Z.of_nat (length lessons) <= current_lesson u ->
  let t' :=
    if current_lesson u =? Z.of_nat (length lessons)
    then {| users :=
              <[id := {| has_access := true;
                         current_lesson := Z.of_nat (length lessons) + 1;
                         last_lesson_date := Some d |}]> (users t);
            access_codes := access_codes t |}
    else t in
  serve now (hears_continue id d) t = (CourseComplete, t') /\
  serve now' (hears_continue id d') t' = (CourseComplete, t').
Proof.
  intros Hu Ha Hc. rewrite lessons_length in *. change (Z.of_nat 10) with 10 in *.
  cbn zeta. rewrite !serve_continue, Hu, Ha. cbn [negb].
  destruct (Z.eqb_spec (current_lesson u) 10) as [E|E].
  - rewrite E. cbn [Z.ltb Z.compare Pos.compare Pos.compare_cont].
    split.
    + f_equal. rewrite (apply_UpdateLesson _ _ _ _ _ _ Hu).
      unfold lesson_stored, at_lesson. by rewrite Ha.
    + cbn [users]. rewrite lookup_insert_eq. reflexivity.
  - destruct (Z.ltb_spec 10 (current_lesson u)); [|lia].
    split; [reflexivity|]. rewrite Hu, Ha. cbn [negb].
    destruct (Z.ltb_spec 10 (current_lesson u)); [reflexivity|lia].
Qed.

Lemma continue_completion_witness :
  serve 7 (hears_continue 42 "2026-01-10")
    (one_user 42 (student true 10 (Some "2026-01-09"))) =
    (CourseComplete,
     {| users := {[ 42 := {| has_access := true;
                             current_lesson := 11;
                             last_lesson_date := Some "2026-01-10" |} ]};
        access_codes := ∅ |}) /\
  serve 8 (hears_continue 42 "2026-01-11")
    {| users := {[ 42 := {| has_access := true;
                            current_lesson := 11;
                            last_lesson_date := Some "2026-01-10" |} ]};
       access_codes := ∅ |} =
    (CourseComplete,
     {| users := {[ 42 := {| has_access := true;
                             current_lesson := 11;
                             last_lesson_date := Some "2026-01-10" |} ]};
        access_codes := ∅ |}).
Proof.
  pose proof (continue_completion 7 8 "2026-01-10" "2026-01-11"
                (one_user 42 (student true 10 (Some "2026-01-09"))) 42
                (student true 10 (Some "2026-01-09"))) as H.
  cbn zeta in H. rewrite lessons_length in H.
  change (current_lesson (student true 10 (Some "2026-01-09")) =? Z.of_nat 10)
    with true in H.
  cbv iota in H.
  change (<[42 := ?x]> (users (one_user 42 (student true 10 (Some "2026-01-09")))))
    with ({[ 42 := x ]} : gmap Z User) in H.
  apply H; [reflexivity|reflexivity|cbn; lia].
Defined.

(** C6: for a user with access, [/start] replies with the first lesson
    and leaves the row of the user with [current_lesson = 1] and
    [last_lesson_date = today], whatever they were before, and everything
    else in the store as it was; [/start] again gives the same lesson and
    the same row, with the date of that day. *)
Theorem start_resets_to_first_lesson (now now' : Timestamp) (d d' : Date)
    (name : string) (t : Tables) (id : Z) (u : User) :
  users t !! id = Some u ->
  has_access u = true ->
  exists lesson,
    index lessons 0 = Some lesson /\
    serve now (bot_start id name d) t =
      (Welcome name lesson,
       {| users :=
            <[id := {| has_access := true;
                       current_lesson := 1;
                       last_lesson_date := Some d |}]> (users t);
          access_codes := access_codes t |}) /\
    serve now' (bot_start id name d')
      {| users :=
           <[id := {| has_access := true;
                      current_lesson := 1;
                      last_lesson_date := Some d |}]> (users t);
         access_codes := access_codes t |} =
      (Welcome name lesson,
       {| users :=
            <[id := {| has_access := true;
                       current_lesson := 1;
                       last_lesson_date := Some d' |}]> (users t);
          access_codes := access_codes t |}).
Proof.
  intros Hu Ha.
  destruct (index_lessons 0) as [lesson Hl]; [rewrite lessons_length; lia|].
  exists lesson. split; [exact Hl|].
  rewrite !serve_start, Hu, Ha, Hl. split.
  - f_equal. rewrite (apply_UpdateLesson _ _ _ _ _ _ Hu).
    unfold lesson_stored, at_lesson. by rewrite Ha.
  - cbn [users]. rewrite lookup_insert_eq. cbn [has_access]. f_equal.
    cbn [apply_write users access_codes]. f_equal.
    rewrite (alter_Some_insert _ _ id _ (lookup_insert_eq _ _ _)).
    by rewrite insert_insert_eq.
Qed.

Lemma start_resets_to_first_lesson_witness :
  exists lesson,
    index lessons 0 = Some lesson /\
    serve 7 (bot_start 42 "anna" "2026-01-05")
      (one_user 42 (student true 6 (Some "2026-01-04"))) =
      (Welcome "anna" lesson,
       {| users :=
            <[42 := {| has_access := true;
                       current_lesson := 1;
                       last_lesson_date := Some "2026-01-05" |}]>
              (users (one_user 42 (student true 6 (Some "2026-01-04"))));
          access_codes :=
            access_codes (one_user 42 (student true 6 (Some "2026-01-04"))) |}) /\
    serve 8 (bot_start 42 "anna" "2026-01-06")
      {| users :=
           <[42 := {| has_access := true;
                      current_lesson := 1;
                      last_lesson_date := Some "2026-01-05" |}]>
             (users (one_user 42 (student true 6 (Some "2026-01-04"))));
         access_codes :=
           access_codes (one_user 42 (student true 6 (Some "2026-01-04"))) |} =
      (Welcome "anna" lesson,
       {| users :=
            <[42 := {| has_access := true;
                       current_lesson := 1;
                       last_lesson_date := Some "2026-01-06" |}]>
              (users (one_user 42 (student true 6 (Some "2026-01-04"))));
          access_codes :=
            access_codes (one_user 42 (student true 6 (Some "2026-01-04"))) |}).
Proof.
  apply (start_resets_to_first_lesson 7 8 "2026-01-05" "2026-01-06" "anna"
           (one_user 42 (student true 6 (Some "2026-01-04"))) 42
           (student true 6 (Some "2026-01-04")));
    reflexivity.
Defined.

(** ** The cadence rule *)

Lemma press_row now d t id u :
  users t !! id = Some u ->
  has_access u = true ->
  exists u',
    users (serve now (hears_continue id d) t).2 !! id = Some u' /\
    has_access u' = true /\
    current_lesson u' =
      if current_lesson u <? 11 then current_lesson u + 1 else current_lesson u.
Proof.
  intros Hu Ha. rewrite serve_continue, Hu, Ha. cbn [negb].
  destruct (Z.ltb_spec 10 (current_lesson u)) as [H10|H10].
  { exists u. cbn. destruct (Z.ltb_spec (current_lesson u) 11); [lia|done]. }
  destruct (Z.ltb_spec (current_lesson u) 11); [|lia].
  destruct (Z.eqb_spec (current_lesson u) 10) as [E|E]; cbn [snd];
    erewrite apply_write_user by exact Hu;
    rewrite decide_True by done;
    (eexists; split; [reflexivity|]); cbn; (split; [exact Ha|]).
  - lia.
  - rewrite nextLessonNumber_rule by (rewrite lessons_length; lia).
    destruct (Z.eqb_spec (current_lesson u) 1); lia.
Qed.

Lemma presses_row n now d t id u :
  users t !! id = Some u ->
  has_access u = true ->
  exists u',
    users (presses n now id d t) !! id = Some u' /\
    has_access u' = true /\
    current_lesson u' =
      Z.max (current_lesson u) (Z.min (current_lesson u + Z.of_nat n) 11).
Proof.
  intros Hu Ha. induction n as [|n (u1 & Hu1 & Ha1 & Hc1)].
  - exists u. cbn. split; [done|split; [done|lia]].
  - destruct (press_row now d _ id u1 Hu1 Ha1) as (u2 & Hu2 & Ha2 & Hc2).
    exists u2. split; [exact Hu2|split; [exact Ha2|]].
    rewrite Hc2. destruct (Z.ltb_spec (current_lesson u1) 11); lia.
Qed.

(** C7: the date check is not part of the handler.  For a user with access,
    whatever [last_lesson_date] is, today included, the button handler never
    replies [TooSoon], on any schedule and store; on a working store it
    serves the lesson after [current_lesson], or [CourseComplete] from
    lesson [N] on; and [n] presses on one day move [current_lesson] forward
    [n] times, up to [N + 1]. *)
Theorem cadence_rule_inert (now : Timestamp) (d : Date) (t : Tables) (id : Z)
    (u : User) :
  users t !! id = Some u ->
  has_access u = true ->
  1 <= current_lesson u ->
  (forall sched db, (run (hears_continue id d) sched db).1 <> TooSoon) /\
  (if current_lesson u <? Z.of_nat (length lessons)
   then exists lesson,
          index lessons (current_lesson u) = Some lesson /\
          serve now (hears_continue id d) t =
            (LessonReply lesson, lesson_stored (current_lesson u + 1) d id u t)
   else (serve now (hears_continue id d) t).1 = CourseComplete) /\
  (forall n : nat,
     current_lesson <$> users (presses n now id d t) !! id =
       Some (Z.max (current_lesson u)
               (Z.min (current_lesson u + Z.of_nat n) (Z.of_nat (length lessons) + 1)))).
Proof.
  intros Hu Ha Hc. split; [|split].
  - intros sched db. apply run_continue_not_TooSoon.
  - rewrite serve_continue, Hu, Ha, lessons_length. cbn [negb].
    change (Z.of_nat 10) with 10.
    destruct (Z.ltb_spec (current_lesson u) 10) as [Hlt|Hge].
    + destruct (index_lessons (current_lesson u)) as [lesson Hl];
        [rewrite lessons_length; lia|].
      exists lesson. split; [exact Hl|].
      destruct (Z.ltb_spec 10 (current_lesson u)); [lia|].
      destruct (Z.eqb_spec (current_lesson u) 10); [lia|].
      rewrite nextLessonNumber_rule by (rewrite lessons_length; lia).
      replace (if current_lesson u =? 1 then 2 else current_lesson u + 1)
        with (current_lesson u + 1)
        by (destruct (Z.eqb_spec (current_lesson u) 1); lia).
      replace (current_lesson u + 1 - 1) with (current_lesson u) by lia.
      rewrite Hl. f_equal. by apply apply_UpdateLesson.
    + destruct (Z.ltb_spec 10 (current_lesson u)); [reflexivity|].
      destruct (Z.eqb_spec (current_lesson u) 10); [reflexivity|lia].
  - intros n. destruct (presses_row n now d t id u Hu Ha) as (u' & Hu' & _ & Hc').
    rewrite Hu'. cbn [fmap option_fmap option_map]. rewrite Hc', lessons_length.
    reflexivity.
Qed.

Lemma cadence_rule_inert_witness :
  (forall sched db, (run (hears_continue 42 "2026-01-02") sched db).1 <> TooSoon) /\
  (exists lesson,
     index lessons 3 = Some lesson /\
     serve 7 (hears_continue 42 "2026-01-02")
       (one_user 42 (student true 3 (Some "2026-01-02"))) =
       (LessonReply lesson,
        lesson_stored 4 "2026-01-02" 42 (student true 3 (Some "2026-01-02"))
          (one_user 42 (student true 3 (Some "2026-01-02"))))) /\
  (forall n : nat,
     current_lesson <$>
       users (presses n 7 42 "2026-01-02"
                (one_user 42 (student true 3 (Some "2026-01-02")))) !! 42 =
       Some (Z.max 3 (Z.min (3 + Z.of_nat n) (Z.of_nat (length lessons) + 1)))).
Proof.
  apply (cadence_rule_inert 7 "2026-01-02"
           (one_user 42 (student true 3 (Some "2026-01-02"))) 42
           (student true 3 (Some "2026-01-02")));
    [reflexivity|reflexivity|cbn; lia].
Defined.

(** ** Status *)

(** C8: [/status] reads and never writes: called any number of times on a
    working store, or once on any schedule and store, it leaves every
    committed row as it was.  For a user with a row it reports
    [current_lesson], [total = N], [percent = round (100 * current_lesson /
    N)] and [last_lesson_date]; without a row it replies [NoSuchUser]. *)
Theorem status_pure_read (now : Timestamp) (id : Z) (t : Tables) :
  (forall n : nat, Nat.iter n (fun t' => (serve now (command_status id) t').2) t = t) /\
  (forall sched db, committed (run (command_status id) sched db).2 = committed db) /\
  (serve now (command_status id) t).1 =
    match users t !! id with
    | Some u =>
        StatusReport (current_lesson u) (Z.of_nat (length lessons))
          (Math_round (inject_Z (100 * current_lesson u)
                       / inject_Z (Z.of_nat (length lessons)))%Q)
          (last_lesson_date u)
    | None => NoSuchUser
    end.
Proof.
  split; [|split].
  - induction n as [|n IH]; [reflexivity|].
    rewrite Nat.iter_succ, IH, serve_status. reflexivity.
  - intros sched db. apply run_status_committed.
  - rewrite serve_status. cbn [fst]. destruct (users t !! id) as [u|]; [|reflexivity].
    rewrite progress_exact, lessons_length. reflexivity.
Qed.

(** C10: [/status] does not look at [has_access]: for a user whose row has
    [has_access = false] it reports the progression fields, where [/start]
    and the button handler reply [AccessDenied] and change nothing; on a
    working store the only reply of [/status] that is not a report is
    [NoSuchUser], sent exactly when the user has no row. *)
Theorem status_not_gated (now : Timestamp) (d : Date) (name : string)
    (t : Tables) (id : Z) (u : User) :
  users t !! id = Some u ->
  has_access u = false ->
  serve now (command_status id) t =
    (StatusReport (current_lesson u) (Z.of_nat (length lessons))
       (progress (current_lesson u)) (last_lesson_date u), t) /\
  serve now (bot_start id name d) t = (AccessDeniedBot, t) /\
  serve now (hears_continue id d) t = (AccessDeniedLessons, t) /\
  (forall id' t',
     match (serve now (command_status id') t').1 with
     | StatusReport _ _ _ _ => is_Some (users t' !! id')
     | NoSuchUser => users t' !! id' = None
     | _ => False
     end).
Proof.
  intros Hu Ha. split; [|split; [|split]].
  - rewrite serve_status, Hu, lessons_length. reflexivity.
  - rewrite serve_start, Hu, Ha. reflexivity.
  - rewrite serve_continue, Hu, Ha. reflexivity.
  - intros id' t'. rewrite serve_status. cbn [fst].
    destruct (users t' !! id'); [by eexists|reflexivity].
Qed.

Lemma status_not_gated_witness :
  serve 7 (command_status 42) (one_user 42 (student false 4 None)) =
    (StatusReport 4 10 40 None, one_user 42 (student false 4 None)) /\
  serve 7 (bot_start 42 "anna" "2026-01-02") (one_user 42 (student false 4 None)) =
    (AccessDeniedBot, one_user 42 (student false 4 None)) /\
  serve 7 (hears_continue 42 "2026-01-02") (one_user 42 (student false 4 None)) =
    (AccessDeniedLessons, one_user 42 (student false 4 None)).
Proof.
  destruct (status_not_gated 7 "2026-01-02" "anna"
              (one_user 42 (student false 4 None)) 42 (student false 4 None))
    as (Hs & Hb & Hc & _); [reflexivity|reflexivity|].
  rewrite progress_ten in Hs. split; [exact Hs|split; [exact Hb|exact Hc]].
Defined.

(** ** Redemption *)

Example code_token_lowercase :
  code_token "/activate pon-abcd1234" = Some "PON-ABCD1234".
Proof. reflexivity. Qed.

Example code_token_line_end :
  code_token "/activate pon-abcd1234
" = Some "PON-ABCD1234".
Proof. reflexivity. Qed.

Example code_token_absent : code_token "/activate" = None.
Proof. reflexivity. Qed.

(** Two spaces after the command: the second piece of the split is empty,
    and the handler replies [CodeMissing]. *)
Example code_token_two_spaces :
  code_token "/activate  pon-abcd1234" = Some EmptyString.
Proof. reflexivity. Qed.

Example code_token_no_break_space :
  code_token ("/activate pon-abcd1234" +:+ text_of [160]) = Some "PON-ABCD1234".
Proof. vm_compute. reflexivity. Qed.

Example code_token_cyrillic :
  code_token "/activate код-1" = Some "КОД-1".
Proof. vm_compute. reflexivity. Qed.

(** C9: [/activate] looks the code up under [trim (toUpperCase token)], where
    [token] is the second space-separated piece of the message; it replies
    [CodeMissing] when there is no such piece or it normalizes to the empty
    string, [CodeNotFound] when no row has that code, [CodeAlreadyUsed] when
    the row has [is_used], and otherwise [Granted].  The normalization
    removes the white space around the token (tabs, line breaks, no-break
    spaces, ...) and puts letters in upper case: a word of printable ASCII
    characters becomes the same word with [a]-[z] as [A]-[Z], a Cyrillic
    word its Cyrillic upper case, and a token of white space only is a
    missing code.  In particular, with [PON-ABCD1234] unredeemed and no row
    for user 42, [/activate pon-abcd1234] from 42, trimmed or not, is
    granted and [/status] then reports lesson 1 of 10, 10 percent. *)
Theorem activate_decisions :
  (forall now id text d t,
     serve now (command_activate id text d) t =
       match (fun s => trim (toUpperCase s)) <$> (split " " text !! 1%nat) with
       | None | Some EmptyString => (CodeMissing, t)
       | Some code =>
           match access_codes t !! code with
           | None => (CodeNotFound, t)
           | Some ac =>
               if is_used ac then (CodeAlreadyUsed, t)
               else (Granted, redeemed id code now d t)
           end
       end) /\
  (forall before word after,
     Forall (fun cp => spacing cp = true) before ->
     every_char printable word = true ->
     Forall (fun cp => spacing cp = true) after ->
     (fun s => trim (toUpperCase s)) <$>
       (split " " ("/activate " +:+ text_of before +:+ word +:+ text_of after) !! 1%nat)
     = Some (upper_ascii_string word)) /\
  trim (toUpperCase ("pon-abcd1234" +:+ text_of [160; 9; 10])) = "PON-ABCD1234" /\
  trim (toUpperCase (text_of [65279] +:+ "код-1")) = "КОД-1" /\
  (forall now id d t after,
     Forall (fun cp => spacing cp = true) after ->
     serve now (command_activate id "/activate" d) t = (CodeMissing, t) /\
     serve now (command_activate id ("/activate " +:+ text_of after) d) t
     = (CodeMissing, t)) /\
  (forall now now' d t ac after,
     Forall (fun cp => spacing cp = true) after ->
     access_codes t !! "PON-ABCD1234" = Some ac ->
     is_used ac = false ->
     users t !! 42 = None ->
     serve now (command_activate 42 ("/activate pon-abcd1234" +:+ text_of after) d) t =
       (Granted, redeemed 42 "PON-ABCD1234" now d t) /\
     serve now' (command_status 42) (redeemed 42 "PON-ABCD1234" now d t) =
       (StatusReport 1 10 10 (Some d), redeemed 42 "PON-ABCD1234" now d t)).
Proof.
  split; [|split; [|split; [|split; [|split]]]].
  - intros now id text d t. rewrite serve_activate. unfold code_token.
    destruct (_ <$> _) as [[|a code]|]; try reflexivity.
    destruct (access_codes t !! _) as [ac|]; [|reflexivity].
    destruct (is_used ac); [reflexivity|].
    by rewrite apply_redeem_writes.
  - intros before word after Hb Hw Ha. by apply code_token_padded.
  - vm_compute. reflexivity.
  - vm_compute. reflexivity.
  - intros now id d t after Ha. rewrite !serve_activate. split; [reflexivity|].
    pose proof (code_token_padded [] EmptyString after (List.Forall_nil _) eq_refl Ha)
      as H.
    change ("/activate " +:+ text_of [] +:+ EmptyString +:+ text_of after)
      with ("/activate " +:+ text_of after) in H.
    by rewrite H.
  - intros now now' d t ac after Ha Hc Hu Hn. split.
    + rewrite serve_activate.
      pose proof (code_token_padded [] "pon-abcd1234" after (List.Forall_nil _) eq_refl Ha)
        as H.
      change ("/activate " +:+ text_of [] +:+ "pon-abcd1234" +:+ text_of after)
        with ("/activate pon-abcd1234" +:+ text_of after) in H.
      rewrite H. change (upper_ascii_string "pon-abcd1234") with "PON-ABCD1234".
      cbv iota. rewrite Hc, Hu. by rewrite apply_redeem_writes.
    + rewrite serve_status. unfold redeemed at 1. cbn [users].
      rewrite lookup_insert_eq, Hn. reflexivity.
Qed.

Lemma activate_decisions_witness :
  serve 7 (command_activate 42 ("/activate pon-abcd1234" +:+ text_of [9; 160])
             "2026-01-02") one_code =
    (Granted, redeemed 42 "PON-ABCD1234" 7 "2026-01-02" one_code) /\
  serve 8 (command_status 42) (redeemed 42 "PON-ABCD1234" 7 "2026-01-02" one_code) =
    (StatusReport 1 10 10 (Some "2026-01-02"),
     redeemed 42 "PON-ABCD1234" 7 "2026-01-02" one_code).
Proof.
  apply (proj2 (proj2 (proj2 (proj2 (proj2 activate_decisions)))) 7 8 "2026-01-02"
           one_code unused_code [9; 160]).
  - repeat constructor.
  - reflexivity.
  - reflexivity.
  - reflexivity.
Defined.

(** One after the other, a code is granted once: after a granted
    [/activate] the user has access, and every later [/activate] of the
    same code, by anyone, replies [CodeAlreadyUsed] and changes nothing. *)
Lemma redeem_once_in_sequence now now' id id' text text' d d' t t' :
  serve now (command_activate id text d) t = (Granted, t') ->
  code_token text' = code_token text ->
  has_access <$> users t' !! id = Some true /\
  serve now' (command_activate id' text' d') t' = (CodeAlreadyUsed, t').
Proof.
  rewrite !serve_activate. intros Hg ->.
  destruct (code_token text) as [[|a code]|]; try discriminate.
  destruct (access_codes t !! _) as [ac|] eqn:Hac; [|discriminate].
  destruct (is_used ac); [discriminate|].
  rewrite apply_redeem_writes in Hg.
  assert (t' = redeemed id (String a code) now d t) as -> by congruence.
  split; [apply redeemed_user|].
  by rewrite (redeemed_code _ _ _ _ _ _ Hac).
Qed.

(** ** Overlapping redemptions *)

(** One turn of [interleave] in the hypothesis [E]. *)
Ltac serve_turn E :=
  unfold turn at 1 in E;
  cbn [who turn_step lookup list_lookup] in E;
  unfold pool_query at 1 in E;
  cbn [client fails now quiescent set_session sessions committed view
       Nat.eqb insert list_insert] in E.

(** The race on any store that holds the code unredeemed, for any two
    users. *)
Lemma overlapping_activate_any_store t a code ac id1 id2 text1 text2 d1 d2 hs db :
  code_token text1 = Some (String a code) ->
  code_token text2 = Some (String a code) ->
  access_codes t !! String a code = Some ac ->
  is_used ac = false ->
  interleave race
    [command_activate id1 text1 d1; command_activate id2 text2 d2]
    (quiescent t) = (hs, db) ->
  sent <$> hs = [Some Granted; Some Granted] /\
  committed db =
    redeemed id2 (String a code) 106 d2 (redeemed id1 (String a code) 102 d1 t).
Proof.
  intros H1 H2 Hac Hu. unfold command_activate. rewrite H1, H2.
  unfold await_try, race, ok_step. intros E.
  cbn [interleave] in E.
  serve_turn E. rewrite Hac, Hu in E.
  serve_turn E. rewrite Hac, Hu in E.
  do 8 serve_turn E.
  injection E as <- <-. split; [reflexivity|].
  unfold redeemed. cbn.
  destruct (users t !! id1); cbn; destruct (_ !! id2); reflexivity.
Qed.

(** C1, as the code behaves: the check of [is_used] and the [UPDATE] are
    separate queries and the [UPDATE] does not test [is_used], so two
    overlapping [/activate] of one unredeemed code are both granted; both
    users get access and the code row keeps the second stamp (user 2, at
    the time the second transaction started). *)
Theorem overlapping_activate_both_granted :
  let out :=
    interleave race
      [ command_activate 1 "/activate PON-ABCD1234" "2026-01-02";
        command_activate 2 "/activate PON-ABCD1234" "2026-01-02" ]
      (quiescent one_code) in
  sent <$> out.1 = [Some Granted; Some Granted] /\
  access_codes (committed out.2) !! "PON-ABCD1234" = Some (used_by 2 106) /\
  users (committed out.2) !! 1 = Some (new_user "2026-01-02") /\
  users (committed out.2) !! 2 = Some (new_user "2026-01-02").
Proof. vm_compute. repeat split; reflexivity. Qed.

(** ** A transaction spread over two connections *)

(** The same schedule on any store that holds the code unredeemed: the
    reply is the error and only the [UPDATE] is committed. *)
Lemma split_transaction_any_store t a code ac id text d r db :
  code_token text = Some (String a code) ->
  access_codes t !! String a code = Some ac ->
  is_used ac = false ->
  run (command_activate id text d) split_transaction (quiescent t) = (r, db) ->
  r = ErrorReply /\
  committed db = apply_write 102 (MarkCodeUsed id (String a code)) t.
Proof.
  intros H1 Hac Hu. unfold command_activate. rewrite H1.
  unfold await_try, rollback_and_throw, split_transaction, steps, ok_step.
  cbn [run]. unfold pool_query at 1.
  cbn [client fails now quiescent sessions committed view lookup list_lookup].
  rewrite Hac, Hu.
  intros [= <- <-]. split; reflexivity.
Qed.

(** C2, as the code behaves: the statements between [BEGIN] and [ROLLBACK]
    go through [pool.query], which may hand each one to a different
    connection; when the [UPDATE] is served outside the connection that ran
    [BEGIN] it is committed at once, and after the [INSERT] fails the
    [ROLLBACK] undoes nothing: the code stays marked used and the user has
    no row. *)
Theorem split_transaction_keeps_code_used :
  let out :=
    run (command_activate 42 "/activate PON-ABCD1234" "2026-01-02")
      split_transaction (quiescent one_code) in
  out.1 = ErrorReply /\
  access_codes (committed out.2) !! "PON-ABCD1234" = Some (used_by 42 102) /\
  users (committed out.2) !! 42 = None.
Proof. vm_compute. repeat split; reflexivity. Qed.

(** * Further properties *)

(** ** What one query can commit *)

Lemma pool_query_execute_committed st w db :
  committed (pool_query st (Execute w) db).2 = committed db \/
  committed (pool_query st (Execute w) db).2 = apply_write (now st) w (committed db).
Proof.
  unfold pool_query.
  destruct (fails st), (sessions db (client st)); cbn; auto.
Qed.

Lemma pool_query_select_committed st q db :
  match q with
  | SelectAccessCode _ | SelectHasAccess _ | SelectUser _ => True
  | _ => False
  end ->
  committed (pool_query st q db).2 = committed db.
Proof.
  unfold pool_query.
  destruct q; try done; intros _;
    destruct (fails st), (sessions db (client st)); reflexivity.
Qed.

(** X1: when [/activate] answers that the code is missing, not found or
    already used, it has written nothing: the committed tables and every
    connection are exactly as before, whichever connections serve the
    statements and whichever statements fail. *)
Theorem rejected_activate_writes_nothing id text d sched db r db' :
  run (command_activate id text d) sched db = (r, db') ->
  r = CodeMissing \/ r = CodeNotFound \/ r = CodeAlreadyUsed ->
  db' = db.
Proof.
  unfold command_activate.
  destruct (code_token text) as [[|a code]|]; try (intros [= <- <-]; done).
  unfold await_try, rollback_and_throw. cbn [run].
  unfold pool_query at 1.
  destruct (fails (sched 0%nat)).
  { intros [= <- _] [|[|]]; discriminate. }
  destruct (sessions db (client (sched 0%nat))) eqn:Hs;
    try (intros [= <- _] [|[|]]; discriminate).
  - cbn [view]. destruct (access_codes _ !! _) as [ac|]; [|intros [= <- <-]; done].
    destruct (is_used ac); [intros [= <- <-]; done|].
    cbn [run].
    repeat match goal with
    | |- context [pool_query ?st ?q ?x] =>
        destruct (pool_query st q x) as [[[]|] ?]; cbn [run]
    end; intros [= <- _] [|[|]]; discriminate.
  - cbn [view]. destruct (access_codes _ !! _) as [ac|]; [|intros [= <- <-]; done].
    destruct (is_used ac); [intros [= <- <-]; done|].
    cbn [run].
    repeat match goal with
    | |- context [pool_query ?st ?q ?x] =>
        destruct (pool_query st q x) as [[[]|] ?]; cbn [run]
    end; intros [= <- _] [|[|]]; discriminate.
Qed.

Lemma rejected_activate_writes_nothing_witness :
  (run (command_activate 42 "/activate NOPE" "2026-01-02") (calm 7)
     (quiescent one_code)).2 = quiescent one_code.
Proof.
  apply (rejected_activate_writes_nothing 42 "/activate NOPE" "2026-01-02" (calm 7)
           (quiescent one_code) CodeNotFound); [reflexivity|auto].
Defined.

(** ** The lesson handlers on any schedule *)

Lemma run_lesson_handler_committed id name d sched db h :
  h = bot_start id name d \/ h = hears_continue id d ->
  committed (run h sched db).2 = committed db \/
  exists now n, committed (run h sched db).2
                = apply_write now (UpdateLesson n d id) (committed db).
Proof.
  intros [->| ->].
  - unfold bot_start, await_try. cbn [run].
    pose proof (pool_query_select_committed (sched 0%nat) (SelectHasAccess id) db I) as Hs.
    destruct (pool_query (sched 0%nat) (SelectHasAccess id) db) as [[[[|]|]|] db1];
      cbn [snd] in Hs; cbn [run]; auto.
    pose proof (pool_query_execute_committed (sched 1%nat) (UpdateLesson 1 d id) db1) as He.
    destruct (pool_query (sched 1%nat) (Execute (UpdateLesson 1 d id)) db1) as [[[]|] db2];
      cbn [snd] in He; cbn [run]; rewrite Hs in He.
    + destruct (index lessons 0); cbn [run snd];
        (destruct He as [He|He]; [left|right; exists (now (sched 1%nat)), 1]; exact He).
    + cbn [snd]. destruct He as [He|He]; [left|right; exists (now (sched 1%nat)), 1]; exact He.
  - unfold hears_continue, await_try. cbn [run].
    pose proof (pool_query_select_committed (sched 0%nat) (SelectUser id) db I) as Hs.
    destruct (pool_query (sched 0%nat) (SelectUser id) db) as [[[u|]|] db1];
      cbn [snd] in Hs; cbn [run]; auto.
    destruct (negb (has_access u)); cbn [run]; auto.
    destruct (_ <? _); cbn [run]; auto.
    destruct (_ =? _); cbn [run].
    + match goal with |- context [pool_query ?st (Execute ?w) db1] =>
        pose proof (pool_query_execute_committed st w db1) as He;
        destruct (pool_query st (Execute w) db1) as [[[]|] db2]
      end; cbn [snd] in He; cbn [run snd]; rewrite Hs in He;
        (destruct He as [He|He]; [left|right; eexists _, _]; exact He).
    + match goal with |- context [pool_query ?st (Execute ?w) db1] =>
        pose proof (pool_query_execute_committed st w db1) as He;
        destruct (pool_query st (Execute w) db1) as [[[]|] db2]
      end; cbn [snd] in He; cbn [run snd]; rewrite Hs in He.
      * destruct (index lessons _); cbn [run snd];
          (destruct He as [He|He]; [left|right; eexists _, _]; exact He).
      * destruct He as [He|He]; [left|right; eexists _, _]; exact He.
Qed.

(** X8: [/start] and the button, on any schedule of connections and
    failures, never write [access_codes] and never change anybody's
    [has_access]. *)
Theorem lesson_handlers_keep_codes_and_access start id name d sched db id' :
  access_codes (committed (run (lesson_handler start id name d) sched db).2)
  = access_codes (committed db) /\
  has_access <$> users (committed (run (lesson_handler start id name d) sched db).2) !! id'
  = has_access <$> users (committed db) !! id'.
Proof.
  assert (Hh : lesson_handler start id name d = bot_start id name d \/
               lesson_handler start id name d = hears_continue id d)
    by (destruct start; auto).
  destruct (run_lesson_handler_committed id name d sched db _ Hh) as [->|(now & n & ->)];
    [done|].
  cbn. split; [done|].
  destruct (decide (id = id')) as [<-|Hne].
  - rewrite lookup_alter_eq. by destruct (users (committed db) !! id).
  - by rewrite lookup_alter_ne.
Qed.

(** X9: [/start] and the button, on any schedule of connections and
    failures, leave the rows of all other users as they are. *)
Theorem lesson_handlers_keep_other_rows start id name d sched db id' :
  id' <> id ->
  users (committed (run (lesson_handler start id name d) sched db).2) !! id'
  = users (committed db) !! id'.
Proof.
  intros Hne.
  assert (Hh : lesson_handler start id name d = bot_start id name d \/
               lesson_handler start id name d = hears_continue id d)
    by (destruct start; auto).
  destruct (run_lesson_handler_committed id name d sched db _ Hh) as [->|(now & n & ->)];
    [done|].
  cbn. by rewrite lookup_alter_ne.
Qed.

Lemma lesson_handlers_keep_other_rows_witness :
  users (committed (run (lesson_handler false 42 "anna" "2026-01-02")
                      (on_client 1 (fun _ => false) (fun _ => 8))
                      (quiescent class_store)).2) !! 42
  = Some (student true 5 (Some "2026-01-02")) /\
  users (committed (run (lesson_handler false 42 "anna" "2026-01-02")
                      (on_client 1 (fun _ => false) (fun _ => 8))
                      (quiescent class_store)).2) !! 7
  = users (committed (quiescent class_store)) !! 7.
Proof.
  split; [reflexivity|].
  apply (lesson_handlers_keep_other_rows false 42 "anna" "2026-01-02"
           (on_client 1 (fun _ => false) (fun _ => 8)) (quiescent class_store) 7).
  lia.
Defined.

(** ** Frames of an update *)

(** X6: an update changes no row of [users] but the sender's. *)
Theorem update_keeps_other_users up t id' :
  id' <> actor (operation up) ->
  users (perform up t).2 !! id' = users t !! id'.
Proof.
  intros Hne. destruct up as [now d [id text|id name|id|id]];
    unfold perform; cbn [received today operation handler actor] in *.
  - rewrite serve_activate.
    destruct (code_token text) as [[|a code]|]; try done.
    destruct (access_codes t !! _) as [ac|]; [|done].
    destruct (is_used ac); [done|].
    cbn [snd]. rewrite apply_redeem_writes. cbn. by rewrite lookup_insert_ne.
  - rewrite serve_start.
    destruct (users t !! id) as [u|]; [|done].
    destruct (has_access u); [|done].
    cbn. by rewrite lookup_alter_ne.
  - rewrite serve_continue.
    destruct (users t !! id) as [u|]; [|done].
    destruct (negb (has_access u)); [done|].
    destruct (10 <? current_lesson u); [done|].
    destruct (current_lesson u =? 10); cbn; by rewrite lookup_alter_ne.
  - by rewrite serve_status.
Qed.

Lemma update_keeps_other_users_witness :
  users (perform {| received := 8; today := "2026-01-02"; operation := Advance 42 |}
           class_store).2 !! 42
  = Some (student true 5 (Some "2026-01-02")) /\
  users (perform {| received := 8; today := "2026-01-02"; operation := Advance 42 |}
           class_store).2 !! 7
  = users class_store !! 7.
Proof.
  split; [reflexivity|].
  apply (update_keeps_other_users
           {| received := 8; today := "2026-01-02"; operation := Advance 42 |}).
  cbn. lia.
Defined.

Lemma perform_code_row up t code' :
  access_codes (perform up t).2 !! code' = access_codes t !! code' \/
  (redeems (operation up) = Some code' /\
   exists ac, access_codes t !! code' = Some ac /\ is_used ac = false /\
     access_codes (perform up t).2 !! code'
       = Some (used_by (actor (operation up)) (received up))).
Proof.
  destruct up as [now d [id text|id name|id|id]];
    unfold perform; cbn [received today operation handler actor redeems] in *.
  - rewrite serve_activate.
    destruct (code_token text) as [[|a code]|]; auto.
    destruct (access_codes t !! String a code) as [ac|] eqn:Hac; auto.
    destruct (is_used ac) eqn:Hu; auto.
    cbn [snd]. rewrite apply_redeem_writes. cbn.
    destruct (decide (String a code = code')) as [<-|Hne].
    + right. split; [done|]. exists ac. by rewrite lookup_alter_eq, Hac.
    + left. by rewrite lookup_alter_ne.
  - rewrite serve_start.
    destruct (users t !! id) as [u|]; auto.
    destruct (has_access u); auto.
  - rewrite serve_continue.
    destruct (users t !! id) as [u|]; auto.
    destruct (negb (has_access u)); auto.
    destruct (10 <? current_lesson u); auto.
    destruct (current_lesson u =? 10); auto.
  - rewrite serve_status. auto.
Qed.

(** X7: an update changes no row of [access_codes] but that of the code
    it asks to redeem. *)
Theorem update_keeps_other_codes up t code' :
  redeems (operation up) <> Some code' ->
  access_codes (perform up t).2 !! code' = access_codes t !! code'.
Proof.
  intros Hne. destruct (perform_code_row up t code') as [H|[H _]]; [exact H|done].
Qed.

Lemma update_keeps_other_codes_witness :
  access_codes (perform {| received := 8; today := "2026-01-02";
                           operation := Redeem 42 "/activate pon-abcd1234" |}
                  class_store).2 !! "PON-ABCD1234"
  = Some (used_by 42 8) /\
  access_codes (perform {| received := 8; today := "2026-01-02";
                           operation := Redeem 42 "/activate pon-abcd1234" |}
                  class_store).2 !! "PON-AAAAAAAA"
  = access_codes class_store !! "PON-AAAAAAAA".
Proof.
  split; [vm_compute; reflexivity|].
  apply (update_keeps_other_codes
           {| received := 8; today := "2026-01-02";
              operation := Redeem 42 "/activate pon-abcd1234" |}).
  vm_compute. discriminate.
Defined.

Lemma perform_all_used_code ups t code ac :
  access_codes t !! code = Some ac ->
  is_used ac = true ->
  access_codes (perform_all ups t) !! code = Some ac.
Proof.
  revert t. induction ups as [|up ups IH]; intros t Hac Hu; [exact Hac|].
  cbn [perform_all foldl]. apply IH; [|exact Hu].
  destruct (perform_code_row up t code) as [->|(_ & ac' & Hac' & Hu' & _)];
    [exact Hac|congruence].
Qed.

Lemma perform_codes_dom up t :
  dom (access_codes (perform up t).2) = dom (access_codes t).
Proof.
  apply set_eq. intros code. rewrite !elem_of_dom.
  destruct (perform_code_row up t code) as [->|(_ & ac' & Hac' & _ & ->)]; [done|].
  rewrite Hac'. split; eauto.
Qed.

Lemma perform_all_codes_dom ups t :
  dom (access_codes (perform_all ups t)) = dom (access_codes t).
Proof.
  revert t. induction ups as [|up ups IH]; intros t; [done|].
  change (perform_all (up :: ups) t) with (perform_all ups (perform up t).2).
  rewrite IH. apply perform_codes_dom.
Qed.

(** X4: a code that is used stays used, and no code is ever added to the
    table or removed from it, whatever handlers overlap in whatever
    interleaving; when the updates are handled one at a time, the row of a
    used code is not changed at all. *)
Theorem used_code_is_permanent ups t code ac :
  access_codes t !! code = Some ac ->
  is_used ac = true ->
  (access_codes (perform_all ups t) !! code = Some ac /\
   dom (access_codes (perform_all ups t)) = dom (access_codes t)) /\
  (forall (hs : list (Handler Reply)) (ts : list Turn) (db : DB),
     committed db = t ->
     (exists ac', access_codes (committed (interleave ts hs db).2) !! code = Some ac' /\
                  is_used ac' = true) /\
     dom (access_codes (committed (interleave ts hs db).2)) = dom (access_codes t)).
Proof.
  intros Hac Hu. split.
  - split; [by apply perform_all_used_code|apply perform_all_codes_dom].
  - intros hs ts db <-.
    apply (interleave_invariant
             (fun t' => (exists ac', access_codes t' !! code = Some ac' /\
                                     is_used ac' = true) /\
                        dom (access_codes t') = dom (access_codes (committed db)))).
    + intros now w t'. apply apply_write_keeps_codes.
    + split; [by exists ac|done].
Qed.

Lemma used_code_is_permanent_witness :
  (access_codes (perform_all sample_updates spent_code) !! "PON-ABCD1234"
     = Some (used_by 1 5) /\
   dom (access_codes (perform_all sample_updates spent_code))
     = dom (access_codes spent_code)) /\
  (forall (hs : list (Handler Reply)) (ts : list Turn) (db : DB),
     committed db = spent_code ->
     (exists ac', access_codes (committed (interleave ts hs db).2) !! "PON-ABCD1234"
                  = Some ac' /\ is_used ac' = true) /\
     dom (access_codes (committed (interleave ts hs db).2))
     = dom (access_codes spent_code)).
Proof.
  apply (used_code_is_permanent sample_updates spent_code "PON-ABCD1234" (used_by 1 5));
    reflexivity.
Defined.

(** X3: once [/activate] has granted a code, every later [/activate] that
    names the same code, by whichever user and after whatever updates,
    answers that the code is already used and leaves the store as it is. *)
Theorem granted_code_stays_spent now now' id id' text text' d d' ups t t1 :
  serve now (command_activate id text d) t = (Granted, t1) ->
  code_token text' = code_token text ->
  serve now' (command_activate id' text' d') (perform_all ups t1)
  = (CodeAlreadyUsed, perform_all ups t1).
Proof.
  rewrite !serve_activate. intros Hg ->.
  destruct (code_token text) as [[|a code]|]; try discriminate.
  destruct (access_codes t !! _) as [ac|] eqn:Hac; [|discriminate].
  destruct (is_used ac); [discriminate|].
  rewrite apply_redeem_writes in Hg.
  assert (t1 = redeemed id (String a code) now d t) as -> by congruence.
  rewrite (perform_all_used_code ups _ (String a code) (used_by id now));
    [reflexivity|by eapply redeemed_code|reflexivity].
Qed.

Lemma granted_code_stays_spent_witness :
  serve 20 (command_activate 7 "/activate PON-ABCD1234" "2026-01-04")
    (perform_all (drop 1 sample_updates)
       (redeemed 42 "PON-ABCD1234" 8 "2026-01-02" one_code))
  = (CodeAlreadyUsed,
     perform_all (drop 1 sample_updates)
       (redeemed 42 "PON-ABCD1234" 8 "2026-01-02" one_code)).
Proof.
  apply (granted_code_stays_spent 8 20 42 7 "/activate pon-abcd1234"
           "/activate PON-ABCD1234" "2026-01-02" "2026-01-04"
           (drop 1 sample_updates) one_code).
  - vm_compute. reflexivity.
  - reflexivity.
Defined.



(** X10: a user without a row is denied by [/start], and is told by the
    button and by [/status] to send [/start] first; none of the three
    writes anything. *)
Theorem unknown_user_gets_nothing now d name t id :
  users t !! id = None ->
  serve now (bot_start id name d) t = (AccessDeniedBot, t) /\
  serve now (hears_continue id d) t = (NoSuchUser, t) /\
  serve now (command_status id) t = (NoSuchUser, t).
Proof.
  intros Hn. by rewrite serve_start, serve_continue, serve_status, Hn.
Qed.

Lemma unknown_user_gets_nothing_witness :
  serve 7 (bot_start 42 "anna" "2026-01-02") one_code = (AccessDeniedBot, one_code) /\
  serve 7 (hears_continue 42 "2026-01-02") one_code = (NoSuchUser, one_code) /\
  serve 7 (command_status 42) one_code = (NoSuchUser, one_code).
Proof.
  apply (unknown_user_gets_nothing 7 "2026-01-02" "anna" one_code 42). reflexivity.
Defined.

(** X11: after [/start] by a user with access, the button pressed again
    and again (every press on a working store) serves lessons 2, 3, ..., 10
    in order with its first nine presses and the completion message with
    every press after them. *)
Theorem course_walk now now' d d' name t id u (k : nat) :
  users t !! id = Some u ->
  has_access u = true ->
  let started := (serve now (bot_start id name d) t).2 in
  (serve now' (hears_continue id d') (presses k now' id d' started)).1 =
    if (k <? 9)%nat
    then match index lessons (Z.of_nat k + 1) with
         | Some lesson => LessonReply lesson
         | None => ErrorReply
         end
    else CourseComplete.
Proof.
  intros Hu Ha started.
  assert (Hs : users started !! id = Some (at_lesson 1 d u)).
  { subst started. rewrite serve_start, Hu, Ha. cbn. by rewrite lookup_alter_eq, Hu. }
  destruct (presses_row k now' d' started id _ Hs Ha) as (uk & Huk & Hak & Hck).
  cbn [at_lesson current_lesson] in Hck.
  rewrite serve_continue, Huk, Hak. cbn [negb].
  destruct (Nat.ltb_spec k 9) as [Hk|Hk].
  - destruct (Z.ltb_spec 10 (current_lesson uk)); [lia|].
    destruct (Z.eqb_spec (current_lesson uk) 10); [lia|].
    rewrite nextLessonNumber_rule by (rewrite lessons_length; lia).
    cbn [fst]. replace (_ - 1) with (Z.of_nat k + 1); [reflexivity|].
    destruct (Z.eqb_spec (current_lesson uk) 1); lia.
  - destruct (Z.ltb_spec 10 (current_lesson uk)); [reflexivity|].
    destruct (Z.eqb_spec (current_lesson uk) 10); [reflexivity|lia].
Qed.

Lemma course_walk_witness :
  (serve 9 (hears_continue 42 "2026-01-03")
     (presses 3 9 42 "2026-01-03"
        (serve 8 (bot_start 42 "anna" "2026-01-02") code_and_student).2)).1 =
    match index lessons 4 with
    | Some lesson => LessonReply lesson
    | None => ErrorReply
    end.
Proof.
  apply (course_walk 8 9 "2026-01-02" "2026-01-03" "anna" code_and_student 42
           (student true 4 (Some "2026-01-01")) 3);
    reflexivity.
Defined.

(** ** Rows of the bot's own making *)

Lemma perform_bot_rows up t :
  map_Forall (fun _ u => bot_row u) (users t) ->
  map_Forall (fun _ u => bot_row u) (users (perform up t).2).
Proof.
  unfold bot_row. rewrite lessons_length. change (Z.of_nat 10 + 1) with 11.
  intros Ht. destruct up as [now d [id' text|id' name|id'|id']];
    unfold perform; cbn [received today operation handler].
  - rewrite serve_activate.
    destruct (code_token text) as [[|a code]|]; try exact Ht.
    destruct (access_codes t !! _) as [ac|]; [|exact Ht].
    destruct (is_used ac); [exact Ht|].
    cbn [snd]. rewrite apply_redeem_writes. cbn.
    apply map_Forall_insert_2; [|exact Ht].
    destruct (users t !! id') as [u0|] eqn:E; cbn.
    + destruct (Ht _ _ E) as (_ & ? & ?). done.
    + split; [done|]. split; [lia|by eexists].
  - rewrite serve_start.
    destruct (users t !! id') as [u0|] eqn:E; [|exact Ht].
    destruct (has_access u0) eqn:Ha; [|exact Ht].
    cbn [snd]. rewrite (apply_UpdateLesson _ _ _ _ _ _ E). cbn.
    apply map_Forall_insert_2; [|exact Ht]. cbn.
    split; [done|]. split; [lia|by eexists].
  - rewrite serve_continue.
    destruct (users t !! id') as [u0|] eqn:E; [|exact Ht].
    destruct (has_access u0) eqn:Ha; [|exact Ht]. cbn [negb].
    destruct (Z.ltb_spec 10 (current_lesson u0)); [exact Ht|].
    destruct (Ht _ _ E) as (_ & H0 & _).
    destruct (Z.eqb_spec (current_lesson u0) 10); cbn [snd];
      rewrite (apply_UpdateLesson _ _ _ _ _ _ E); cbn;
      (apply map_Forall_insert_2; [|exact Ht]); cbn;
      (split; [done|]); (split; [|by eexists]).
    + lia.
    + rewrite nextLessonNumber_rule by (rewrite lessons_length; lia).
      destruct (_ =? _); lia.
  - rewrite serve_status. exact Ht.
Qed.

(** X12: starting from an empty table [users], every row that exists
    after any sequence of updates has access, a lesson number between 1 and
    one past the last lesson, and a date. *)
Theorem rows_from_scratch ups codes id u :
  users (perform_all ups {| users := ∅; access_codes := codes |}) !! id = Some u ->
  bot_row u.
Proof.
  assert (H : forall t, map_Forall (fun _ u => bot_row u) (users t) ->
                        map_Forall (fun _ u => bot_row u) (users (perform_all ups t))).
  { induction ups as [|up ups IH]; intros t Ht; [exact Ht|].
    apply IH. by apply perform_bot_rows. }
  apply (H {| users := ∅; access_codes := codes |}). apply map_Forall_empty.
Qed.

Lemma rows_from_scratch_witness :
  bot_row {| has_access := true; current_lesson := 2;
             last_lesson_date := Some "2026-01-03" |}.
Proof.
  apply (rows_from_scratch sample_updates (access_codes one_code) 42).
  reflexivity.
Defined.

(** ** [/status] and [/activate] on one connection *)

(** X13: [/status] reports the lesson number, the ten lessons of the
    course and as percentage ten times the lesson number (110 once the
    course is complete). *)
Theorem status_percent_is_ten_times_lesson now t id u :
  users t !! id = Some u ->
  (serve now (command_status id) t).1 =
    StatusReport (current_lesson u) 10 (10 * current_lesson u) (last_lesson_date u).
Proof.
  intros Hu. by rewrite serve_status, Hu, progress_ten.
Qed.

Lemma status_percent_is_ten_times_lesson_witness :
  (serve 7 (command_status 42) (one_user 42 (student true 11 (Some "2026-01-10")))).1 =
    StatusReport 11 10 110 (Some "2026-01-10").
Proof.
  apply (status_percent_is_ten_times_lesson 7
           (one_user 42 (student true 11 (Some "2026-01-10"))) 42
           (student true 11 (Some "2026-01-10"))).
  reflexivity.
Defined.



(** ** The percentage in IEEE arithmetic *)

(** X14: for the lesson numbers 0 to 11, [Math.round] of
    the double that [(current_lesson / lessons.length) * 100] computes in
    IEEE arithmetic is the percentage of the model on exact quotients. *)
Theorem progress_of_doubles c :
  0 <= c <= 11 ->
  Math_round <$> double_value (progress_double c) = Some (progress c).
Proof.
  intros Hc.
  assert (H : c = 0 \/ c = 1 \/ c = 2 \/ c = 3 \/ c = 4 \/ c = 5 \/ c = 6 \/
              c = 7 \/ c = 8 \/ c = 9 \/ c = 10 \/ c = 11) by lia.
  repeat (destruct H as [->|H]; [vm_compute; reflexivity|]).
  subst c. vm_compute. reflexivity.
Qed.

Lemma progress_of_doubles_witness :
  Math_round <$> double_value (progress_double 3) = Some 30.
Proof. apply (progress_of_doubles 3). lia. Defined.

(** ** Code generation ([create-codes.js], [create_access_codes.sql]) *)

(** *** Strings *)

Lemma rising_draws_in_range i :
  (0 <= rising_draws i)%Q /\ (rising_draws i < 1)%Q.
Proof.
  unfold rising_draws, Qle, Qlt. cbn [Qnum Qden].
  pose proof (Nat.mod_upper_bound (i / 8) 32). lia.
Qed.

Lemma length_app_string s1 s2 :
  String.length (s1 +:+ s2) = (String.length s1 + String.length s2)%nat.
Proof.
  induction s1 as [|c s1 IH]; [reflexivity|].
  rewrite append_cons. cbn [String.length]. by rewrite IH.
Qed.

Lemma upper_ascii_fixed s :
  every_char (fun c => bool_decide (upper_ascii c = c)) s = true ->
  upper_ascii_string s = s.
Proof.
  induction s as [|c s IH]; [reflexivity|].
  cbn [every_char upper_ascii_string]. intros [Hc Hs]%andb_true_iff.
  apply bool_decide_eq_true in Hc. by rewrite Hc, IH.
Qed.

(** A character of the alphabet is an upper-case letter or a digit: it is
    its own upper case, it is printable, and it is neither a blank nor a
    line feed. *)
Lemma alphabet_plain c :
  in_alphabet c = true ->
  bool_decide (upper_ascii c = c) = true /\
  printable c = true /\
  negb (Ascii.eqb c " ") = true /\
  negb (Ascii.eqb c (ascii_of_nat 10)) = true.
Proof.
  unfold in_alphabet. intros H. apply existsb_exists in H as (x & Hx & Hc).
  apply Ascii.eqb_eq in Hc as ->.
  cbn in Hx.
  repeat (destruct Hx as [<-|Hx]; [repeat split; reflexivity|]).
  destruct Hx.
Qed.

Lemma get_in_range (n : nat) (s : string) :
  (n < String.length s)%nat ->
  exists c, String.get n s = Some c /\ In c (String.list_ascii_of_string s).
Proof.
  revert n. induction s as [|a s IH]; intros n Hn; simpl in *; [lia|].
  destruct n as [|n].
  - exists a. auto.
  - destruct (IH n) as (c & Hc & Hin); [lia|]. exists c. auto.
Qed.

Lemma draw_in_range (r : Q) :
  (0 <= r)%Q -> (r < 1)%Q ->
  0 <= Qfloor (r * inject_Z (Z.of_nat (String.length chars))) < 32.
Proof.
  change (Z.of_nat (String.length chars)) with 32.
  destruct r as [n d]. unfold Qle, Qlt, Qfloor, Qmult, inject_Z. simpl.
  rewrite !Z.mul_1_r, Pos.mul_1_r. intros H0 H1. split.
  - apply Z.div_pos; lia.
  - apply Z.div_lt_upper_bound; lia.
Qed.

Lemma charAt_draw (r : Q) :
  (0 <= r)%Q -> (r < 1)%Q ->
  exists c,
    charAt chars (Qfloor (r * inject_Z (Z.of_nat (String.length chars))))
    = String c EmptyString /\ in_alphabet c = true.
Proof.
  intros H0 H1. destruct (draw_in_range r H0 H1) as [Hk0 Hk1].
  unfold charAt. destruct (Z.ltb_spec (Qfloor (r * inject_Z (Z.of_nat (String.length chars)))) 0);
    [lia|].
  destruct (get_in_range (Z.to_nat (Qfloor (r * inject_Z (Z.of_nat (String.length chars))))) chars)
    as (c & -> & Hin).
  { change (String.length chars) with 32%nat in *. lia. }
  exists c. split; [reflexivity|].
  unfold in_alphabet. apply existsb_exists. exists c. split; [exact Hin|].
  by apply Ascii.eqb_eq.
Qed.

Lemma random_chars_shape n random :
  (forall i, (i < n)%nat -> (0 <= random i)%Q /\ (random i < 1)%Q) ->
  String.length (random_chars n random) = n /\
  every_char in_alphabet (random_chars n random) = true.
Proof.
  revert random. induction n as [|n IH]; intros random Hr; [done|].
  cbn [random_chars].
  destruct (Hr 0%nat) as [H0 H1]; [lia|].
  destruct (charAt_draw _ H0 H1) as (c & -> & Hc).
  destruct (IH (fun i => random (S i))) as [Hl He].
  { intros i Hi. apply Hr. lia. }
  change (String c EmptyString +:+ ?x) with (String c x).
  cbn [String.length every_char]. by rewrite Hl, Hc, He.
Qed.

Lemma generateRandomCode_pon random :
  (forall i, (i < 8)%nat -> (0 <= random i)%Q /\ (random i < 1)%Q) ->
  is_pon_code (generateRandomCode random).
Proof.
  intros Hr. exists (random_chars 8 random).
  destruct (random_chars_shape 8 random Hr). done.
Qed.

Lemma pon_code_plain code :
  is_pon_code code ->
  String.length code = 12%nat /\
  upper_ascii_string code = code /\
  every_char printable code = true /\
  split " " code = [code] /\
  split (ascii_of_nat 10) code = [code] /\
  code <> EmptyString.
Proof.
  intros (suffix & -> & Hl & He).
  assert (Hup : every_char (fun c => bool_decide (upper_ascii c = c)) suffix = true)
    by (eapply every_char_impl; [|exact He]; intros c Hc; apply (alphabet_plain c Hc)).
  assert (Hw : every_char printable suffix = true)
    by (eapply every_char_impl; [|exact He]; intros c Hc; apply (alphabet_plain c Hc)).
  assert (Hs : every_char (fun c => negb (Ascii.eqb c " ")) suffix = true)
    by (eapply every_char_impl; [|exact He]; intros c Hc; apply (alphabet_plain c Hc)).
  assert (Hn : every_char (fun c => negb (Ascii.eqb c (ascii_of_nat 10))) suffix = true)
    by (eapply every_char_impl; [|exact He]; intros c Hc; apply (alphabet_plain c Hc)).
  repeat split.
  - rewrite length_app_string, Hl. reflexivity.
  - apply upper_ascii_fixed. rewrite every_char_app, Hup. reflexivity.
  - rewrite every_char_app, Hw. reflexivity.
  - apply split_without_sep. rewrite every_char_app, Hs. reflexivity.
  - apply split_without_sep. rewrite every_char_app, Hn. reflexivity.
  - discriminate.
Qed.

Lemma pon_code_token code :
  is_pon_code code -> code_token ("/activate " +:+ code) = Some code.
Proof.
  intros Hp. destruct (pon_code_plain code Hp) as (_ & Hup & Hpr & _).
  pose proof (code_token_padded [] code [] (List.Forall_nil _) Hpr (List.Forall_nil _)) as H.
  change (text_of []) with EmptyString in H.
  rewrite append_nil, append_nil_r, Hup in H. exact H.
Qed.

(** X15: with draws in [0, 1), [generateRandomCode] returns [PON-]
    followed by eight characters of the alphabet, twelve characters in all,
    and [/activate] followed by a blank and the code is read back by the
    handler as exactly that code. *)
Theorem generated_code_shape random :
  (forall i, (i < 8)%nat -> (0 <= random i)%Q /\ (random i < 1)%Q) ->
  is_pon_code (generateRandomCode random) /\
  String.length (generateRandomCode random) = 12%nat /\
  code_token ("/activate " +:+ generateRandomCode random)
  = Some (generateRandomCode random).
Proof.
  intros Hr. pose proof (generateRandomCode_pon random Hr) as Hp.
  destruct (pon_code_plain _ Hp) as (Hl & _).
  split; [exact Hp|]. split; [exact Hl|].
  by apply pon_code_token.
Qed.

Lemma generated_code_shape_witness :
  code_token ("/activate " +:+ generateRandomCode (fun i => Qmake (Z.of_nat i) 8))
  = Some "PON-AEJNSW26".
Proof.
  refine (proj2 (proj2 (generated_code_shape (fun i => Qmake (Z.of_nat i) 8) _))).
  intros i Hi. unfold Qle, Qlt. simpl. lia.
Defined.

(** *** The collecting loop *)

Lemma random_chars_ext n f g :
  (forall i, f i = g i) -> random_chars n f = random_chars n g.
Proof.
  revert f g. induction n as [|n IH]; intros f g Hfg; [reflexivity|].
  cbn [random_chars]. rewrite (Hfg 0%nat). f_equal. apply IH.
  intros i. apply Hfg.
Qed.

Lemma candidate_next random k :
  candidate (fun i => random (8 + i)%nat) k = candidate random (S k).
Proof.
  unfold candidate, generateRandomCode. f_equal. apply random_chars_ext.
  intros i. f_equal. lia.
Qed.

Lemma candidate_first random : generateRandomCode random = candidate random 0.
Proof. reflexivity. Qed.

Lemma collect_codes_spec wanted fuel : forall random E C R,
  collect_codes wanted fuel random E C = Some R ->
  (length C <= wanted)%nat ->
  exists new,
    R = C ++ new /\ length R = wanted /\ NoDup new /\
    forall c, c ∈ new ->
      (c ∉ E) /\ (c ∉ C) /\ exists k, (k < fuel)%nat /\ c = candidate random k.
Proof.
  induction fuel as [|fuel IH]; intros random E C R.
  - cbn [collect_codes]. destruct (Nat.ltb_spec (length C) wanted); [done|].
    intros [= <-] Hle. exists []. rewrite app_nil_r.
    repeat split; [lia|constructor|set_solver..].
  - cbn [collect_codes]. destruct (Nat.ltb_spec (length C) wanted) as [Hlt|Hge].
    + rewrite (candidate_first random).
      destruct (decide (candidate random 0 ∈ E)) as [HE|HE].
      * rewrite (bool_decide_eq_true_2 _ HE). cbn [negb andb].
        intros HR Hle. destruct (IH _ _ _ _ HR Hle) as (new & -> & Hlen & Hnd & Hnew).
        exists new. repeat split; try done; try (by apply Hnew).
        destruct (Hnew c H) as (_ & _ & k & Hk & ->).
        exists (S k). split; [lia|apply candidate_next].
      * rewrite (bool_decide_eq_false_2 _ HE). cbn [negb andb].
        destruct (decide (candidate random 0 ∈ C)) as [HC|HC].
        -- rewrite (bool_decide_eq_true_2 _ HC). cbn [negb].
           intros HR Hle.
           destruct (IH _ _ _ _ HR Hle) as (new & -> & Hlen & Hnd & Hnew).
           exists new. repeat split; try done; try (by apply Hnew).
           destruct (Hnew c H) as (_ & _ & k & Hk & ->).
           exists (S k). split; [lia|apply candidate_next].
        -- rewrite (bool_decide_eq_false_2 _ HC). cbn [negb].
           intros HR Hle.
           destruct (IH _ _ _ _ HR) as (new & -> & Hlen & Hnd & Hnew).
           { rewrite length_app. simpl. lia. }
           exists (candidate random 0 :: new). rewrite <- app_assoc in Hlen |- *.
           split; [done|]. split; [done|]. split.
           { constructor; [|done]. intros Hin.
             destruct (Hnew _ Hin) as (_ & Hn & _).
             apply Hn, elem_of_app. right. by apply list_elem_of_singleton. }
           intros c [->|Hin]%elem_of_cons.
           { split; [done|]. split; [done|]. exists 0%nat. split; [lia|done]. }
           destruct (Hnew c Hin) as (HnE & HnC & k & Hk & ->).
           split; [intros ?; by apply HnE, elem_of_union_r|].
           split; [intros ?; apply HnC, elem_of_app; by left|].
           exists (S k). split; [lia|apply candidate_next].
    + intros [= <-] Hle. exists []. rewrite app_nil_r.
      repeat split; [lia|constructor|set_solver..].
Qed.

(** X16: when the collecting loop ends, it holds exactly the wanted number
    of codes, without repetition, none of them in the table before, each of
    them one of the codes drawn. *)
Theorem collected_codes_fresh_and_distinct wanted fuel random existingCodes codes :
  collect_codes wanted fuel random existingCodes [] = Some codes ->
  length codes = wanted /\ NoDup codes /\
  forall code, code ∈ codes ->
    (code ∉ existingCodes) /\
    exists k, (k < fuel)%nat /\ code = candidate random k.
Proof.
  intros HR.
  destruct (collect_codes_spec _ _ _ _ _ _ HR) as (new & -> & Hlen & Hnd & Hnew).
  { simpl. lia. }
  simpl in *. split; [done|]. split; [done|].
  intros code Hin. destruct (Hnew code Hin) as (HE & _ & Hk). done.
Qed.

Lemma collected_codes_fresh_and_distinct_witness :
  length ["PON-EEEEEEEE"; "PON-JJJJJJJJ"] = 2%nat /\
  NoDup ["PON-EEEEEEEE"; "PON-JJJJJJJJ"] /\
  forall code, code ∈ ["PON-EEEEEEEE"; "PON-JJJJJJJJ"] ->
    (code ∉ ({[ "PON-AAAAAAAA" ]} : gset string)) /\
    exists k, (k < 6)%nat /\ code = candidate repeating_draws k.
Proof.
  apply (collected_codes_fresh_and_distinct 2 6 repeating_draws
           {[ "PON-AAAAAAAA" ]} ["PON-EEEEEEEE"; "PON-JJJJJJJJ"]).
  vm_compute. reflexivity.
Defined.

Lemma collect_codes_enough wanted : forall n fuel random E C,
  (length C + n = wanted)%nat -> (n <= fuel)%nat ->
  NoDup (candidate random <$> seq 0 n) ->
  (forall k, (k < n)%nat -> (candidate random k ∉ E) /\ (candidate random k ∉ C)) ->
  collect_codes wanted fuel random E C = Some (C ++ (candidate random <$> seq 0 n)).
Proof.
  induction n as [|n IH]; intros fuel random E C Hlen Hfuel Hnd Hfresh.
  - assert (Hge : (length C <? wanted)%nat = false) by (apply Nat.ltb_ge; lia).
    simpl. rewrite app_nil_r. destruct fuel; simpl; by rewrite Hge.
  - destruct fuel as [|fuel]; [lia|].
    assert (Hlt : (length C <? wanted)%nat = true) by (apply Nat.ltb_lt; lia).
    cbn [collect_codes]. rewrite Hlt, (candidate_first random).
    destruct (Hfresh 0%nat) as [HE HC]; [lia|].
    rewrite (bool_decide_eq_false_2 _ HE), (bool_decide_eq_false_2 _ HC).
    cbn [negb andb].
    assert (Hshift : candidate (fun i => random (8 + i)%nat) <$> seq 0 n
                     = candidate random <$> seq 1 n).
    { rewrite <- (fmap_S_seq 0 n), <- list_fmap_compose. apply list_fmap_ext.
      intros i k _. apply candidate_next. }
    cbn [seq fmap list_fmap] in Hnd. apply NoDup_cons in Hnd as [Hhead Hnd].
    rewrite IH.
    + rewrite Hshift, <- app_assoc. reflexivity.
    + rewrite length_app. simpl. lia.
    + lia.
    + by rewrite Hshift.
    + intros k Hk. rewrite candidate_next.
      destruct (Hfresh (S k)) as [HE' HC']; [lia|].
      assert (Hne : candidate random (S k) <> candidate random 0).
      { intros Heq. apply Hhead. rewrite <- Heq.
        apply list_elem_of_fmap. exists (S k). split; [done|].
        apply elem_of_seq. lia. }
      split.
      * intros [Hin%elem_of_singleton|Hin]%elem_of_union; done.
      * intros [Hin|Hin%list_elem_of_singleton]%elem_of_app; done.
Qed.

Lemma candidates_next random n :
  candidate (fun i => random (8 + i)%nat) <$> seq 0 n = candidate random <$> seq 1 n.
Proof.
  rewrite <- (fmap_S_seq 0 n), <- list_fmap_compose. apply list_fmap_ext.
  intros i k _. apply candidate_next.
Qed.

(** The loop ends within [fuel] rounds when these rounds draw enough codes
    that are not in the table. *)
Lemma collect_codes_ends wanted fuel : forall random (E : gset string) C,
  (forall c, c ∈ C -> c ∈ E) ->
  (wanted <= length C + size (fresh_draws fuel random E))%nat ->
  is_Some (collect_codes wanted fuel random E C).
Proof.
  unfold fresh_draws.
  induction fuel as [|fuel IH]; intros random E C HC Hsize.
  - cbn [collect_codes]. destruct (Nat.ltb_spec (length C) wanted) as [Hlt|]; [|done].
    cbn [seq fmap list_fmap list_to_set] in Hsize.
    replace (∅ ∖ E) with (∅ : gset string) in Hsize.
    + rewrite size_empty in Hsize. lia.
    + apply set_eq. intros c. rewrite elem_of_difference, elem_of_empty. tauto.
  - cbn [collect_codes]. destruct (Nat.ltb_spec (length C) wanted) as [Hlt|]; [|done].
    rewrite (candidate_first random).
    cbn [seq fmap list_fmap list_to_set] in Hsize. rewrite <- candidates_next in Hsize.
    set (S' := list_to_set (candidate (fun i => random (8 + i)%nat) <$> seq 0 fuel)
               : gset string) in *.
    destruct (decide (candidate random 0 ∈ E)) as [HE|HE].
    + rewrite (bool_decide_eq_true_2 _ HE). cbn [negb andb].
      apply IH; [done|].
      replace (S' ∖ E) with (({[candidate random 0]} ∪ S') ∖ E); [done|].
      apply set_eq. intros c. rewrite !elem_of_difference, elem_of_union, elem_of_singleton.
      split; [intros [[->|Hc] Hn]; done|intros [Hc Hn]; auto].
    + rewrite (bool_decide_eq_false_2 _ HE).
      assert (HnC : candidate random 0 ∉ C) by (intros Hin; by apply HE, HC).
      rewrite (bool_decide_eq_false_2 _ HnC). cbn [negb andb].
      apply IH.
      * intros c [Hc|Hc%list_elem_of_singleton]%elem_of_app.
        -- apply elem_of_union_r. by apply HC.
        -- apply elem_of_union_l. by apply elem_of_singleton.
      * rewrite length_app. cbn [length].
        assert (Hle : (size (({[candidate random 0]} ∪ S') ∖ E)
                       <= 1 + size (S' ∖ ({[candidate random 0]} ∪ E)))%nat).
        { rewrite <- (size_singleton (candidate random 0) (C := gset string)).
          rewrite <- size_union.
          - apply subseteq_size. intros c.
            rewrite !elem_of_difference, !elem_of_union, elem_of_difference,
              !elem_of_singleton, elem_of_union, elem_of_singleton.
            destruct (decide (c = candidate random 0)); tauto.
          - intros c Hc%elem_of_singleton. rewrite elem_of_difference, elem_of_union.
            intros [_ Hn]. apply Hn. left. by apply elem_of_singleton. }
        subst S'. cbn [length] in *. lia.
Qed.

(** [createAccessCodes] ends with its codes and the table after its
    inserts when the rounds looked at draw 30 codes that are not in the
    table. *)
Lemma createAccessCodes_ends fuel random failed t :
  (numberOfCodes <= size (fresh_draws fuel random (dom (access_codes t))))%nat ->
  exists codes,
    createAccessCodes fuel random failed t
    = Some (codes, insert_codes failed codes t).
Proof.
  intros Hsize. unfold createAccessCodes.
  destruct (collect_codes_ends numberOfCodes fuel random (dom (access_codes t)) [])
    as [codes ->]; [by intros c Hc%elem_of_nil|done|].
  by exists codes.
Qed.

(** X17: when the first codes drawn are distinct and not in the table, the
    loop ends after as many rounds as codes are wanted and returns these
    codes in the order drawn. *)
Theorem collect_codes_finishes wanted fuel random existingCodes :
  (wanted <= fuel)%nat ->
  NoDup (candidate random <$> seq 0 wanted) ->
  (forall k, (k < wanted)%nat -> candidate random k ∉ existingCodes) ->
  collect_codes wanted fuel random existingCodes []
  = Some (candidate random <$> seq 0 wanted).
Proof.
  intros Hfuel Hnd Hfresh.
  apply (collect_codes_enough wanted wanted fuel random existingCodes []);
    [done..|].
  intros k Hk. split; [by apply Hfresh|]. apply not_elem_of_nil.
Qed.

Lemma collect_codes_finishes_witness :
  collect_codes 3 5 rising_draws ∅ []
  = Some ["PON-AAAAAAAA"; "PON-BBBBBBBB"; "PON-CCCCCCCC"].
Proof.
  apply (collect_codes_finishes 3 5 rising_draws ∅).
  - lia.
  - apply (bool_decide_unpack _). vm_compute. reflexivity.
  - intros k _. apply not_elem_of_empty.
Defined.

(** *** Inserting the codes *)

Lemma varchar_short n s : (String.length s <= n)%nat -> varchar n s = Some s.
Proof.
  intros Hl. unfold varchar. pose proof (decode_length s).
  by rewrite (proj2 (Nat.leb_le _ _)) by lia.
Qed.

Lemma insert_code_users code t : users (insert_code code t) = users t.
Proof.
  unfold insert_code. destruct (varchar 50 code) as [stored|]; [|done].
  by destruct (access_codes t !! stored).
Qed.

Lemma insert_code_keeps code t c ac :
  access_codes t !! c = Some ac ->
  access_codes (insert_code code t) !! c = Some ac.
Proof.
  intros Hc. unfold insert_code. destruct (varchar 50 code) as [stored|]; [|done].
  destruct (access_codes t !! stored) eqn:Hcode; [done|].
  cbn. rewrite lookup_insert_ne; [done|]. intros ->. congruence.
Qed.

Lemma insert_code_new code t c ac :
  access_codes t !! c = None ->
  access_codes (insert_code code t) !! c = Some ac ->
  varchar 50 code = Some c /\ ac = unused_code.
Proof.
  unfold insert_code. destruct (varchar 50 code) as [stored|]; [|congruence].
  destruct (access_codes t !! stored) eqn:Hcode; [congruence|].
  cbn. intros Hc. destruct (decide (stored = c)) as [->|Hne].
  - rewrite lookup_insert_eq. intros [= <-]. done.
  - rewrite lookup_insert_ne; [congruence|done].
Qed.

Lemma insert_code_present code t stored :
  varchar 50 code = Some stored ->
  is_Some (access_codes (insert_code code t) !! stored).
Proof.
  intros Hv. unfold insert_code. rewrite Hv.
  destruct (access_codes t !! stored) eqn:Hcode; [by rewrite Hcode|].
  cbn. rewrite lookup_insert_eq. done.
Qed.

Lemma insert_codes_users failed codes t :
  users (insert_codes failed codes t) = users t.
Proof.
  revert failed t. induction codes as [|code codes IH]; intros failed t; [done|].
  cbn [insert_codes]. rewrite IH. destruct (failed 0%nat); [done|].
  apply insert_code_users.
Qed.

Lemma insert_codes_keeps failed codes t c ac :
  access_codes t !! c = Some ac ->
  access_codes (insert_codes failed codes t) !! c = Some ac.
Proof.
  revert failed t. induction codes as [|code codes IH]; intros failed t Hc; [done|].
  cbn [insert_codes]. apply IH. destruct (failed 0%nat); [done|].
  by apply insert_code_keeps.
Qed.

Lemma insert_codes_new failed codes t c ac :
  access_codes t !! c = None ->
  access_codes (insert_codes failed codes t) !! c = Some ac ->
  ac = unused_code /\
  exists i code, codes !! i = Some code /\ failed i = false /\
                 varchar 50 code = Some c.
Proof.
  revert failed t. induction codes as [|code codes IH]; intros failed t Hc.
  - cbn. congruence.
  - cbn [insert_codes]. intros Hres.
    destruct (failed 0%nat) eqn:Hf.
    + destruct (IH _ _ Hc Hres) as (-> & i & code' & Hi & Hfi & Hv).
      split; [done|]. by exists (S i), code'.
    + destruct (access_codes (insert_code code t) !! c) as [ac'|] eqn:Hc'.
      * destruct (insert_code_new _ _ _ _ Hc Hc') as (Hv & ->).
        rewrite (insert_codes_keeps _ _ _ _ _ Hc') in Hres.
        injection Hres as <-. split; [done|]. by exists 0%nat, code.
      * destruct (IH _ _ Hc' Hres) as (-> & i & code' & Hi & Hfi & Hv).
        split; [done|]. by exists (S i), code'.
Qed.

Lemma insert_codes_present codes t code stored :
  code ∈ codes -> varchar 50 code = Some stored ->
  is_Some (access_codes (insert_codes (fun _ => false) codes t) !! stored).
Proof.
  revert t. induction codes as [|code' codes IH]; intros t Hin Hv.
  - by apply elem_of_nil in Hin.
  - cbn [insert_codes]. apply elem_of_cons in Hin as [->|Hin].
    + destruct (insert_code_present code' t stored Hv) as [ac Hac].
      rewrite (insert_codes_keeps _ _ _ _ _ Hac). done.
    + by apply IH.
Qed.

Lemma insert_codes_nothing_new failed codes t :
  (forall code stored, code ∈ codes -> varchar 50 code = Some stored ->
                       is_Some (access_codes t !! stored)) ->
  insert_codes failed codes t = t.
Proof.
  revert failed t. induction codes as [|code codes IH]; intros failed t Hall; [done|].
  cbn [insert_codes].
  assert (Hcode : insert_code code t = t).
  { unfold insert_code. destruct (varchar 50 code) as [stored|] eqn:Hv; [|done].
    destruct (Hall code stored) as [ac ->]; [apply list_elem_of_here|done|done]. }
  rewrite Hcode. destruct (failed 0%nat); apply IH;
    intros c stored Hin; apply Hall; by apply list_elem_of_further.
Qed.

(** X18: the inserts never overwrite a row: a code that is in the table,
    used or not, keeps its row, and table [users] is not touched. *)
Theorem insert_codes_keeps_existing_rows failed codes t code ac :
  access_codes t !! code = Some ac ->
  access_codes (insert_codes failed codes t) !! code = Some ac /\
  users (insert_codes failed codes t) = users t.
Proof.
  intros Hc. split; [by apply insert_codes_keeps|apply insert_codes_users].
Qed.

Lemma insert_codes_keeps_existing_rows_witness :
  access_codes (insert_codes (fun _ => false) ["PON-AAAAAAAA"; "PON-BBBBBBBB"] few_codes)
    !! "PON-AAAAAAAA" = Some (used_by 7 100) /\
  users (insert_codes (fun _ => false) ["PON-AAAAAAAA"; "PON-BBBBBBBB"] few_codes)
  = users few_codes.
Proof.
  apply (insert_codes_keeps_existing_rows (fun _ => false)
           ["PON-AAAAAAAA"; "PON-BBBBBBBB"] few_codes "PON-AAAAAAAA" (used_by 7 100)).
  reflexivity.
Defined.

(** X19: a row that is in the table after the inserts and was not before
    is unused, and its code is what the column stores of a code of the
    list whose insert did not fail. *)
Theorem insert_codes_adds_unused_rows failed codes t code ac :
  access_codes t !! code = None ->
  access_codes (insert_codes failed codes t) !! code = Some ac ->
  ac = unused_code /\
  exists i listed, codes !! i = Some listed /\ failed i = false /\
                   varchar 50 listed = Some code.
Proof. apply insert_codes_new. Qed.

Lemma insert_codes_adds_unused_rows_witness :
  unused_code = unused_code /\
  exists i listed, script_codes !! i = Some listed /\
                   (fun _ : nat => false) i = false /\
                   varchar 50 listed = Some "PON2024-003".
Proof.
  apply (insert_codes_adds_unused_rows (fun _ => false) script_codes few_codes
           "PON2024-003" unused_code); vm_compute; reflexivity.
Defined.

(** X20: running the inserts of the same codes once more, with or without
    failures, changes nothing. *)
Theorem insert_codes_again failed codes t :
  insert_codes failed codes (insert_codes (fun _ => false) codes t)
  = insert_codes (fun _ => false) codes t.
Proof.
  apply insert_codes_nothing_new. intros code stored Hin Hv.
  by apply (insert_codes_present codes t code).
Qed.

(** *** Statistics *)

Lemma stats_split (m : gmap string AccessCode) :
  size m = (size (filter (fun kv => is_used kv.2 = false) m)
            + size (filter (fun kv => is_used kv.2 = true) m))%nat.
Proof.
  induction m as [|c ac m Hc _ IH] using map_first_key_ind.
  - by rewrite !map_filter_empty, !map_size_empty.
  - rewrite map_size_insert_None by done.
    destruct (is_used ac) eqn:Hu.
    + rewrite (map_filter_insert_False _ _ c ac) by (cbn; congruence).
      rewrite (map_filter_insert_True _ _ c ac) by done.
      rewrite delete_id by done.
      rewrite map_size_insert_None by (by rewrite map_lookup_filter_None; left).
      lia.
    + rewrite (map_filter_insert_True _ _ c ac) by done.
      rewrite (map_filter_insert_False _ _ c ac) by (cbn; congruence).
      rewrite delete_id by done.
      rewrite map_size_insert_None by (by rewrite map_lookup_filter_None; left).
      lia.
Qed.

Lemma insert_code_fresh code t :
  (String.length code <= 50)%nat -> access_codes t !! code = None ->
  insert_code code t
  = {| users := users t;
       access_codes := <[code := unused_code]> (access_codes t) |}.
Proof.
  intros Hl Hc. unfold insert_code. by rewrite (varchar_short 50 code Hl), Hc.
Qed.

Lemma stats_insert_unused code t :
  access_codes t !! code = None ->
  stats {| users := users t;
           access_codes := <[code := unused_code]> (access_codes t) |}
  = (S (stats t).1.1, S (stats t).1.2, (stats t).2).
Proof.
  intros Hc. unfold stats. cbn [access_codes fst snd].
  rewrite map_size_insert_None by done.
  rewrite (map_filter_insert_True _ _ code unused_code) by done.
  rewrite (map_filter_insert_False _ _ code unused_code) by (cbn; congruence).
  rewrite delete_id by done.
  rewrite map_size_insert_None by (by rewrite map_lookup_filter_None; left).
  reflexivity.
Qed.

Lemma stats_insert_codes codes : forall t,
  NoDup codes ->
  (forall c, c ∈ codes ->
     (String.length c <= 50)%nat /\ access_codes t !! c = None) ->
  stats (insert_codes (fun _ => false) codes t)
  = (((stats t).1.1 + length codes)%nat,
     ((stats t).1.2 + length codes)%nat,
     (stats t).2).
Proof.
  induction codes as [|code codes IH]; intros t Hnd Hfresh.
  - cbn [insert_codes length]. rewrite !Nat.add_0_r. by destruct (stats t) as [[? ?] ?].
  - apply NoDup_cons in Hnd as [Hhead Hnd].
    destruct (Hfresh code) as [Hl Hc]; [apply list_elem_of_here|].
    cbn [insert_codes]. rewrite (insert_code_fresh code t Hl Hc), IH.
    + rewrite (stats_insert_unused code t Hc). cbn [fst snd length].
      rewrite !Nat.add_succ_r. reflexivity.
    + done.
    + intros c Hin. destruct (Hfresh c) as [Hl' Hc']; [by apply list_elem_of_further|].
      split; [done|]. cbn. rewrite lookup_insert_ne; [done|].
      intros ->. done.
Qed.

Lemma created_codes fuel random failed t codes t' :
  (forall i, (0 <= random i)%Q /\ (random i < 1)%Q) ->
  createAccessCodes fuel random failed t = Some (codes, t') ->
  t' = insert_codes failed codes t /\
  length codes = numberOfCodes /\ NoDup codes /\
  forall code, code ∈ codes ->
    is_pon_code code /\ access_codes t !! code = None.
Proof.
  intros Hr. unfold createAccessCodes.
  destruct (collect_codes _ _ _ _ _) as [cs|] eqn:Hcs; [|done].
  intros [= -> <-].
  destruct (collect_codes_spec _ _ _ _ _ _ Hcs) as (new & -> & Hlen & Hnd & Hnew).
  { simpl. lia. }
  simpl in *. split; [done|]. split; [done|]. split; [done|].
  intros code Hin. destruct (Hnew code Hin) as (HE & _ & k & _ & ->). split.
  - apply generateRandomCode_pon. intros i _. apply Hr.
  - by apply not_elem_of_dom.
Qed.

Lemma created_codes_stats fuel random t codes t' :
  (forall i, (0 <= random i)%Q /\ (random i < 1)%Q) ->
  createAccessCodes fuel random (fun _ => false) t = Some (codes, t') ->
  length codes = 30%nat /\
  users t' = users t /\
  stats t' = (((stats t).1.1 + 30)%nat, ((stats t).1.2 + 30)%nat, (stats t).2).
Proof.
  intros Hr Hrun.
  destruct (created_codes _ _ _ _ _ _ Hr Hrun) as (-> & Hlen & Hnd & Hcodes).
  split; [done|]. split; [apply insert_codes_users|].
  rewrite stats_insert_codes, Hlen; [done..|].
  intros c Hin. destruct (Hcodes c Hin) as [Hp Hc]. split; [|done].
  destruct (pon_code_plain c Hp) as [-> _]. lia.
Qed.

(** X21: with draws in [0, 1) that give, within the rounds looked at, 30
    codes that are not in the table, and with no insert failing,
    [createAccessCodes] ends; it returns 30 codes, and the statistics it
    prints afterwards show 30 more codes in total, 30 more unused ones and
    as many used ones as before; [users] is unchanged. *)
Theorem createAccessCodes_adds_unused_codes fuel random t :
  (forall i, (0 <= random i)%Q /\ (random i < 1)%Q) ->
  (numberOfCodes <= size (fresh_draws fuel random (dom (access_codes t))))%nat ->
  exists codes t',
    createAccessCodes fuel random (fun _ => false) t = Some (codes, t') /\
    length codes = 30%nat /\
    users t' = users t /\
    stats t' = (((stats t).1.1 + 30)%nat, ((stats t).1.2 + 30)%nat, (stats t).2).
Proof.
  intros Hr Hsize.
  destruct (createAccessCodes_ends fuel random (fun _ => false) t Hsize) as [codes Hrun].
  exists codes, (insert_codes (fun _ => false) codes t). split; [exact Hrun|].
  by apply (created_codes_stats fuel random).
Qed.

Lemma createAccessCodes_adds_unused_codes_witness :
  exists codes t',
    createAccessCodes 31 rising_draws (fun _ => false) few_codes = Some (codes, t') /\
    length codes = 30%nat /\
    users t' = users few_codes /\
    stats t' = (((stats few_codes).1.1 + 30)%nat, ((stats few_codes).1.2 + 30)%nat,
                (stats few_codes).2).
Proof.
  apply (createAccessCodes_adds_unused_codes 31 rising_draws few_codes
           rising_draws_in_range).
  apply (bool_decide_unpack _). vm_compute. reflexivity.
Defined.

Lemma created_code_granted fuel random t codes t' code now id d :
  (forall i, (0 <= random i)%Q /\ (random i < 1)%Q) ->
  createAccessCodes fuel random (fun _ => false) t = Some (codes, t') ->
  code ∈ codes ->
  serve now (command_activate id ("/activate " +:+ code) d) t'
  = (Granted, redeemed id code now d t').
Proof.
  intros Hr Hrun Hin.
  destruct (created_codes _ _ _ _ _ _ Hr Hrun) as (-> & Hlen & Hnd & Hcodes).
  destruct (Hcodes code Hin) as [Hp Hc].
  destruct (pon_code_plain code Hp) as (Hl & _ & _ & _ & _ & Hne).
  destruct (insert_codes_present codes t code code Hin) as [ac Hac];
    [apply varchar_short; lia|].
  destruct (insert_codes_new _ _ _ _ _ Hc Hac) as (-> & _).
  rewrite serve_activate, (pon_code_token code Hp).
  destruct code as [|a code]; [done|].
  rewrite Hac. cbn [is_used unused_code]. by rewrite apply_redeem_writes.
Qed.

(** X22: with draws in [0, 1) that give, within the rounds looked at, 30
    codes that are not in the table, and with no insert failing,
    [createAccessCodes] ends, and every code it lists is accepted by
    [/activate] on the store it leaves: the answer is [Granted] and the
    store is that of a redemption. *)
Theorem created_code_is_accepted fuel random t :
  (forall i, (0 <= random i)%Q /\ (random i < 1)%Q) ->
  (numberOfCodes <= size (fresh_draws fuel random (dom (access_codes t))))%nat ->
  exists codes t',
    createAccessCodes fuel random (fun _ => false) t = Some (codes, t') /\
    length codes = 30%nat /\
    forall code now id d,
      code ∈ codes ->
      serve now (command_activate id ("/activate " +:+ code) d) t'
      = (Granted, redeemed id code now d t').
Proof.
  intros Hr Hsize.
  destruct (createAccessCodes_ends fuel random (fun _ => false) t Hsize) as [codes Hrun].
  exists codes, (insert_codes (fun _ => false) codes t). split; [exact Hrun|].
  split; [by apply (created_codes_stats fuel random t codes _ Hr Hrun)|].
  intros code now id d Hin. by apply (created_code_granted fuel random t codes).
Qed.

Lemma created_code_is_accepted_witness :
  exists codes t',
    createAccessCodes 31 rising_draws (fun _ => false) few_codes = Some (codes, t') /\
    length codes = 30%nat /\
    forall code now id d,
      code ∈ codes ->
      serve now (command_activate id ("/activate " +:+ code) d) t'
      = (Granted, redeemed id code now d t').
Proof.
  apply (created_code_is_accepted 31 rising_draws few_codes rising_draws_in_range).
  apply (bool_decide_unpack _). vm_compute. reflexivity.
Defined.

(** *** The file of codes *)

Lemma pon_code_one_line code :
  is_pon_code code ->
  every_char (fun c => negb (Ascii.eqb c (ascii_of_nat 10))) code = true.
Proof.
  intros (suffix & -> & _ & He). rewrite every_char_app.
  rewrite (every_char_impl in_alphabet _ suffix); [reflexivity| |exact He].
  intros c Hc. apply (alphabet_plain c Hc).
Qed.

Lemma split_join_lines codes :
  codes <> [] ->
  (forall code, code ∈ codes ->
     every_char (fun c => negb (Ascii.eqb c (ascii_of_nat 10))) code = true) ->
  split (ascii_of_nat 10) (codesText codes) = codes.
Proof.
  induction codes as [|code codes IH]; [done|]. intros _ Hall.
  destruct codes as [|code' codes].
  - cbn. apply split_without_sep, Hall, list_elem_of_here.
  - change (codesText (code :: code' :: codes))
      with (code +:+ String (ascii_of_nat 10) (codesText (code' :: codes))).
    rewrite split_piece by apply Hall, list_elem_of_here.
    rewrite IH; [done|done|].
    intros c Hin. by apply Hall, list_elem_of_further.
Qed.

Lemma created_codes_file fuel random failed t codes t' :
  (forall i, (0 <= random i)%Q /\ (random i < 1)%Q) ->
  createAccessCodes fuel random failed t = Some (codes, t') ->
  split (ascii_of_nat 10) (codesText codes) = codes.
Proof.
  intros Hr Hrun.
  destruct (created_codes _ _ _ _ _ _ Hr Hrun) as (_ & Hlen & _ & Hcodes).
  apply split_join_lines.
  - intros ->. discriminate.
  - intros code Hin. apply pon_code_one_line. by apply Hcodes.
Qed.

(** X24: with draws in [0, 1) that give, within the rounds looked at, 30
    codes that are not in the table, [createAccessCodes] ends whether
    inserts fail or not, and the text written to [access_codes.txt] holds
    the created codes, one on each line and in order: splitting it at the
    line breaks gives the list back. *)
Theorem codes_file_lists_created_codes fuel random failed t :
  (forall i, (0 <= random i)%Q /\ (random i < 1)%Q) ->
  (numberOfCodes <= size (fresh_draws fuel random (dom (access_codes t))))%nat ->
  exists codes t',
    createAccessCodes fuel random failed t = Some (codes, t') /\
    length codes = 30%nat /\
    split (ascii_of_nat 10) (codesText codes) = codes.
Proof.
  intros Hr Hsize.
  destruct (createAccessCodes_ends fuel random failed t Hsize) as [codes Hrun].
  exists codes, (insert_codes failed codes t). split; [exact Hrun|].
  split; [by destruct (created_codes _ _ _ _ _ _ Hr Hrun) as (_ & Hlen & _)|].
  by apply (created_codes_file fuel random failed t codes _ Hr Hrun).
Qed.

Lemma codes_file_lists_created_codes_witness :
  exists codes t',
    createAccessCodes 31 rising_draws (fun _ => true) few_codes = Some (codes, t') /\
    length codes = 30%nat /\
    split (ascii_of_nat 10) (codesText codes) = codes.
Proof.
  apply (codes_file_lists_created_codes 31 rising_draws (fun _ => true) few_codes
           rising_draws_in_range).
  apply (bool_decide_unpack _). vm_compute. reflexivity.
Defined.

Lemma failed_insert_unknown fuel random failed t codes t' i code now id d :
  (forall j, (0 <= random j)%Q /\ (random j < 1)%Q) ->
  createAccessCodes fuel random failed t = Some (codes, t') ->
  codes !! i = Some code ->
  failed i = true ->
  access_codes t' !! code = None /\
  serve now (command_activate id ("/activate " +:+ code) d) t' = (CodeNotFound, t').
Proof.
  intros Hr Hrun Hi Hf.
  destruct (created_codes _ _ _ _ _ _ Hr Hrun) as (-> & Hlen & Hnd & Hcodes).
  destruct (Hcodes code) as [Hp Hc]; [by eapply list_elem_of_lookup_2|].
  assert (Hnone : access_codes (insert_codes failed codes t) !! code = None).
  { destruct (access_codes (insert_codes failed codes t) !! code) as [ac|] eqn:Hac;
      [|done].
    destruct (insert_codes_new _ _ _ _ _ Hc Hac) as (_ & j & listed & Hj & Hfj & Hv).
    destruct (Hcodes listed) as [Hp' _]; [by eapply list_elem_of_lookup_2|].
    destruct (pon_code_plain listed Hp') as (Hl' & _).
    rewrite varchar_short in Hv by lia. injection Hv as ->.
    rewrite (NoDup_lookup _ _ _ _ Hnd Hj Hi) in Hfj. congruence. }
  split; [done|].
  destruct (pon_code_plain code Hp) as (_ & _ & _ & _ & _ & Hne).
  rewrite serve_activate, (pon_code_token code Hp).
  destruct code as [|a code]; [done|]. by rewrite Hnone.
Qed.

(** X23: with draws in [0, 1) that give, within the rounds looked at, 30
    codes that are not in the table, [createAccessCodes] ends with its 30
    codes whatever inserts fail; a code whose insert failed is listed all
    the same, but it is not in the table: [/activate] with it answers that
    the code is not found. *)
Theorem failed_insert_is_listed_but_unknown fuel random failed t :
  (forall j, (0 <= random j)%Q /\ (random j < 1)%Q) ->
  (numberOfCodes <= size (fresh_draws fuel random (dom (access_codes t))))%nat ->
  exists codes t',
    createAccessCodes fuel random failed t = Some (codes, t') /\
    length codes = 30%nat /\
    forall i code now id d,
      codes !! i = Some code ->
      failed i = true ->
      access_codes t' !! code = None /\
      serve now (command_activate id ("/activate " +:+ code) d) t' = (CodeNotFound, t').
Proof.
  intros Hr Hsize.
  destruct (createAccessCodes_ends fuel random failed t Hsize) as [codes Hrun].
  exists codes, (insert_codes failed codes t). split; [exact Hrun|].
  split; [by destruct (created_codes _ _ _ _ _ _ Hr Hrun) as (_ & Hlen & _)|].
  intros i code now id d Hi Hf.
  by apply (failed_insert_unknown fuel random failed t codes _ i).
Qed.

Lemma failed_insert_is_listed_but_unknown_witness :
  exists codes t',
    createAccessCodes 31 rising_draws (fun i => (i =? 1)%nat) few_codes
    = Some (codes, t') /\
    length codes = 30%nat /\
    forall i code now id d,
      codes !! i = Some code ->
      (i =? 1)%nat = true ->
      access_codes t' !! code = None /\
      serve now (command_activate id ("/activate " +:+ code) d) t' = (CodeNotFound, t').
Proof.
  apply (failed_insert_is_listed_but_unknown 31 rising_draws (fun i => (i =? 1)%nat)
           few_codes rising_draws_in_range).
  apply (bool_decide_unpack _). vm_compute. reflexivity.
Defined.

(** ** Schema bootstrap ([initDatabase]) *)

Lemma initDatabase_initialised db : initDatabase db = Some (initialised db).
Proof. by destruct db as [[|rows|rows] [codes|]]. Qed.

(** X25: [initDatabase] succeeds on every database, whether the tables
    and the column [has_access] exist or not, and so does each prefix of
    its statements; afterwards both tables exist, with the rows they had,
    a row of [users] from before the column having [has_access = FALSE]. *)
Theorem initDatabase_keeps_rows db :
  initDatabase db = Some (initialised db) /\
  tables (initialised db)
  = Some {| users := upgraded_rows (users_table db);
            access_codes := default ∅ (access_codes_table db) |} /\
  forall k, is_Some (initDatabase_interrupted k db).
Proof.
  split; [apply initDatabase_initialised|].
  split; [reflexivity|].
  intros k. unfold initDatabase_interrupted, initDatabase_statements.
  destruct k as [|[|[|[|k]]]], db as [[|rows|rows] [codes|]]; cbn; done.
Qed.

Lemma execute_initialised s db :
  execute s (initialised db) = Some (initialised db).
Proof. destruct s; reflexivity. Qed.

Lemma initialised_step s db db' :
  execute s db = Some db' -> initialised db' = initialised db.
Proof.
  destruct s, db as [[|rows|rows] [codes|]]; cbn; intros [= <-]; reflexivity.
Qed.

Lemma initialised_steps ss : forall db db',
  execute_all ss db = Some db' -> initialised db' = initialised db.
Proof.
  induction ss as [|s ss IH]; intros db db'; cbn [execute_all].
  - by intros [= <-].
  - destruct (execute s db) as [db1|] eqn:Hs; [|done].
    intros Hrest. rewrite (IH _ _ Hrest). by apply (initialised_step s).
Qed.

(** X26: [initDatabase] run again after it was interrupted at any point,
    or after it ran to its end, gives the database that an uninterrupted
    first run gives. *)
Theorem initDatabase_resumes k db db1 :
  initDatabase_interrupted k db = Some db1 ->
  initDatabase db1 = initDatabase db.
Proof.
  intros Hk. rewrite (initDatabase_initialised db1), (initDatabase_initialised db).
  f_equal. by apply (initialised_steps (take k initDatabase_statements)).
Qed.

Lemma initDatabase_resumes_witness :
  initDatabase
    {| users_table := UsersWithoutAccess ∅; access_codes_table := None |}
  = initDatabase {| users_table := NoUsersTable; access_codes_table := None |}.
Proof.
  apply (initDatabase_resumes 1
           {| users_table := NoUsersTable; access_codes_table := None |}
           {| users_table := UsersWithoutAccess ∅; access_codes_table := None |}).
  reflexivity.
Defined.

(** X27: a user whose row is older than the column [has_access] is denied
    by [/start] and by the button after [initDatabase]; a granted
    [/activate] then gives access and keeps the lesson number and the date
    of the row. *)
Theorem legacy_user_keeps_lesson db rows t id r now name text d :
  users_table db = UsersWithoutAccess rows ->
  rows !! id = Some r ->
  initDatabase db ≫= tables = Some t ->
  serve now (bot_start id name d) t = (AccessDeniedBot, t) /\
  serve now (hears_continue id d) t = (AccessDeniedLessons, t) /\
  ((serve now (command_activate id text d) t).1 = Granted ->
   users (serve now (command_activate id text d) t).2 !! id
   = Some {| has_access := true;
             current_lesson := old_current_lesson r;
             last_lesson_date := old_last_lesson_date r |}).
Proof.
  intros Hdb Hr. rewrite (initDatabase_initialised db).
  cbn [mbind option_bind]. unfold tables, initialised. cbn [users_table access_codes_table]. rewrite Hdb. cbn [upgraded_rows].
  intros [= <-].
  assert (Hu : users {| users := with_default_access <$> rows;
                        access_codes := default ∅ (access_codes_table db) |} !! id
               = Some (with_default_access r)).
  { cbn. by rewrite lookup_fmap, Hr. }
  split; [by rewrite serve_start, Hu|].
  split; [by rewrite serve_continue, Hu|].
  rewrite serve_activate.
  destruct (code_token text) as [[|a code]|]; [done..| |done].
  destruct (_ !! String a code) as [ac|]; [|done].
  destruct (is_used ac); [done|]. intros _.
  cbn [fst snd]. rewrite apply_redeem_writes.
  unfold redeemed. rewrite Hu. cbn [users]. rewrite lookup_insert_eq. reflexivity.
Qed.

Lemma legacy_user_keeps_lesson_witness :
  exists t,
    initDatabase legacy_with_code ≫= tables = Some t /\
    users (serve 100 (command_activate 7 "/activate PON2024-001" "2026-01-02") t).2
      !! 7
    = Some {| has_access := true; current_lesson := 4;
              last_lesson_date := Some "2025-12-31" |}.
Proof.
  eexists. split; [reflexivity|].
  refine (proj2 (proj2 (legacy_user_keeps_lesson legacy_with_code _ _ 7
            {| old_current_lesson := 4; old_last_lesson_date := Some "2025-12-31" |}
            100 "Ann" "/activate PON2024-001" "2026-01-02" _ _ _)) _);
    reflexivity.
Defined.
